(** * fix_framer_site.py: a shallow embedding and its verified properties

    The script repairs a local mirror of a Framer site: it scans the text
    files of the mirror for references to framerusercontent.com, works out
    which referenced modules, search indexes and assets are absent on disk
    and downloads them.

    Modelling choices (all of them about the Python runtime, none about the
    script itself):
    - a Python [str] is a list of Unicode code points ([N]);
    - the file system is a finite map from absolute paths (lists of
      component names) to nodes, with POSIX name resolution done component
      by component; symbolic links and permissions are not modelled;
    - a regular file holds the text [read_text] returns for it, or nothing
      when [read_text] raises; a file written by a download holds the
      bytes received as [read_text] decodes them (UTF-8, undecodable bytes
      dropped, universal newlines);
    - [exists], [is_dir] and [is_file] are first taken to return, as they
      do when the operating system answers the [stat] call; the errors they
      raise again (a name that is too long, for instance) are added in a
      second layer, the functions with the suffix [_os];
    - the network is an oracle from URLs to responses;
    - the [re] patterns of the script are terms of a small regular
      expression type, run by a backtracking matcher with Python's
      priorities (leftmost, greedy, ordered alternation). *)

From Stdlib Require Import NArith Ascii String.
From stdpp Require Import gmap strings list sorting.

#[local] Set Warnings "-clear-no-such-hyp".
Open Scope N_scope.

(** ** Python strings *)

Abbreviation char := N (only parsing).
Abbreviation str := (list N) (only parsing).

(** Code points of an ASCII literal. *)
Fixpoint cps (s : string) : str :=
  match s with
  | EmptyString => []
  | String a s' => N_of_ascii a :: cps s'
  end.

Definition DQUOTE : char := 34.
Definition SQUOTE : char := 39.
Definition GT : char := 62.
Definition SLASH : char := 47.
Definition DOT : char := 46.

Definition in_range (lo hi c : char) : bool := (lo <=? c) && (c <=? hi).

(** [str.lower()] restricted to what the script compares it with: the
    extension sets below are made of the letters c h j l m n o s t, and the
    only code points that lower-case to one of those are their ASCII
    capitals. *)
Definition lower_char (c : char) : char :=
  if in_range 65 90 c then c + 32 else c.
Definition lower (s : str) : str := map lower_char s.

(** [s.startswith(p)] and [s.endswith(p)]. *)
Fixpoint startswith (p s : str) : bool :=
  match p, s with
  | [], _ => true
  | a :: p', b :: s' => (a =? b) && startswith p' s'
  | _ :: _, [] => false
  end.
Definition endswith (p s : str) : bool := startswith (rev p) (rev s).

(** The order [sorted] uses on strings: lexicographic on code points. *)
Fixpoint str_leb (a b : str) : bool :=
  match a, b with
  | [], _ => true
  | _ :: _, [] => false
  | x :: a', y :: b' => (x <? y) || ((x =? y) && str_leb a' b')
  end.
Definition str_le (a b : str) : Prop := str_leb a b = true.
Global Instance str_le_dec : RelDecision str_le.
Proof. intros a b. unfold str_le. apply _. Defined.

(** [sorted(s)] for a set of strings. *)
Definition sorted (s : gset str) : list str := merge_sort str_le (elements s).

(** ** Regular expressions

    The fragment of [re] syntax the script uses: literals, character
    classes, concatenation, alternation, [?], and [*] and [+] applied to a
    character class (every quantified atom in the script is a single class
    or character). *)

Inductive regex : Type :=
| Eps
| Chr (c : char)
| Cls (p : char → bool)
| Cat (r1 r2 : regex)
| Alt (r1 r2 : regex)
| Opt (r : regex)
| Star (p : char → bool)
| Plus (p : char → bool).

Fixpoint lit (s : str) : regex :=
  match s with
  | [] => Eps
  | c :: s' => Cat (Chr c) (lit s')
  end.

(** Character classes of the script. *)
Definition cls_word (c : char) : bool :=          (* [A-Za-z0-9_-] *)
  in_range 65 90 c || in_range 97 122 c || in_range 48 57 c
  || (c =? 95) || (c =? 45).
Definition cls_asset (c : char) : bool :=         (* [A-Za-z0-9_\-\.] *)
  cls_word c || (c =? DOT).
Definition cls_ref (c : char) : bool :=           (* [^Q'>] *)
  negb ((c =? DQUOTE) || (c =? SQUOTE) || (c =? GT)).
Definition cls_unquoted (c : char) : bool :=      (* [^Q\'] *)
  negb ((c =? DQUOTE) || (c =? SQUOTE)).
Definition cls_quote (c : char) : bool :=         (* [Q\'] *)
  (c =? DQUOTE) || (c =? SQUOTE).
(** [\s] on a [str] pattern: the code points for which [str.isspace] holds. *)
Definition cls_space (c : char) : bool :=
  in_range 9 13 c || in_range 28 32 c || (c =? 133) || (c =? 160)
  || (c =? 5760) || in_range 8192 8202 c || (c =? 8232) || (c =? 8233)
  || (c =? 8239) || (c =? 8287) || (c =? 12288).

(** The backtracking matcher, in continuation-passing style: [mt r s k]
    matches [r] at the head of [s] and hands the rest of the input to [k];
    when [k] fails the matcher tries its next alternative, in the order
    [re] tries them (longest repetition first, left alternative first). *)
Section Matcher.
Context {A : Type}.

Fixpoint star (p : char → bool) (s : str) (k : str → option A) : option A :=
    match s with
    | c :: s' =>
        if p c then
          match star p s' k with
          | Some r => Some r
          | None => k s
          end
        else k s
    | [] => k []
    end.

Definition plus (p : char → bool) (s : str) (k : str → option A) : option A :=
    match s with
    | c :: s' => if p c then star p s' k else None
    | [] => None
    end.

Fixpoint mt (r : regex) (s : str) (k : str → option A) : option A :=
    match r with
    | Eps => k s
    | Chr c =>
        match s with
        | x :: s' => if x =? c then k s' else None
        | [] => None
        end
    | Cls p =>
        match s with
        | x :: s' => if p x then k s' else None
        | [] => None
        end
    | Cat r1 r2 => mt r1 s (λ s1, mt r2 s1 k)
    | Alt r1 r2 =>
        match mt r1 s k with
        | Some x => Some x
        | None => mt r2 s k
        end
    | Opt r1 =>
        match mt r1 s k with
        | Some x => Some x
        | None => k s
        end
    | Star p => star p s k
    | Plus p => plus p s k
    end.
End Matcher.

(** A pattern with exactly one capturing group: what precedes the group,
    the group, what follows it. *)
Record pattern : Type := Pattern { pre : regex; grp : regex; post : regex }.

(** [match_at pat s]: the match of [pat] anchored at the head of [s], as
    the text of group 1 and the length of the whole match. *)
Definition match_at (pat : pattern) (s : str) : option (str * nat) :=
  mt (pre pat) s (λ s1,
    mt (grp pat) s1 (λ s2,
      mt (post pat) s2 (λ s3,
        Some (take (length s1 - length s2) s1,
              (length s - length s3)%nat)))).

(** [pattern.findall(text)] for a pattern with one group: scan left to
    right, record group 1 of each match and resume right after the match.
    [skip] counts the characters still covered by the last match.  (No
    pattern of the script matches the empty string.) *)
Fixpoint findall_from (pat : pattern) (s : str) (skip : nat) : list str :=
  match skip with
  | S n =>
      match s with
      | [] => []
      | _ :: s' => findall_from pat s' n
      end
  | O =>
      match match_at pat s with
      | Some (g, len) =>
          g :: match s with
               | [] => []
               | _ :: s' => findall_from pat s' (len - 1)
               end
      | None =>
          match s with
          | [] => []
          | _ :: s' => findall_from pat s' 0
          end
      end
  end.

Definition findall (pat : pattern) (text : str) : list str :=
  findall_from pat text 0.

(** *** The patterns of the script

    In the comments, [Q] stands for the double quote character. *)

(** [framerusercontent\.com/sites/([A-Za-z0-9_-]+)] *)
Definition pattern_url : pattern :=
  Pattern (lit (cps "framerusercontent.com/sites/")) (Plus cls_word) Eps.

(** [sites/([A-Za-z0-9_-]+)/searchIndex-[^\Q'>]+\.json] *)
Definition pattern_local : pattern :=
  Pattern (lit (cps "sites/")) (Plus cls_word)
    (Cat (lit (cps "/searchIndex-")) (Cat (Plus cls_ref) (lit (cps ".json")))).

(** [import\(\s*[Q\']\./([^Q\']+\.mjs)[Q\']\s*\)] *)
Definition dyn_import : pattern :=
  Pattern
    (Cat (lit (cps "import(")) (Cat (Star cls_space)
       (Cat (Cls cls_quote) (lit (cps "./")))))
    (Cat (Plus cls_unquoted) (lit (cps ".mjs")))
    (Cat (Cls cls_quote) (Cat (Star cls_space) (lit (cps ")")))).

(** [from\s+[Q\']\./([^Q\']+\.mjs)[Q\']] *)
Definition static_import : pattern :=
  Pattern
    (Cat (lit (cps "from")) (Cat (Plus cls_space)
       (Cat (Cls cls_quote) (lit (cps "./")))))
    (Cat (Plus cls_unquoted) (lit (cps ".mjs")))
    (Cls cls_quote).

(** [(?:png|jpe?g|webp|gif|mp4|svg|woff2?)] *)
Definition asset_ext : regex :=
  Alt (lit (cps "png"))
  (Alt (Cat (lit (cps "jp")) (Cat (Opt (Chr 101)) (Chr 103)))
  (Alt (lit (cps "webp"))
  (Alt (lit (cps "gif"))
  (Alt (lit (cps "mp4"))
  (Alt (lit (cps "svg"))
       (Cat (lit (cps "woff")) (Opt (Chr 50)))))))).

(** [https://framerusercontent\.com/assets/([A-Za-z0-9_\-\.]+\.(?:...))] *)
Definition asset_pattern : pattern :=
  Pattern (lit (cps "https://framerusercontent.com/assets/"))
    (Cat (Plus cls_asset) (Cat (Chr DOT) asset_ext))
    Eps.

(** [re.escape(s)] yields a pattern that matches exactly [s]. *)
Definition re_escape (s : str) : regex := lit s.

(** [https://framerusercontent\.com/sites/] + [re.escape(site_id)]
    + [/(searchIndex-[^\Q'>]+\.json)] *)
Definition index_pattern (site_id : str) : pattern :=
  Pattern
    (Cat (lit (cps "https://framerusercontent.com/sites/"))
       (Cat (re_escape site_id) (Chr SLASH)))
    (Cat (lit (cps "searchIndex-")) (Cat (Plus cls_ref) (lit (cps ".json"))))
    Eps.

(** ** Paths and the file system *)

(** A [pathlib.Path]: the components of an absolute POSIX path.  [pathlib]
    drops empty and [.] components when it parses a string and keeps [..]. *)
Abbreviation path := (list (list N)) (only parsing).

Definition DOTDOT : str := cps "..".

(** [str.split(sep)] for a one-character separator. *)
Fixpoint split_on (sep : char) (s : str) : list str :=
  match s with
  | [] => [[]]
  | c :: s' =>
      if c =? sep then [] :: split_on sep s'
      else match split_on sep s' with
           | w :: ws => (c :: w) :: ws
           | [] => [[c]]
           end
  end.

Definition is_part (w : str) : bool :=
  negb (bool_decide (w = [])) && negb (bool_decide (w = [DOT])).

(** The components [pathlib] parses out of a string. *)
Definition parts (s : str) : path := filter (λ w, is_part w = true) (split_on SLASH s).

(** [P / s]: an absolute right operand replaces the left one. *)
Definition joinpath (P : path) (s : str) : path :=
  if startswith [SLASH] s then parts s else P ++ parts s.
Infix "//" := joinpath (at level 40, left associativity).

(** [P.parent], [P.name], [P.suffix]. *)
Definition parent (P : path) : path := removelast P.
Definition name (P : path) : str := List.last P [].

Fixpoint rfind (c : char) (s : str) : option nat :=
  match s with
  | [] => None
  | x :: s' =>
      match rfind c s' with
      | Some i => Some (S i)
      | None => if x =? c then Some O else None
      end
  end.

Definition suffix (P : path) : str :=
  let n := name P in
  match rfind DOT n with
  | Some i => if bool_decide (0 < i < length n - 1)%nat then drop i n else []
  | None => []
  end.

(** A node is a directory or a regular file; a file holds the text
    [read_text] returns, [None] when [read_text] raises. *)
Inductive node : Type :=
| Dir
| File (text : option (list N)).

Global Instance node_eq_dec : EqDecision node.
Proof. solve_decision. Defined.

(** The file system maps the location of every entry (a path without [..])
    to its node; the empty path is the root directory [/].  An entry is
    reachable only through directories, one component at a time. *)
Abbreviation filesystem := (gmap (list (list N)) node) (only parsing).

Definition node_at (fs : filesystem) (q : path) : option node :=
  match q with
  | [] => Some Dir
  | _ => fs !! q
  end.

Definition is_dir_at (fs : filesystem) (q : path) : bool :=
  bool_decide (node_at fs q = Some Dir).

(** Name resolution from the location [cur]: every component is looked up
    in a directory; [..] moves to the parent. *)
Fixpoint walk (fs : filesystem) (cur : path) (P : path) : option path :=
  match P with
  | [] => Some cur
  | c :: P' =>
      if is_dir_at fs cur then
        if bool_decide (c = DOTDOT) then walk fs (parent cur) P'
        else match node_at fs (cur ++ [c]) with
             | Some _ => walk fs (cur ++ [c]) P'
             | None => None
             end
      else None
  end.

(** [os.stat] without the metadata: the node a path denotes.  [exists],
    [is_dir] and [is_file] are given as they return when the operating
    system answers the call; the errors they raise again are the matter of
    the functions [exists_os] and [is_dir_os] below. *)
Definition stat (fs : filesystem) (P : path) : option node :=
  q ← walk fs [] P; node_at fs q.

Definition exists_ (fs : filesystem) (P : path) : bool :=
  bool_decide (is_Some (stat fs P)).
Definition is_dir (fs : filesystem) (P : path) : bool :=
  bool_decide (stat fs P = Some Dir).
Definition is_file (fs : filesystem) (P : path) : bool :=
  match stat fs P with
  | Some (File _) => true
  | _ => false
  end.

(** [P.read_text(encoding=utf-8, errors=ignore)]; [None] when it raises
    (the path is not a readable regular file). *)
Definition read_text (fs : filesystem) (P : path) : option str :=
  match stat fs P with
  | Some (File t) => t
  | _ => None
  end.

(** A name a directory entry can have. *)
Definition valid_name (n : str) : bool :=
  negb (bool_decide (n = [])) && negb (bool_decide (n = [DOT]))
  && negb (bool_decide (n = DOTDOT)) && negb (bool_decide (SLASH ∈ n)).

(** [rel] leads from the directory at [q] down to an entry, through
    directories only. *)
Fixpoint descends (fs : filesystem) (q : path) (rel : path) : bool :=
  match rel with
  | [] => true
  | n :: rel' => is_dir_at fs q && valid_name n && descends fs (q ++ [n]) rel'
  end.

Fixpoint strip_prefix (q k : path) : option path :=
  match q, k with
  | [], _ => Some k
  | a :: q', b :: k' => if bool_decide (a = b) then strip_prefix q' k' else None
  | _ :: _, [] => None
  end.

(** [P.rglob] with the pattern [*]: every entry below the directory [P], at any depth.  The
    order of the entries is the operating system's; the script only adds
    what it finds to sets. *)
Definition rglob (fs : filesystem) (P : path) : list path :=
  match walk fs [] P with
  | Some q =>
      omap (λ k,
              rel ← strip_prefix q k;
              if negb (bool_decide (rel = [])) && descends fs q rel
              then Some (P ++ rel) else None)
           (elements (dom fs))
  | None => []
  end.

(** [P.glob] with the pattern [*.mjs]: the entries directly inside [P]
    whose name ends in [.mjs]. *)
Definition glob_mjs (fs : filesystem) (P : path) : list path :=
  match walk fs [] P with
  | Some q =>
      omap (λ k,
              rel ← strip_prefix q k;
              match rel with
              | [n] => if descends fs q rel && endswith (cps ".mjs") n
                       then Some (P ++ rel) else None
              | _ => None
              end)
           (elements (dom fs))
  | None => []
  end.

(** [P.mkdir(parents=True, exist_ok=True)]: creates the missing
    directories along [P]; [false] when it raises because a component is a
    regular file (what was created before stays). *)
Fixpoint mkdir_from (fs : filesystem) (cur : path) (P : path) : filesystem * bool :=
  match P with
  | [] => (fs, true)
  | c :: P' =>
      if bool_decide (c = DOTDOT) then mkdir_from fs (parent cur) P'
      else match node_at fs (cur ++ [c]) with
           | Some Dir => mkdir_from fs (cur ++ [c]) P'
           | Some (File _) => (fs, false)
           | None => mkdir_from (<[cur ++ [c] := Dir]> fs) (cur ++ [c]) P'
           end
  end.
Definition mkdir_parents (fs : filesystem) (P : path) : filesystem * bool :=
  mkdir_from fs [] P.

(** What [read_text(encoding=utf-8, errors=ignore)] makes of the bytes of
    a file.  First the UTF-8 decoder of CPython with the handler [ignore]:
    a byte that cannot start a sequence is dropped; when the byte that
    follows the first one, two or three bytes of a sequence cannot continue
    it, those first bytes are dropped and decoding resumes at the offending
    byte; a sequence the end of the data cuts short is dropped.  (Overlong
    forms, surrogates and code points above U+10FFFF are refused at the
    second byte.)  A value above 255 is no byte and is dropped as well. *)
Definition is_cont (b : N) : bool := in_range 128 191 b.

Fixpoint utf8_decode (s : list N) : str :=
  match s with
  | [] => []
  | b0 :: r =>
      if b0 <? 128 then b0 :: utf8_decode r
      else if b0 <? 194 then utf8_decode r
      else if b0 <? 224 then
        match r with
        | [] => []
        | b1 :: r1 =>
            if is_cont b1
            then ((b0 - 192) * 64 + (b1 - 128)) :: utf8_decode r1
            else utf8_decode r
        end
      else if b0 <? 240 then
        match r with
        | [] => []
        | b1 :: r1 =>
            if negb (is_cont b1) || (if b1 <? 160 then b0 =? 224 else b0 =? 237)
            then utf8_decode r
            else match r1 with
                 | [] => []
                 | b2 :: r2 =>
                     if is_cont b2
                     then ((b0 - 224) * 4096 + (b1 - 128) * 64 + (b2 - 128))
                            :: utf8_decode r2
                     else utf8_decode r1
                 end
        end
      else if b0 <? 245 then
        match r with
        | [] => []
        | b1 :: r1 =>
            if negb (is_cont b1) || (if b1 <? 144 then b0 =? 240 else b0 =? 244)
            then utf8_decode r
            else match r1 with
                 | [] => []
                 | b2 :: r2 =>
                     if negb (is_cont b2) then utf8_decode r1
                     else match r2 with
                          | [] => []
                          | b3 :: r3 =>
                              if is_cont b3
                              then ((b0 - 240) * 262144 + (b1 - 128) * 4096
                                    + (b2 - 128) * 64 + (b3 - 128))
                                     :: utf8_decode r3
                              else utf8_decode r2
                          end
                 end
        end
      else utf8_decode r
  end.

(** Then the newline translation of a file opened in text mode: [\r\n]
    and a lone [\r] are read as [\n]. *)
Fixpoint universal_newlines (s : str) : str :=
  match s with
  | [] => []
  | c :: s' =>
      if c =? 13 then
        10 :: match s' with
              | d :: s'' =>
                  if d =? 10 then universal_newlines s'' else universal_newlines s'
              | [] => []
              end
      else c :: universal_newlines s'
  end.

Definition decode (bytes : list N) : str := universal_newlines (utf8_decode bytes).

(** [open(P, wb)] followed by writing the bytes [body]: [None] when opening
    raises (the directory of [P] does not resolve, or [P] denotes a
    directory).  The node keeps the text a later [read_text] returns. *)
Definition write_file (fs : filesystem) (P : path) (body : list N) : option filesystem :=
  match walk fs [] (parent P) with
  | Some q =>
      if is_dir_at fs q && negb (bool_decide (P = []))
         && negb (bool_decide (name P = DOTDOT))
      then match node_at fs (q ++ [name P]) with
           | Some Dir => None
           | _ => Some (<[q ++ [name P] := File (Some (decode body))]> fs)
           end
      else None
  | None => None
  end.

(** ** The world the script runs in: file system, standard output, network *)

(** One constructor per [log] call of the script; the three loops that
    print an item of a missing list are told apart, and carry the site they
    run for. *)
Inductive log_line : Type :=
| LWarnNoSiteDir (site_id : list N)          (* [WARN] sites/<id> not found *)
| LGet (url : list N)                        (* [GET] url *)
| LOk (dest : list (list N))                 (* [OK ] dest *)
| LErrHTTP (code : N) (url : list N)         (* [ERR] HTTP code for url *)
| LErrURL (url : list N)                     (* [ERR] URL error for url *)
| LErrFail (url : list N)                    (* [ERR] Fail url *)
| LFatal (root : list (list N))              (* [FATAL] root not found *)
| LInfoRoot (root : list (list N))           (* [INFO] Root: root *)
| LWarnNoIds                                 (* [WARN] no siteId found *)
| LInfoIds (ids : list (list N))             (* [INFO] siteId found: ... *)
| LAnalysis (site_id : list N)               (* === siteId: id === *)
| LMissMjs                                   (* [MISS] missing .mjs: *)
| LItemMjs (site_id f : list N)              (*    - f *)
| LOkMjs                                     (* [OK  ] all imported .mjs exist *)
| LMissIdx                                   (* [MISS] searchIndex JSON ... *)
| LItemIdx (site_id f : list N)              (*    - f *)
| LOkIdx                                     (* [OK  ] searchIndex JSON present *)
| LAssetsHeader                              (* === assets === *)
| LMissAssets                                (* [MISS] no local copies: *)
| LItemAsset (name : list N)                 (*    - name *)
| LOkAssets                                  (* [OK  ] all assets local *)
| LDone                                      (* === done === *)
| LDryRunNote                                (* dry-run: nothing downloaded *)
| LDownloadNote.                             (* downloads were attempted *)

Global Instance log_line_eq_dec : EqDecision log_line.
Proof. solve_decision. Defined.

(** What [urlretrieve] meets when it fetches a URL: the whole body, as the
    bytes [b]; a body cut short (the bytes [b] are written, then
    [ContentTooShortError], a [URLError]); a transfer that breaks after [b]
    was received (written, then an exception that is no [URLError]); an
    [HTTPError], another [URLError] or any other exception before anything
    is received. *)
Inductive response : Type :=
| Body (b : list N)
| Truncated (b : list N)
| Broken (b : list N)
| HTTPError (code : N)
| URLError
| OtherError.

Abbreviation network := (list N → response) (only parsing).

Record world : Type := World { fs : gmap (list (list N)) node; out : list log_line }.

(** Exceptions that leave [main]: [sys.exit], and an [OSError]: that of
    [mkdir] ([FileExistsError] when the path itself is a regular file,
    [NotADirectoryError] when a component before its end is), or the one
    [exists] or [is_dir] raises again when the system refuses its query. *)
Inductive exn : Type :=
| SystemExit (code : Z)
| OSError.

Inductive outcome (A : Type) : Type :=
| Ret (a : A)
| Raise (e : exn).
Arguments Ret {A} a.
Arguments Raise {A} e.

(** Computations of the script: they read and change the world and return
    or raise. *)
Definition M (A : Type) : Type := world → outcome A * world.

Global Instance M_ret : MRet M := λ A a w, (Ret a, w).
Global Instance M_bind : MBind M := λ A B f m w,
  match m w with
  | (Ret a, w') => f a w'
  | (Raise e, w') => (Raise e, w')
  end.

Definition raise {A} (e : exn) : M A := λ w, (Raise e, w).
Definition reads {A} (f : gmap (list (list N)) node → A) : M A := λ w, (Ret (f (fs w)), w).
Definition log (l : log_line) : M unit :=
  λ w, (Ret (), World (fs w) (out w ++ [l])).

Fixpoint for_each {A} (l : list A) (body : A → M unit) : M unit :=
  match l with
  | [] => mret ()
  | x :: l' => body x;; for_each l' body
  end.

(** The exit status of the process for an outcome of [main]: an uncaught
    exception other than [SystemExit] ends the interpreter with status 1. *)
Definition exit_status (o : outcome unit) : Z :=
  match o with
  | Ret _ => 0
  | Raise (SystemExit c) => c
  | Raise OSError => 1
  end%Z.

(** ** The script *)

Definition FRAMER_CDN : str := cps "https://framerusercontent.com".

(** [for m in l: s.add(m)] *)
Definition add_all (s : gset (list N)) (l : list (list N)) : gset (list N) :=
  foldl (λ s m, s ∪ {[m]}) s l.

(** The guard shared by the three scans of the tree: a regular file with
    one of the extensions [exts], whose text can be read. *)
Definition scan_text (exts : list (list N)) (fs : gmap (list (list N)) node)
    (p : list (list N)) : option (list N) :=
  if negb (is_file fs p) then None
  else if negb (bool_decide (lower (suffix p) ∈ exts)) then None
  else read_text fs p.

Definition site_ids_in (fs : gmap (list (list N)) node) (root : list (list N))
    : gset (list N) :=
  foldl (λ site_ids p,
           match scan_text [cps ".html"; cps ".htm"; cps ".js"; cps ".mjs"; cps ".json"] fs p with
           | None => site_ids
           | Some text =>
               add_all (add_all site_ids (findall pattern_url text))
                       (findall pattern_local text)
           end)
        ∅ (rglob fs root).

Definition find_site_ids (root : list (list N)) : M (gset (list N)) :=
  reads (λ fs, site_ids_in fs root).

(** [for rel in l: if not (site_dir / rel).exists(): missing.add(rel)] *)
Definition add_absent (fs : gmap (list (list N)) node) (site_dir : list (list N))
    (missing : gset (list N)) (l : list (list N)) : gset (list N) :=
  foldl (λ missing rel,
           if negb (exists_ fs (site_dir // rel)) then missing ∪ {[rel]} else missing)
        missing l.

Definition missing_mjs_in (fs : gmap (list (list N)) node) (site_dir : list (list N))
    : gset (list N) :=
  foldl (λ missing mjs,
           match read_text fs mjs with
           | None => missing
           | Some text =>
               add_absent fs site_dir
                 (add_absent fs site_dir missing (findall dyn_import text))
                 (findall static_import text)
           end)
        ∅ (glob_mjs fs site_dir).

Definition find_missing_mjs_for_site (root : list (list N)) (site_id : list N)
    : M (list (list N)) :=
  let site_dir := root // cps "sites" // site_id in
  d ← reads (λ fs, is_dir fs site_dir);
  if negb d then
    log (LWarnNoSiteDir site_id);;
    mret []
  else
    reads (λ fs, sorted (missing_mjs_in fs site_dir)).

Definition asset_names_in (fs : gmap (list (list N)) node) (root : list (list N))
    : gset (list N) :=
  foldl (λ asset_names p,
           match scan_text [cps ".html"; cps ".htm"; cps ".js"; cps ".mjs"; cps ".css"] fs p with
           | None => asset_names
           | Some text => add_all asset_names (findall asset_pattern text)
           end)
        ∅ (rglob fs root).

Definition missing_assets_in (fs : gmap (list (list N)) node) (root : list (list N))
    : list (list N) :=
  filter (λ name,
            let in_assets := exists_ fs (root // cps "assets" // name) in
            let in_images := exists_ fs (root // cps "images" // name) in
            negb in_assets && negb in_images = true)
         (sorted (asset_names_in fs root)).

Definition find_missing_assets (root : list (list N)) : M (list (list N)) :=
  reads (λ fs, missing_assets_in fs root).

Definition indexes_in (fs : gmap (list (list N)) node) (root : list (list N))
    (site_id : list N) : gset (list N) :=
  foldl (λ indexes p,
           match scan_text [cps ".html"; cps ".htm"; cps ".js"; cps ".mjs"] fs p with
           | None => indexes
           | Some text => add_all indexes (findall (index_pattern site_id) text)
           end)
        ∅ (rglob fs root).

Definition missing_indexes_in (fs : gmap (list (list N)) node) (root : list (list N))
    (site_id : list N) : list (list N) :=
  let site_dir := root // cps "sites" // site_id in
  filter (λ name, negb (exists_ fs (site_dir // name)) = true)
         (sorted (indexes_in fs root site_id)).

Definition find_missing_search_indexes (root : list (list N)) (site_id : list N)
    : M (list (list N)) :=
  reads (λ fs, missing_indexes_in fs root site_id).

(** [dest.parent.mkdir(parents=True, exist_ok=True)], outside any [try]. *)
Definition mkdir (P : list (list N)) : M unit := λ w,
  let '(fs', ok) := mkdir_parents (fs w) P in
  (if ok then Ret () else Raise OSError, World fs' (out w)).

(** The file part of [urlretrieve(url, dest)]: [true] when [dest] was
    opened and written. *)
Definition store (dest : list (list N)) (body : list N) : M bool := λ w,
  match write_file (fs w) dest body with
  | Some fs' => (Ret true, World fs' (out w))
  | None => (Ret false, w)
  end.

Definition download_file (net : list N → response) (url : list N)
    (dest : list (list N)) : M unit :=
  mkdir (parent dest);;
  log (LGet url);;
  match net url with
  | Body b =>
      written ← store dest b;
      if (written : bool) then log (LOk dest) else log (LErrFail url)
  | Truncated b =>
      written ← store dest b;
      if (written : bool) then log (LErrURL url) else log (LErrFail url)
  | Broken b =>
      store dest b;;
      log (LErrFail url)
  | HTTPError code => log (LErrHTTP code url)
  | URLError => log (LErrURL url)
  | OtherError => log (LErrFail url)
  end.

(** The body of the two download loops of a site. *)
Definition fetch_site_file (root : list (list N)) (net : list N → response)
    (site_id f : list N) : M unit :=
  let url := FRAMER_CDN ++ cps "/sites/" ++ site_id ++ cps "/" ++ f in
  let dest := root // cps "sites" // site_id // f in
  download_file net url dest.

(** The body of the download loop of the assets. *)
Definition fetch_asset (root : list (list N)) (net : list N → response)
    (name : list N) : M unit :=
  let url := FRAMER_CDN ++ cps "/assets/" ++ name in
  (* by default an asset goes to assets/ *)
  let dest := root // cps "assets" // name in
  download_file net url dest.

(** The body of the loop over the site ids. *)
Definition analyse_site (root : list (list N)) (dry_run : bool)
    (net : list N → response) (site_id : list N) : M unit :=
  log (LAnalysis site_id);;
  missing_mjs ← find_missing_mjs_for_site root site_id;
  (if negb (bool_decide (missing_mjs = [])) then
     log LMissMjs;;
     for_each missing_mjs (λ f, log (LItemMjs site_id f))
   else log LOkMjs);;
  missing_indexes ← find_missing_search_indexes root site_id;
  (if negb (bool_decide (missing_indexes = [])) then
     log LMissIdx;;
     for_each missing_indexes (λ f, log (LItemIdx site_id f))
   else log LOkIdx);;
  if negb dry_run then
    for_each missing_mjs (fetch_site_file root net site_id);;
    for_each missing_indexes (fetch_site_file root net site_id)
  else mret ().

(** [main], after [argparse]: [root] is the resolved [--root] path and
    [dry_run] the flag. *)
Definition main (root : list (list N)) (dry_run : bool)
    (net : list N → response) : M unit :=
  d ← reads (λ fs, is_dir fs root);
  if negb d then
    log (LFatal root);;
    raise (SystemExit 1)
  else
    log (LInfoRoot root);;
    site_ids ← find_site_ids root;
    (if bool_decide (site_ids = ∅) then log LWarnNoIds
     else log (LInfoIds (sorted site_ids)));;
    for_each (sorted site_ids) (analyse_site root dry_run net);;
    log LAssetsHeader;;
    missing_assets ← find_missing_assets root;
    (if negb (bool_decide (missing_assets = [])) then
       log LMissAssets;;
       for_each missing_assets (λ name, log (LItemAsset name))
     else log LOkAssets);;
    (if negb dry_run then
       for_each missing_assets (fetch_asset root net)
     else mret ());;
    log LDone;;
    if dry_run then log LDryRunNote else log LDownloadNote.

(** ** The error path of [exists] and [is_dir]

    [Path.exists] and [Path.is_dir] call [os.stat].  They turn a path that
    cannot be encoded and the errors [ENOENT], [ENOTDIR], [EBADF] and
    [ELOOP] into [False], and raise every other [OSError] again.  Above,
    the operating system answers every call.  Here [refused fs P] says
    that, on the tree [fs], it refuses the call for [P] with an error of
    the second kind, and the detection functions are written once more,
    with calls that can raise.  No [try] of the script encloses these
    calls. *)
Section Refusals.
Variable refused : gmap (list (list N)) node → list (list N) → bool.

Definition exists_os (P : list (list N)) : M bool := λ w,
  if refused (fs w) P then (Raise OSError, w) else (Ret (exists_ (fs w) P), w).

Definition is_dir_os (P : list (list N)) : M bool := λ w,
  if refused (fs w) P then (Raise OSError, w) else (Ret (is_dir (fs w) P), w).

(** A [for] loop that updates a local variable. *)
Fixpoint fold_m {A B} (body : B → A → M B) (l : list A) (acc : B) : M B :=
  match l with
  | [] => mret acc
  | x :: l' => acc' ← body acc x; fold_m body l' acc'
  end.

(** [for rel in l: if not (site_dir / rel).exists(): missing.add(rel)] *)
Definition add_absent_os (site_dir : list (list N)) (missing : gset (list N))
    (l : list (list N)) : M (gset (list N)) :=
  fold_m (λ missing rel,
            e ← exists_os (site_dir // rel);
            mret (if negb e then missing ∪ {[rel]} else missing))
         l missing.

Definition find_missing_mjs_for_site_os (root : list (list N)) (site_id : list N)
    : M (list (list N)) :=
  let site_dir := root // cps "sites" // site_id in
  d ← is_dir_os site_dir;
  if negb d then
    log (LWarnNoSiteDir site_id);;
    mret []
  else
    files ← reads (λ fs, glob_mjs fs site_dir);
    missing ← fold_m (λ missing mjs,
                        text ← reads (λ fs, read_text fs mjs);
                        match text with
                        | None => mret missing
                        | Some text =>
                            missing ← add_absent_os site_dir missing
                                        (findall dyn_import text);
                            add_absent_os site_dir missing (findall static_import text)
                        end)
                     files ∅;
    mret (sorted missing).

Definition find_missing_assets_os (root : list (list N)) : M (list (list N)) :=
  asset_names ← reads (λ fs, asset_names_in fs root);
  fold_m (λ missing name,
            in_assets ← exists_os (root // cps "assets" // name);
            in_images ← exists_os (root // cps "images" // name);
            mret (if negb in_assets && negb in_images then missing ++ [name]
                  else missing))
         (sorted asset_names) [].

End Refusals.

(** *** A refusal of Linux

    With [ENAMETOOLONG] Linux refuses a path of 4096 bytes or more, and a
    path on which name resolution comes, in a directory, to a component of
    more than 255 bytes. *)
Definition NAME_MAX : N := 255.
Definition PATH_MAX : N := 4096.

(** The length of [os.fsencode(s)]: UTF-8, where a code point from U+DC80
    to U+DCFF stands for one byte. *)
Definition char_bytes (c : N) : N :=
  if c <? 128 then 1
  else if c <? 2048 then 2
  else if in_range 56448 56575 c then 1
  else if c <? 65536 then 3 else 4.
Definition fs_bytes (s : list N) : N := foldr (λ c n, char_bytes c + n) 0 s.

(** A name [os.stat] passes on to the system: no null character and no
    other surrogate; otherwise it raises a [ValueError], which [exists] and
    [is_dir] turn into [False]. *)
Definition encodable (s : list N) : bool :=
  forallb (λ c, negb (c =? 0)
                && negb (in_range 55296 57343 c && negb (in_range 56448 56575 c)))
          s.

(** The length of the path as a string: a slash before every component. *)
Definition path_bytes (P : list (list N)) : N :=
  match P with
  | [] => 1
  | _ => foldr (λ c n, 1 + fs_bytes c + n) 0 P
  end.

Fixpoint long_name_from (fs : gmap (list (list N)) node) (cur P : list (list N))
    : bool :=
  match P with
  | [] => false
  | c :: P' =>
      is_dir_at fs cur &&
      (if bool_decide (c = DOTDOT) then long_name_from fs (parent cur) P'
       else (NAME_MAX <? fs_bytes c)
            || match node_at fs (cur ++ [c]) with
               | Some _ => long_name_from fs (cur ++ [c]) P'
               | None => false
               end)
  end.

Definition enametoolong (fs : gmap (list (list N)) node) (P : list (list N)) : bool :=
  forallb encodable P
  && ((PATH_MAX <=? path_bytes P) || long_name_from fs [] P).

(** ** Notions the statements are written with *)

(** The words a regular expression matches. *)
Fixpoint lang (r : regex) (w : list N) : Prop :=
  match r with
  | Eps => w = []
  | Chr c => w = [c]
  | Cls p => ∃ c, w = [c] ∧ p c = true
  | Cat r1 r2 => ∃ u v, w = u ++ v ∧ lang r1 u ∧ lang r2 v
  | Alt r1 r2 => lang r1 w ∨ lang r2 w
  | Opt r1 => lang r1 w ∨ w = []
  | Star p => forallb p w = true
  | Plus p => w ≠ [] ∧ forallb p w = true
  end.

(** [fs'] keeps every entry of [fs] with its kind: directories stay
    directories, regular files stay regular files (their text may change). *)
Definition grows (fs fs' : gmap (list (list N)) node) : Prop :=
  ∀ q, match fs !! q with
       | Some Dir => fs' !! q = Some Dir
       | Some (File _) => ∃ t, fs' !! q = Some (File t)
       | None => True
       end.

(** The extensions the asset pattern accepts. *)
Definition asset_exts : list (list N) :=
  [cps "png"; cps "jpg"; cps "jpeg"; cps "webp"; cps "gif"; cps "mp4";
   cps "svg"; cps "woff"; cps "woff2"].

(** The extensions each scan of the tree reads. *)
Definition exts_site_ids : list (list N) :=
  [cps ".html"; cps ".htm"; cps ".js"; cps ".mjs"; cps ".json"].
Definition exts_assets : list (list N) :=
  [cps ".html"; cps ".htm"; cps ".js"; cps ".mjs"; cps ".css"].
Definition exts_indexes : list (list N) :=
  [cps ".html"; cps ".htm"; cps ".js"; cps ".mjs"].

(** [text] is the text of a file the scan with extensions [exts] reads
    below [root]. *)
Definition scanned (exts : list (list N)) (fs : gmap (list (list N)) node)
    (root : list (list N)) (text : list N) : Prop :=
  ∃ p, p ∈ rglob fs root ∧ scan_text exts fs p = Some text.

(** Triples over the computations of the script: when [P] holds of the
    world before, [Q] holds of the outcome and the world after. *)
Definition hoare {A} (P : world → Prop) (m : M A)
    (Q : outcome A → world → Prop) : Prop :=
  ∀ w, P w → Q (m w).1 (m w).2.

(** A line that reports a failed download. *)
Definition is_error (l : log_line) : bool :=
  match l with
  | LErrHTTP _ _ | LErrURL _ | LErrFail _ => true
  | _ => false
  end.

(** A line that reports a missing item. *)
Definition is_item (l : log_line) : bool :=
  match l with
  | LItemMjs _ _ | LItemIdx _ _ | LItemAsset _ => true
  | _ => false
  end.

(** Every download of the run succeeded: no line of its output reports a
    failure. *)
Definition no_errors (l : list log_line) : Prop :=
  Forall (λ x, is_error x = false) l.

(** Where the script expects the item a line reports. *)
Definition item_dest (root : list (list N)) (l : log_line) : option (list (list N)) :=
  match l with
  | LItemMjs site_id f | LItemIdx site_id f => Some (root // cps "sites" // site_id // f)
  | LItemAsset name => Some (root // cps "assets" // name)
  | _ => None
  end.

(** The item a line reports is on disk. *)
Definition item_present (root : list (list N)) (fs : gmap (list (list N)) node)
    (l : log_line) : Prop :=
  match item_dest root l with
  | Some dest => exists_ fs dest = true
  | None => True
  end.

(** The item a line reports is not on disk. *)
Definition item_absent (root : list (list N)) (fs : gmap (list (list N)) node)
    (l : log_line) : Prop :=
  match item_dest root l with
  | Some dest => exists_ fs dest = false
  | None => True
  end.

(** What [find_missing_mjs_for_site] returns on a given tree. *)
Definition missing_mjs_of (fs : gmap (list (list N)) node) (root : list (list N))
    (site_id : list N) : list (list N) :=
  if is_dir fs (root // cps "sites" // site_id)
  then sorted (missing_mjs_in fs (root // cps "sites" // site_id))
  else [].

(** The lines that report a list of missing items, or its absence. *)
Definition item_lines (header ok : log_line) (item : list N → log_line)
    (l : list (list N)) : list log_line :=
  if bool_decide (l = []) then [ok] else header :: map item l.

(** The output of the analysis of one site, downloads apart. *)
Definition site_report (fs : gmap (list (list N)) node) (root : list (list N))
    (site_id : list N) : list log_line :=
  [LAnalysis site_id]
  ++ (if is_dir fs (root // cps "sites" // site_id) then [] else [LWarnNoSiteDir site_id])
  ++ item_lines LMissMjs LOkMjs (LItemMjs site_id) (missing_mjs_of fs root site_id)
  ++ item_lines LMissIdx LOkIdx (LItemIdx site_id) (missing_indexes_in fs root site_id).

(** The output of a dry run on a root that is a directory. *)
Definition dry_report (fs : gmap (list (list N)) node) (root : list (list N))
    : list log_line :=
  [LInfoRoot root]
  ++ [if bool_decide (site_ids_in fs root = ∅) then LWarnNoIds
      else LInfoIds (sorted (site_ids_in fs root))]
  ++ concat (map (site_report fs root) (sorted (site_ids_in fs root)))
  ++ [LAssetsHeader]
  ++ item_lines LMissAssets LOkAssets LItemAsset (missing_assets_in fs root)
  ++ [LDone; LDryRunNote].

(** Invariant of a run whose downloads succeed: the item of every line
    printed so far is on disk, unless it is still to be fetched ([pend]). *)
Definition fetched (root : list (list N)) (pend : list log_line) (w : world) : Prop :=
  no_errors (out w) →
  ∀ line, line ∈ out w → item_present root (fs w) line ∨ line ∈ pend.

(** Invariant of a run that starts on the tree [fs1]: the tree has only
    grown since, and the item of every line printed or about to be printed
    was not on disk at the start. *)
Definition unfetched (root : list (list N)) (fs1 : gmap (list (list N)) node)
    (pend : list log_line) (w : world) : Prop :=
  grows fs1 (fs w) ∧
  (∀ line, line ∈ out w → item_absent root fs1 line) ∧
  (∀ line, line ∈ pend → item_absent root fs1 line).

(** The URL the script downloads the item of a line from. *)
Definition item_url (l : log_line) : option (list N) :=
  match l with
  | LItemMjs site_id f | LItemIdx site_id f =>
      Some (FRAMER_CDN ++ cps "/sites/" ++ site_id ++ cps "/" ++ f)
  | LItemAsset name => Some (FRAMER_CDN ++ cps "/assets/" ++ name)
  | _ => None
  end.

(** The URLs a run requested, in order: one for every [GET] line. *)
Definition requests (ls : list log_line) : list (list N) :=
  omap (λ l, match l with LGet url => Some url | _ => None end) ls.

(** The URLs of the items a run reported missing, in order. *)
Definition reported (ls : list log_line) : list (list N) := omap item_url ls.

(** The sites a run analysed, in order: one for every header line. *)
Definition analysed (ls : list log_line) : list (list N) :=
  omap (λ l, match l with LAnalysis site_id => Some site_id | _ => None end) ls.

(** A line printed by [download_file]. *)
Definition is_fetch (l : log_line) : bool :=
  match l with
  | LGet _ | LOk _ | LErrHTTP _ _ | LErrURL _ | LErrFail _ => true
  | _ => false
  end.

(** The download of the item a line reports, as the loops of [main] run
    it. *)
Definition fetch_item (root : list (list N)) (net : list N → response)
    (l : log_line) : M unit :=
  match item_url l, item_dest root l with
  | Some url, Some dest => download_file net url dest
  | _, _ => mret ()
  end.

(** [occurs piece text]: [piece in text]. *)
Fixpoint occurs (piece text : list N) : bool :=
  startswith piece text ||
  match text with
  | [] => false
  | _ :: text' => occurs piece text'
  end.

(** Every regular file of the tree [fs] was in [fs0] with the same text, or
    is where the destination of an item reported in [ls] leads. *)
Definition files_accounted (root : list (list N))
    (fs0 fs : gmap (list (list N)) node) (ls : list log_line) : Prop :=
  ∀ q t, fs !! q = Some (File t) →
    fs0 !! q = Some (File t) ∨
    ∃ line dest, line ∈ ls ∧ item_dest root line = Some dest ∧
                 walk fs [] dest = Some q.

(** ** Example trees *)

Definition quoted (s : list N) : list N := DQUOTE :: s ++ [DQUOTE].

Definition ex_root : list (list N) := [cps "srv"; cps "site"].

(** [import { f } from Q./<module>Q] *)
Definition ex_import (module : list N) : list N :=
  cps "import { f } from " ++ quoted (cps "./" ++ module).

Definition ex_index_html : list N :=
  cps "<script src="
  ++ quoted (cps "https://framerusercontent.com/sites/abc123/page.html")
  ++ cps "></script>".

(** A mirror whose module [page.mjs] imports [util.mjs], absent on disk. *)
Definition fs_modules : gmap (list (list N)) node :=
  list_to_map
    [([cps "srv"], Dir);
     (ex_root, Dir);
     (ex_root ++ [cps "index.html"], File (Some ex_index_html));
     (ex_root ++ [cps "sites"], Dir);
     (ex_root ++ [cps "sites"; cps "abc123"], Dir);
     (ex_root ++ [cps "sites"; cps "abc123"; cps "page.mjs"],
      File (Some (ex_import (cps "util.mjs"))))].

(** The same mirror with the import in [page.html] instead. *)
Definition fs_page_html : gmap (list (list N)) node :=
  list_to_map
    [([cps "srv"], Dir);
     (ex_root, Dir);
     (ex_root ++ [cps "index.html"], File (Some ex_index_html));
     (ex_root ++ [cps "sites"], Dir);
     (ex_root ++ [cps "sites"; cps "abc123"], Dir);
     (ex_root ++ [cps "sites"; cps "abc123"; cps "page.html"],
      File (Some (ex_import (cps "util.mjs"))))].

(** A server on which every module imports [other.mjs]. *)
Definition net_chain (url : list N) : response :=
  Body (ex_import (cps "other.mjs")).

(** A server that answers every request with a module that imports
    nothing. *)
Definition net_plain (url : list N) : response := Body (cps "export {}").

(** Two local references next to each other, separated by a space. *)
Definition text_unquoted : list N :=
  cps "sites/a/searchIndex-1.json " ++ cps "sites/" ++ cps "b"
  ++ cps "/searchIndex-" ++ cps "2" ++ cps ".json" ++ [].

Definition fs_unquoted : gmap (list (list N)) node :=
  list_to_map
    [([cps "srv"], Dir);
     (ex_root, Dir);
     (ex_root ++ [cps "index.html"], File (Some text_unquoted))].

(** A search index referenced from a [.json] file only. *)
Definition text_index_ref : list N :=
  quoted (cps "https://framerusercontent.com/sites/abc123/searchIndex-x.json").

Definition fs_json_ref : gmap (list (list N)) node :=
  list_to_map
    [([cps "srv"], Dir);
     (ex_root, Dir);
     (ex_root ++ [cps "data.json"], File (Some text_index_ref));
     (ex_root ++ [cps "sites"], Dir);
     (ex_root ++ [cps "sites"; cps "abc123"], Dir)].

(** The same reference in a page, and no [sites] directory at all. *)
Definition fs_no_site_dir : gmap (list (list N)) node :=
  list_to_map
    [([cps "srv"], Dir);
     (ex_root, Dir);
     (ex_root ++ [cps "index.html"], File (Some text_index_ref))].

(** A stylesheet that references an asset absent on disk. *)
Definition text_logo : list N :=
  cps "body { background: url(https://framerusercontent.com/assets/logo123.png) }".

Definition fs_logo : gmap (list (list N)) node :=
  list_to_map
    [([cps "srv"], Dir);
     (ex_root, Dir);
     (ex_root ++ [cps "style.css"], File (Some text_logo))].

(** The same mirror where [assets] is a regular file. *)
Definition fs_assets_file : gmap (list (list N)) node :=
  list_to_map
    [([cps "srv"], Dir);
     (ex_root, Dir);
     (ex_root ++ [cps "style.css"], File (Some text_logo));
     (ex_root ++ [cps "assets"], File (Some []))].

(** A module whose only import has no [from] and no parenthesis. *)
Definition text_bare_import : list N :=
  cps "import " ++ quoted (cps "./side.mjs") ++ cps ";".

Definition fs_bare_import : gmap (list (list N)) node :=
  list_to_map
    [([cps "srv"], Dir);
     (ex_root, Dir);
     (ex_root ++ [cps "sites"], Dir);
     (ex_root ++ [cps "sites"; cps "abc123"], Dir);
     (ex_root ++ [cps "sites"; cps "abc123"; cps "page.mjs"],
      File (Some text_bare_import))].

(** A module with a dynamic import, in single quotes and with spaces. *)
Definition text_dyn_import : list N :=
  cps "const m = await import( './chunk.mjs' );".

Definition fs_dyn_import : gmap (list (list N)) node :=
  list_to_map
    [([cps "srv"], Dir);
     (ex_root, Dir);
     (ex_root ++ [cps "sites"], Dir);
     (ex_root ++ [cps "sites"; cps "abc123"], Dir);
     (ex_root ++ [cps "sites"; cps "abc123"; cps "page.mjs"],
      File (Some text_dyn_import))].

(** A server that answers every request with the status 404. *)
Definition net_down (url : list N) : response := HTTPError 404.

(** A server whose answers are all cut short. *)
Definition net_cut (url : list N) : response := Truncated (cps "export").

(** A mirror that lacks nothing: the module its page imports, and the asset
    its stylesheet names, are there. *)
Definition fs_complete : gmap (list (list N)) node :=
  list_to_map
    [([cps "srv"], Dir);
     (ex_root, Dir);
     (ex_root ++ [cps "index.html"], File (Some ex_index_html));
     (ex_root ++ [cps "style.css"], File (Some text_logo));
     (ex_root ++ [cps "assets"], Dir);
     (ex_root ++ [cps "assets"; cps "logo123.png"], File (Some []));
     (ex_root ++ [cps "sites"], Dir);
     (ex_root ++ [cps "sites"; cps "abc123"], Dir);
     (ex_root ++ [cps "sites"; cps "abc123"; cps "page.mjs"],
      File (Some (ex_import (cps "util.mjs"))));
     (ex_root ++ [cps "sites"; cps "abc123"; cps "util.mjs"],
      File (Some (cps "export {}")))].

(** Every entry of the tree lies in a directory of the tree. *)
Definition tree (fs : gmap (list (list N)) node) : Prop :=
  ∀ q c n, fs !! (q ++ [c]) = Some n → node_at fs q = Some Dir.

(** A page that names its search index by a relative path. *)
Definition text_local_ref : list N :=
  cps "<a href=" ++ quoted (cps "./sites/abc123/searchIndex-x.json") ++ cps ">".

Definition fs_local_ref : gmap (list (list N)) node :=
  list_to_map
    [([cps "srv"], Dir);
     (ex_root, Dir);
     (ex_root ++ [cps "index.html"], File (Some text_local_ref))].

(** An identifier of 256 letters, one more than Linux takes as a name, in
    a mirror whose [sites] directory exists. *)
Definition long_id : list N := replicate 256 97.

Definition fs_long_id : gmap (list (list N)) node :=
  list_to_map
    [([cps "srv"], Dir);
     (ex_root, Dir);
     (ex_root ++ [cps "index.html"],
      File (Some (quoted (cps "https://framerusercontent.com/sites/" ++ long_id
                          ++ cps "/page.html"))));
     (ex_root ++ [cps "sites"], Dir)].


(** A server whose bodies have a line end of two bytes, a lone carriage
    return and a byte that is no UTF-8. *)
Definition net_crlf (url : list N) : response :=
  Body [97; 13; 10; 98; 13; 99; 255].

(** * Supporting lemmas *)

Local Arguments N.eqb : simpl never.
Local Arguments N.ltb : simpl never.
Local Arguments N.leb : simpl never.

(** ** Strings and [sorted] *)

Lemma str_leb_refl a : str_leb a a = true.
Proof.
  induction a as [|x a IH]; simpl; [done|].
  rewrite N.eqb_refl, IH. by destruct (x <? x).
Qed.

Lemma str_leb_total a b : str_leb a b = true ∨ str_leb b a = true.
Proof.
  revert b. induction a as [|x a IH]; intros [|y b]; simpl; auto.
  destruct (N.ltb_spec x y), (N.ltb_spec y x); simpl; auto; try lia.
  assert (x = y) as -> by lia. rewrite N.eqb_refl. simpl. apply IH.
Qed.

Lemma str_leb_trans a b c :
  str_leb a b = true → str_leb b c = true → str_leb a c = true.
Proof.
  revert b c. induction a as [|x a IH]; intros [|y b] [|z c]; simpl; try done.
  destruct (N.ltb_spec x y), (N.ltb_spec y z), (N.ltb_spec x z),
    (N.eqb_spec x y), (N.eqb_spec y z), (N.eqb_spec x z);
    simpl; try done; try lia.
  apply IH.
Qed.

Lemma str_leb_antisym a b :
  str_leb a b = true → str_leb b a = true → a = b.
Proof.
  revert b. induction a as [|x a IH]; intros [|y b]; simpl; try done.
  destruct (N.ltb_spec x y), (N.ltb_spec y x), (N.eqb_spec x y), (N.eqb_spec y x);
    simpl; try done; try lia.
  intros. subst. f_equal. by apply IH.
Qed.

Global Instance str_le_total : Total str_le.
Proof. intros a b. apply str_leb_total. Qed.
Global Instance str_le_trans : Transitive str_le.
Proof. intros a b c. apply str_leb_trans. Qed.
Global Instance str_le_antisym : AntiSymm (=) str_le.
Proof. intros a b. apply str_leb_antisym. Qed.

Lemma elem_of_sorted (x : list N) (s : gset (list N)) : x ∈ sorted s ↔ x ∈ s.
Proof. unfold sorted. by rewrite merge_sort_Permutation, elem_of_elements. Qed.

Lemma NoDup_sorted (s : gset (list N)) : NoDup (sorted s).
Proof. unfold sorted. rewrite merge_sort_Permutation. apply NoDup_elements. Qed.

Lemma StronglySorted_sorted (s : gset (list N)) : StronglySorted str_le (sorted s).
Proof. apply StronglySorted_merge_sort; apply _. Qed.

Lemma StronglySorted_filter {A} (R : relation A) (P : A → Prop)
    `{∀ x, Decision (P x)} (l : list A) :
  StronglySorted R l → StronglySorted R (filter P l).
Proof.
  induction 1 as [|x l Hl IH Hx]; [constructor|].
  rewrite filter_cons. destruct (decide (P x)); [|done].
  constructor; [done|].
  rewrite Forall_forall in Hx |- *.
  intros y Hy%list_elem_of_filter. apply Hx. tauto.
Qed.

Lemma elem_of_add_all (x : list N) (s : gset (list N)) l : x ∈ add_all s l ↔ x ∈ s ∨ x ∈ l.
Proof.
  unfold add_all. revert s. induction l as [|y l IH]; intros s; simpl.
  - rewrite elem_of_nil. tauto.
  - rewrite IH, elem_of_union, elem_of_singleton, elem_of_cons. tauto.
Qed.

Lemma startswith_spec p s : startswith p s = true ↔ ∃ t, s = p ++ t.
Proof.
  revert s. induction p as [|a p IH]; intros s; simpl.
  - split; eauto.
  - destruct s as [|b s]; [split; [done|by intros [t ?]]|].
    rewrite andb_true_iff, N.eqb_eq, IH. split.
    + intros [-> [t ->]]. eauto.
    + intros [t [= -> ->]]. eauto.
Qed.

Lemma endswith_spec p s : endswith p s = true ↔ ∃ t, s = t ++ p.
Proof.
  unfold endswith. rewrite startswith_spec. split.
  - intros [t Ht]. exists (rev t).
    rewrite <- (rev_involutive s), Ht, rev_app_distr, rev_involutive. done.
  - intros [t ->]. exists (rev t). by rewrite rev_app_distr.
Qed.

(** ** The matcher *)

Section MatcherFacts.
Context {A : Type}.
Implicit Types (k : list N → option A) (s w : list N).

Lemma star_sound p s k x :
    star p s k = Some x →
    ∃ w s', s = w ++ s' ∧ forallb p w = true ∧ k s' = Some x.
  Proof.
    induction s as [|c s IH]; simpl.
    - intros Hk. by exists [], [].
    - destruct (p c) eqn:Hc; [|intros Hk; by exists [], (c :: s)].
      destruct (star p s k) as [y|] eqn:Hs; [|intros Hk; by exists [], (c :: s)].
      intros [= <-]. destruct (IH eq_refl) as (w & s' & -> & Hw & Hk).
      exists (c :: w), s'. simpl. by rewrite Hc, Hw.
  Qed.

Lemma star_complete p w s' k :
    forallb p w = true → is_Some (k s') → is_Some (star p (w ++ s') k).
  Proof.
    intros Hw Hk. induction w as [|c w IH]; simpl in *.
    - destruct s' as [|c s']; simpl; [done|].
      destruct (p c); [|done]. by destruct (star p s' k).
    - apply andb_true_iff in Hw as [-> Hw].
      destruct (IH Hw) as [y ->]. eauto.
  Qed.

  (** Greedy: when the class stops matching right after [w] and the
      continuation accepts there, that is the match taken. *)
Lemma star_greedy p w s' k x :
    forallb p w = true → (∀ c t, s' = c :: t → p c = false) →
    k s' = Some x → star p (w ++ s') k = Some x.
  Proof.
    intros Hw Hs' Hk. induction w as [|c w IH]; simpl in *.
    - destruct s' as [|c s']; simpl; [done|]. by rewrite (Hs' c s').
    - apply andb_true_iff in Hw as [-> Hw]. by rewrite IH.
  Qed.

Lemma plus_sound p s k x :
    plus p s k = Some x →
    ∃ w s', s = w ++ s' ∧ w ≠ [] ∧ forallb p w = true ∧ k s' = Some x.
  Proof.
    destruct s as [|c s]; simpl; [done|].
    destruct (p c) eqn:Hc; [|done].
    intros (w & s' & -> & Hw & Hk)%star_sound.
    exists (c :: w), s'. simpl. by rewrite Hc, Hw.
  Qed.

Lemma plus_complete p w s' k :
    w ≠ [] → forallb p w = true → is_Some (k s') → is_Some (plus p (w ++ s') k).
  Proof.
    destruct w as [|c w]; [done|]. simpl. intros _ Hw Hk.
    apply andb_true_iff in Hw as [-> Hw]. by apply star_complete.
  Qed.

Lemma plus_greedy p w s' k x :
    w ≠ [] → forallb p w = true → (∀ c t, s' = c :: t → p c = false) →
    k s' = Some x → plus p (w ++ s') k = Some x.
  Proof.
    destruct w as [|c w]; [done|]. simpl. intros _ Hw Hs' Hk.
    apply andb_true_iff in Hw as [-> Hw]. by apply star_greedy.
  Qed.

Lemma mt_sound r s k x :
    mt r s k = Some x → ∃ w s', s = w ++ s' ∧ lang r w ∧ k s' = Some x.
  Proof.
    revert s k x. induction r as [|c|p|r1 IH1 r2 IH2|r1 IH1 r2 IH2|r IH|p|p];
      intros s k x; simpl.
    - intros Hk. by exists [], s.
    - destruct s as [|y s]; [done|]. destruct (N.eqb_spec y c) as [->|]; [|done].
      intros Hk. by exists [c], s.
    - destruct s as [|y s]; [done|]. destruct (p y) eqn:Hy; [|done].
      intros Hk. exists [y], s. eauto.
    - intros (u & s1 & -> & Hu & (v & s2 & -> & Hv & Hk)%IH2)%IH1.
      exists (u ++ v), s2. rewrite <- app_assoc. eauto 10.
    - destruct (mt r1 s k) as [y|] eqn:H1.
      + intros [= <-]. apply IH1 in H1 as (w & s' & -> & Hw & Hk). eauto 10.
      + intros (w & s' & -> & Hw & Hk)%IH2. eauto 10.
    - destruct (mt r s k) as [y|] eqn:H1.
      + intros [= <-]. apply IH in H1 as (w & s' & -> & Hw & Hk). eauto 10.
      + intros Hk. exists [], s. eauto.
    - intros (w & s' & -> & Hw & Hk)%star_sound. eauto 10.
    - intros (w & s' & -> & Hne & Hw & Hk)%plus_sound. eauto 10.
  Qed.

Lemma mt_complete r w s' k :
    lang r w → is_Some (k s') → is_Some (mt r (w ++ s') k).
  Proof.
    revert w s' k. induction r as [|c|p|r1 IH1 r2 IH2|r1 IH1 r2 IH2|r IH|p|p];
      intros w s' k; simpl.
    - by intros ->.
    - intros -> Hk. simpl. by rewrite N.eqb_refl.
    - intros (c & -> & Hc) Hk. simpl. by rewrite Hc.
    - intros (u & v & -> & Hu & Hv) Hk. rewrite <- app_assoc.
      apply IH1; [done|]. by apply IH2.
    - intros [Hw|Hw] Hk.
      + destruct (IH1 _ _ _ Hw Hk) as [y ->]. eauto.
      + destruct (mt r1 (w ++ s') k); [eauto|]. by apply IH2.
    - intros [Hw| ->] Hk.
      + destruct (IH _ _ _ Hw Hk) as [y ->]. eauto.
      + simpl. by destruct (mt r s' k).
    - intros Hw Hk. by apply star_complete.
    - intros [Hne Hw] Hk. by apply plus_complete.
  Qed.

Lemma mt_lit l s k : mt (lit l) (l ++ s) k = k s.
  Proof. induction l as [|c l IH]; simpl; [done|]. by rewrite N.eqb_refl. Qed.

Lemma mt_lit_inv l s k x :
    mt (lit l) s k = Some x → ∃ s', s = l ++ s' ∧ k s' = Some x.
  Proof.
    revert s. induction l as [|c l IH]; intros s; simpl; [eauto|].
    destruct s as [|y s]; [done|]. destruct (N.eqb_spec y c) as [->|]; [|done].
    intros (s' & -> & Hk)%IH. eauto.
  Qed.
End MatcherFacts.

Lemma lang_lit l w : lang (lit l) w ↔ w = l.
Proof.
  revert w. induction l as [|c l IH]; intros w; simpl; [done|]. split.
  - intros (u & v & -> & -> & ->%IH). done.
  - intros ->. exists [c], l. by rewrite IH.
Qed.

Lemma match_at_sound pat s g n :
  match_at pat s = Some (g, n) →
  ∃ w1 w3 s', s = w1 ++ g ++ w3 ++ s' ∧ lang (pre pat) w1 ∧
    lang (grp pat) g ∧ lang (post pat) w3 ∧ n = length (w1 ++ g ++ w3).
Proof.
  unfold match_at.
  intros (w1 & s1 & -> & H1 & (w2 & s2 & -> & H2 & (w3 & s3 & -> & H3 & Hk)%mt_sound)%mt_sound)%mt_sound.
  injection Hk as <- <-. exists w1, w3, s3.
  rewrite !length_app.
  replace (length w2 + (length w3 + length s3) - (length w3 + length s3))%nat
    with (length w2) by lia.
  rewrite take_app_length. repeat split; try done. lia.
Qed.

(** Every string [findall] returns is group 1 of a match somewhere in the
    text. *)
Lemma findall_from_sound pat s skip g :
  g ∈ findall_from pat s skip →
  ∃ a b n, s = a ++ b ∧ match_at pat b = Some (g, n).
Proof.
  revert skip. induction s as [|c s IH]; intros skip.
  - destruct skip as [|m]; simpl; [|by intros ?%elem_of_nil].
    destruct (match_at pat []) as [[h len]|] eqn:Hm; [|by intros ?%elem_of_nil].
    intros ->%list_elem_of_singleton. by exists [], [], len.
  - assert (∀ m, g ∈ findall_from pat s m →
                 ∃ a b n, c :: s = a ++ b ∧ match_at pat b = Some (g, n)) as Htl.
    { intros m (a & b & n & -> & Hm)%IH. by exists (c :: a), b, n. }
    destruct skip as [|m]; simpl; [|by apply Htl].
    destruct (match_at pat (c :: s)) as [[h len]|] eqn:Hm; [|by apply Htl].
    intros [->|Hg]%elem_of_cons; [|by eapply Htl].
    by exists [], (c :: s), len.
Qed.

(** A match at a position no earlier match runs across is found. *)
Lemma findall_from_hit pat before s skip g n :
  (skip ≤ length before)%nat →
  (∀ a b h m, before = a ++ b → b ≠ [] →
     match_at pat (b ++ s) = Some (h, m) → (m ≤ length b)%nat) →
  match_at pat s = Some (g, n) →
  g ∈ findall_from pat (before ++ s) skip.
Proof.
  intros Hskip Hfree Hm. revert skip Hskip.
  induction before as [|c before IH]; intros skip Hskip; simpl in *.
  - assert (skip = O) as -> by lia. destruct s; simpl; rewrite Hm; apply elem_of_cons; auto.
  - assert (∀ m, (m ≤ length before)%nat → g ∈ findall_from pat (before ++ s) m) as Htl.
    { apply IH. intros a b h m -> Hb. by apply (Hfree (c :: a) b h m). }
    destruct skip as [|m]; simpl; [|apply Htl; lia].
    destruct (match_at pat (c :: before ++ s)) as [[h len]|] eqn:Hc.
    + apply elem_of_cons. right. apply Htl.
      specialize (Hfree [] (c :: before) h len eq_refl). simpl in Hfree.
      specialize (Hfree ltac:(done) Hc). lia.
    + apply Htl. lia.
Qed.

Lemma findall_hit pat before s g n :
  (∀ a b h m, before = a ++ b → b ≠ [] →
     match_at pat (b ++ s) = Some (h, m) → (m ≤ length b)%nat) →
  match_at pat s = Some (g, n) →
  g ∈ findall pat (before ++ s).
Proof. intros. eapply findall_from_hit; eauto. lia. Qed.

(** ** Paths *)


Lemma split_on_absent sep s : sep ∉ s → split_on sep s = [s].
Proof.
  induction s as [|c s IH]; simpl; [done|].
  intros Hs. destruct (N.eqb_spec c sep) as [->|Hc].
  - destruct Hs. apply elem_of_cons. auto.
  - rewrite IH; [done|]. intros ?. apply Hs, elem_of_cons. auto.
Qed.

(** A name without separator is a single component. *)
Lemma parts_single n : SLASH ∉ n → n ≠ [] → n ≠ [DOT] → parts n = [n].
Proof.
  intros Hs Hn Hd. unfold parts. rewrite split_on_absent by done.
  rewrite filter_cons, filter_nil.
  destruct (decide (is_part n = true)) as [|[]]; [done|].
  unfold is_part. by rewrite !bool_decide_eq_false_2 by done.
Qed.


Lemma joinpath_relative P s : startswith [SLASH] s = false → P // s = P ++ parts s.
Proof. unfold joinpath. by intros ->. Qed.


Lemma joinpath_single P n :
  SLASH ∉ n → n ≠ [] → n ≠ [DOT] → P // n = P ++ [n].
Proof.
  intros Hs Hn Hd. rewrite joinpath_relative, parts_single; try done.
  destruct n as [|c n]; [done|]. simpl.
  destruct (N.eqb_spec SLASH c) as [<-|]; [|done].
  destruct Hs. apply elem_of_cons. auto.
Qed.

Lemma parent_snoc (P : list (list N)) n : parent (P ++ [n]) = P.
Proof. apply removelast_last. Qed.

Lemma name_snoc (P : list (list N)) n : name (P ++ [n]) = n.
Proof. apply last_last. Qed.

Lemma path_parent_name (P : list (list N)) : P ≠ [] → P = parent P ++ [name P].
Proof. intros. by apply app_removelast_last. Qed.

(** ** Name resolution *)

Lemma walk_app fs cur P Q :
  walk fs cur (P ++ Q) = walk fs cur P ≫= λ q, walk fs q Q.
Proof.
  revert cur. induction P as [|c P IH]; intros cur; simpl; [done|].
  destruct (is_dir_at fs cur); [|done].
  destruct (bool_decide (c = DOTDOT)); [apply IH|].
  destruct (node_at fs (cur ++ [c])); [apply IH|done].
Qed.


(** ** Growth of the file system *)

Lemma node_at_snoc (fs : gmap (list (list N)) node) q c :
  node_at fs (q ++ [c]) = fs !! (q ++ [c]).
Proof. by destruct q. Qed.

Lemma grows_refl fs : grows fs fs.
Proof. intros q. destruct (fs !! q) as [[|t]|]; eauto. Qed.

Lemma grows_trans fs1 fs2 fs3 : grows fs1 fs2 → grows fs2 fs3 → grows fs1 fs3.
Proof.
  intros H12 H23 q. specialize (H12 q). specialize (H23 q).
  destruct (fs1 !! q) as [[|t]|]; [| |done].
  - by rewrite H12 in H23.
  - destruct H12 as [t' H12]. by rewrite H12 in H23.
Qed.

Lemma grows_insert_fresh fs q n : fs !! q = None → grows fs (<[q := n]> fs).
Proof.
  intros Hq k. destruct (decide (q = k)) as [<-|Hne].
  - by rewrite Hq.
  - rewrite lookup_insert_ne by done. destruct (fs !! k) as [[|t]|]; eauto.
Qed.

Lemma grows_insert_file fs q t t' :
  fs !! q = Some (File t) → grows fs (<[q := File t']> fs).
Proof.
  intros Hq k. destruct (decide (q = k)) as [<-|Hne].
  - rewrite Hq, lookup_insert_eq. eauto.
  - rewrite lookup_insert_ne by done. destruct (fs !! k) as [[|t'']|]; eauto.
Qed.

Lemma grows_node_at fs fs' q n :
  grows fs fs' → node_at fs q = Some n →
  ∃ n', node_at fs' q = Some n' ∧ (n = Dir → n' = Dir).
Proof.
  intros Hg. destruct q as [|c q]; simpl; [intros _; by exists Dir|].
  specialize (Hg (c :: q)). intros Hq. rewrite Hq in Hg.
  destruct n as [|t]; [by exists Dir|]. destruct Hg as [t' ->].
  by exists (File t').
Qed.

Lemma grows_is_dir_at fs fs' q :
  grows fs fs' → is_dir_at fs q = true → is_dir_at fs' q = true.
Proof.
  unfold is_dir_at. rewrite !bool_decide_eq_true.
  intros Hg (n' & -> & Hn)%(grows_node_at _ _ _ _ Hg). by rewrite Hn.
Qed.

Lemma grows_walk fs fs' cur P q :
  grows fs fs' → walk fs cur P = Some q → walk fs' cur P = Some q.
Proof.
  intros Hg. revert cur. induction P as [|c P IH]; intros cur; simpl; [done|].
  destruct (is_dir_at fs cur) eqn:Hd; [|done].
  rewrite (grows_is_dir_at _ _ _ Hg Hd).
  destruct (bool_decide (c = DOTDOT)); [apply IH|].
  destruct (node_at fs (cur ++ [c])) as [n|] eqn:Hn; [|done].
  destruct (grows_node_at _ _ _ _ Hg Hn) as (n' & -> & _). apply IH.
Qed.

(** What exists keeps existing when the file system grows. *)
Lemma grows_exists fs fs' P :
  grows fs fs' → exists_ fs P = true → exists_ fs' P = true.
Proof.
  unfold exists_, stat. rewrite !bool_decide_eq_true. intros Hg [n Hn].
  destruct (walk fs [] P) as [q|] eqn:Hw; [|done]. simpl in Hn.
  rewrite (grows_walk _ _ _ _ _ Hg Hw). simpl.
  destruct (grows_node_at _ _ _ _ Hg Hn) as (n' & -> & _). eauto.
Qed.

Lemma grows_is_dir fs fs' P :
  grows fs fs' → is_dir fs P = true → is_dir fs' P = true.
Proof.
  unfold is_dir, stat. rewrite !bool_decide_eq_true. intros Hg Hn.
  destruct (walk fs [] P) as [q|] eqn:Hw; [|done]. simpl in Hn.
  rewrite (grows_walk _ _ _ _ _ Hg Hw). simpl.
  destruct (grows_node_at _ _ _ _ Hg Hn) as (n' & -> & ->); done.
Qed.

Lemma mkdir_from_grows fs cur P : grows fs (mkdir_from fs cur P).1.
Proof.
  revert fs cur. induction P as [|c P IH]; intros fs cur; simpl.
  - apply grows_refl.
  - destruct (bool_decide (c = DOTDOT)); [apply IH|].
    destruct (node_at fs (cur ++ [c])) as [[|t]|] eqn:Hn.
    + apply IH.
    + apply grows_refl.
    + eapply grows_trans; [|apply IH]. apply grows_insert_fresh.
      by rewrite <- node_at_snoc.
Qed.

(** Where [mkdir_from] writes: only at locations that were free. *)
Lemma mkdir_from_frame fs cur P q :
  is_Some (fs !! q) → (mkdir_from fs cur P).1 !! q = fs !! q.
Proof.
  revert fs cur. induction P as [|c P IH]; intros fs cur Hq; simpl; [done|].
  destruct (bool_decide (c = DOTDOT)); [by apply IH|].
  destruct (node_at fs (cur ++ [c])) as [[|t]|] eqn:Hn; [by apply IH|done|].
  assert (fs !! (cur ++ [c]) = None) as Hfree by (by rewrite <- node_at_snoc).
  assert (cur ++ [c] ≠ q) as Hne.
  { intros E. rewrite E in Hfree. rewrite Hfree in Hq. by destruct Hq. }
  rewrite IH; rewrite lookup_insert_ne by done; done.
Qed.

(** Along directories that exist [mkdir_from] only moves on. *)
Lemma mkdir_from_walk fs cur P q Q :
  walk fs cur P = Some q → is_dir_at fs q = true →
  mkdir_from fs cur (P ++ Q) = mkdir_from fs q Q.
Proof.
  revert cur. induction P as [|c P IH]; intros cur; simpl.
  - by intros [= ->].
  - destruct (is_dir_at fs cur); [|done].
    destruct (bool_decide (c = DOTDOT)); [apply IH|].
    destruct (node_at fs (cur ++ [c])) as [[|t]|] eqn:Hn; [apply IH| |done].
    intros Hw Hq. destruct P as [|c' P]; simpl in Hw.
    + injection Hw as <-. unfold is_dir_at in Hq. rewrite Hn in Hq.
      by apply bool_decide_eq_true in Hq.
    + unfold is_dir_at in Hw. rewrite Hn in Hw.
      rewrite bool_decide_eq_false_2 in Hw by done. done.
Qed.

Lemma write_file_inv fs P body fs' :
  write_file fs P body = Some fs' →
  ∃ q, walk fs [] (parent P) = Some q ∧ is_dir_at fs q = true ∧ P ≠ [] ∧
       name P ≠ DOTDOT ∧ node_at fs (q ++ [name P]) ≠ Some Dir ∧
       fs' = <[q ++ [name P] := File (Some (decode body))]> fs.
Proof.
  unfold write_file. destruct (walk fs [] (parent P)) as [q|]; [|done].
  destruct (is_dir_at fs q) eqn:Hd; [|done]. simpl.
  destruct (bool_decide (P = [])) eqn:HP; [done|]. simpl.
  destruct (bool_decide (name P = DOTDOT)) eqn:Hn; [done|]. simpl.
  apply bool_decide_eq_false in HP, Hn.
  destruct (node_at fs (q ++ [name P])) as [[|t]|] eqn:Hq; [done| |];
    intros [= <-]; exists q; split_and!; try done; congruence.
Qed.

Lemma write_file_grows fs P body fs' :
  write_file fs P body = Some fs' → grows fs fs'.
Proof.
  intros (q & _ & _ & _ & _ & Hq & ->)%write_file_inv.
  rewrite node_at_snoc in Hq. destruct (fs !! (q ++ [name P])) as [[|t]|] eqn:Hl.
  - done.
  - by eapply grows_insert_file.
  - by apply grows_insert_fresh.
Qed.

(** A file that was written exists. *)
Lemma write_file_exists fs P body fs' :
  write_file fs P body = Some fs' → exists_ fs' P = true.
Proof.
  intros Hw. pose proof (write_file_grows _ _ _ _ Hw) as Hg.
  apply write_file_inv in Hw as (q & Hq & Hd & HP & Hn & _ & Hfs).
  pose proof (path_parent_name P HP) as HPP.
  revert Hq Hn Hfs HPP. generalize (parent P) (name P). intros PP n Hq Hn Hfs ->.
  unfold exists_, stat. apply bool_decide_eq_true.
  rewrite walk_app, (grows_walk _ _ _ _ _ Hg Hq). simpl.
  rewrite (grows_is_dir_at _ _ _ Hg Hd).
  rewrite bool_decide_eq_false_2 by done.
  rewrite !node_at_snoc, Hfs, lookup_insert_eq. simpl.
  rewrite node_at_snoc, lookup_insert_eq. eauto.
Qed.

(** ** Scanning a text *)

(** The scan reaches a position no earlier match runs across. *)
Lemma findall_from_reach pat before s skip :
  (skip ≤ length before)%nat →
  (∀ a b h m, before = a ++ b → b ≠ [] →
     match_at pat (b ++ s) = Some (h, m) → (m ≤ length b)%nat) →
  ∃ l, findall_from pat (before ++ s) skip = l ++ findall_from pat s 0.
Proof.
  intros Hskip Hfree. revert skip Hskip.
  induction before as [|c before IH]; intros skip Hskip; simpl in *.
  - assert (skip = O) as -> by lia. by exists [].
  - assert (∀ m, (m ≤ length before)%nat →
                 ∃ l, findall_from pat (before ++ s) m = l ++ findall_from pat s 0) as Htl.
    { apply IH. intros a b h m -> Hb. by apply (Hfree (c :: a) b h m). }
    destruct skip as [|m]; simpl; [|apply Htl; lia].
    destruct (match_at pat (c :: before ++ s)) as [[h len]|] eqn:Hc.
    + specialize (Hfree [] (c :: before) h len eq_refl). simpl in Hfree.
      specialize (Hfree ltac:(done) Hc).
      destruct (Htl (len - 1)%nat ltac:(lia)) as [l ->]. by exists (h :: l).
    + apply Htl. lia.
Qed.

Lemma findall_from_match pat s g n :
  match_at pat s = Some (g, n) → g ∈ findall_from pat s 0.
Proof. intros Hm. destruct s; simpl; rewrite Hm; apply elem_of_cons; auto. Qed.

(** A match never runs across a character that cannot occur inside one. *)
Lemma delimited_free pat (inside : N → bool) d before s :
  (∀ s g n, match_at pat s = Some (g, n) →
     ∃ w s', s = w ++ s' ∧ length w = n ∧ forallb inside w = true) →
  inside d = false →
  ∀ a b h m, before ++ [d] = a ++ b → b ≠ [] →
    match_at pat (b ++ s) = Some (h, m) → (m ≤ length b)%nat.
Proof.
  intros Hin Hd a b h m Hab Hb Hm.
  destruct b as [|x b _] using rev_ind; [done|].
  rewrite app_assoc in Hab. apply app_inj_tail in Hab as [_ <-].
  apply Hin in Hm as (w & s' & Hw & <- & Hall).
  destruct (decide (length w ≤ length (b ++ [d]))%nat) as [|Hlong]; [done|].
  exfalso. apply (f_equal (take (length (b ++ [d])))) in Hw.
  rewrite take_app_length in Hw.
  rewrite take_app_le in Hw by lia.
  rewrite <- (take_drop (length (b ++ [d])) w), <- Hw, !forallb_app in Hall.
  simpl in Hall. rewrite Hd in Hall.
  by rewrite andb_false_r in Hall.
Qed.

Lemma match_at_region pat s g n :
  match_at pat s = Some (g, n) →
  ∃ w1 w3 s', s = (w1 ++ g ++ w3) ++ s' ∧ length (w1 ++ g ++ w3) = n ∧
    lang (pre pat) w1 ∧ lang (grp pat) g ∧ lang (post pat) w3.
Proof.
  intros (w1 & w3 & s' & -> & H1 & H2 & H3 & ->)%match_at_sound.
  exists w1, w3, s'. by rewrite <- !app_assoc.
Qed.

(** A pattern whose first character is fixed fails on any other one. *)
Lemma match_at_head pat c l x s :
  pre pat = lit (c :: l) → x ≠ c → match_at pat (x :: s) = None.
Proof.
  unfold match_at. intros -> Hx. simpl. by destruct (N.eqb_spec x c).
Qed.

(** ** Character classes *)

Lemma cls_word_ref c : cls_word c = true → cls_ref c = true.
Proof.
  intros H. unfold cls_ref.
  destruct (N.eqb_spec c DQUOTE) as [->|]; [by vm_compute in H|].
  destruct (N.eqb_spec c SQUOTE) as [->|]; [by vm_compute in H|].
  destruct (N.eqb_spec c GT) as [->|]; [by vm_compute in H|]. done.
Qed.

Lemma cls_word_not_colon c : cls_word c = true → negb (c =? 58) = true.
Proof.
  intros H. destruct (N.eqb_spec c 58) as [->|]; [by vm_compute in H|done].
Qed.

Lemma cls_asset_no_slash c : cls_asset c = true → c ≠ SLASH.
Proof. intros H ->. by vm_compute in H. Qed.

Lemma forallb_impl (p q : N → bool) l :
  (∀ c, p c = true → q c = true) → forallb p l = true → forallb q l = true.
Proof.
  intros Hpq. rewrite !forallb_forall. auto.
Qed.

(** ** The pattern of remote site references *)

Lemma pattern_url_match id rest :
  id ≠ [] → forallb cls_word id = true →
  (∀ c t, rest = c :: t → cls_word c = false) →
  ∃ n, match_at pattern_url (cps "framerusercontent.com/sites/" ++ id ++ rest)
       = Some (id, n).
Proof.
  intros Hid Hw Hrest. unfold match_at, pattern_url, pre, grp, post.
  rewrite mt_lit. cbn [mt]. eexists.
  apply plus_greedy; try done.
  by rewrite length_app, Nat.add_sub, take_app_length.
Qed.

Lemma pattern_url_region s g n :
  match_at pattern_url s = Some (g, n) →
  ∃ w s', s = w ++ s' ∧ length w = n ∧ forallb (λ c, negb (c =? 58)) w = true.
Proof.
  intros (w1 & w3 & s' & -> & Hn & H1 & H2 & H3)%match_at_region.
  exists (w1 ++ g ++ w3), s'. split_and!; try done.
  apply lang_lit in H1 as ->. simpl in H2, H3. subst w3. destruct H2 as [_ H2].
  rewrite !forallb_app. rewrite (forallb_impl _ _ _ cls_word_not_colon H2).
  by vm_compute.
Qed.

Lemma findall_from_skip pat c l x s :
  pre pat = lit (c :: l) → x ≠ c →
  findall_from pat (x :: s) 0 = findall_from pat s 0.
Proof. intros Hp Hx. simpl. by rewrite (match_at_head pat c l x s Hp Hx). Qed.

Lemma url_literal_split :
  cps "https://framerusercontent.com/sites/"
  = cps "https" ++ [58] ++ SLASH :: SLASH :: cps "framerusercontent.com/sites/".
Proof. reflexivity. Qed.

(** A remote reference [https://framerusercontent.com/sites/<id>/] is found
    wherever it stands in the text. *)
Lemma findall_pattern_url before id after :
  id ≠ [] → forallb cls_word id = true →
  id ∈ findall pattern_url
    (before ++ cps "https://framerusercontent.com/sites/" ++ id ++ SLASH :: after).
Proof.
  intros Hid Hw. rewrite url_literal_split.
  rewrite <- !app_assoc, (app_assoc before (cps "https")), (app_assoc _ [58]).
  unfold findall.
  edestruct (findall_from_reach pattern_url ((before ++ cps "https") ++ [58])) as [l ->].
  { apply Nat.le_0_l. }
  { apply (delimited_free _ _ _ _ _ pattern_url_region). reflexivity. }
  apply elem_of_app. right. rewrite <- !app_comm_cons.
  rewrite (findall_from_skip pattern_url 102 (cps "ramerusercontent.com/sites/"));
    [|reflexivity|discriminate].
  rewrite (findall_from_skip pattern_url 102 (cps "ramerusercontent.com/sites/"));
    [|reflexivity|discriminate].
  destruct (pattern_url_match id (SLASH :: after) Hid Hw) as [n Hn].
  { intros c t [= <- <-]. reflexivity. }
  exact (findall_from_match _ _ _ _ Hn).
Qed.

(** ** The pattern of local search-index references *)

Lemma take_app_sub (a b : list N) : take (length (a ++ b) - length b) (a ++ b) = a.
Proof. by rewrite length_app, Nat.add_sub, take_app_length. Qed.

Lemma pattern_local_match id sfx rest :
  id ≠ [] → forallb cls_word id = true →
  sfx ≠ [] → forallb cls_ref sfx = true →
  ∃ n, match_at pattern_local
         (cps "sites/" ++ id ++ cps "/searchIndex-" ++ sfx ++ cps ".json" ++ rest)
       = Some (id, n).
Proof.
  intros Hid Hw Hsfx Hr. unfold match_at, pattern_local, pre, grp, post.
  rewrite mt_lit. cbn [mt].
  match goal with |- ∃ n, plus _ _ ?k = _ => set (K := k) end.
  assert (∃ n, K (cps "/searchIndex-" ++ sfx ++ cps ".json" ++ rest) = Some (id, n))
    as [n HK].
  { unfold K. rewrite mt_lit.
    match goal with |- ∃ n, plus _ _ ?k = _ => set (K2 := k) end.
    assert (is_Some (plus cls_ref (sfx ++ cps ".json" ++ rest) K2)) as [x Hx].
    { apply plus_complete; [exact Hsfx|exact Hr|]. unfold K2. rewrite mt_lit. eauto. }
    rewrite Hx. apply plus_sound in Hx as (w & s' & _ & _ & _ & Hk).
    unfold K2 in Hk. apply mt_lit_inv in Hk as (s'' & _ & Hk).
    injection Hk as <-. rewrite take_app_sub. eauto. }
  exists n. apply plus_greedy; [exact Hid|exact Hw| |exact HK].
  intros c t E. injection E as <- _. reflexivity.
Qed.

Lemma pattern_local_region s g n :
  match_at pattern_local s = Some (g, n) →
  ∃ w s', s = w ++ s' ∧ length w = n ∧ forallb cls_ref w = true.
Proof.
  intros (w1 & w3 & s' & -> & Hn & H1 & H2 & H3)%match_at_region.
  exists (w1 ++ g ++ w3), s'. split_and!; try done.
  apply lang_lit in H1 as ->. destruct H2 as [_ H2].
  destruct H3 as (u & v & -> & ->%lang_lit & (x & y & -> & [_ Hx] & ->%lang_lit)).
  rewrite !forallb_app, Hx, (forallb_impl _ _ _ cls_word_ref H2).
  reflexivity.
Qed.

(** A local reference [sites/<id>/searchIndex-<suffix>.json] is found when
    it starts the text or follows a character no reference can contain. *)
Lemma findall_pattern_local_start id sfx after :
  id ≠ [] → forallb cls_word id = true →
  sfx ≠ [] → forallb cls_ref sfx = true →
  id ∈ findall pattern_local
    (cps "sites/" ++ id ++ cps "/searchIndex-" ++ sfx ++ cps ".json" ++ after).
Proof.
  intros Hid Hw Hsfx Hr.
  destruct (pattern_local_match id sfx after Hid Hw Hsfx Hr) as [n Hn].
  exact (findall_from_match _ _ _ _ Hn).
Qed.

Lemma findall_pattern_local before d id sfx after :
  cls_ref d = false →
  id ≠ [] → forallb cls_word id = true →
  sfx ≠ [] → forallb cls_ref sfx = true →
  id ∈ findall pattern_local
    (before ++ d :: cps "sites/" ++ id ++ cps "/searchIndex-" ++ sfx
       ++ cps ".json" ++ after).
Proof.
  intros Hd Hid Hw Hsfx Hr.
  rewrite (cons_middle d before), app_assoc. unfold findall.
  edestruct (findall_from_reach pattern_local (before ++ [d])) as [l ->].
  { apply Nat.le_0_l. }
  { exact (delimited_free _ _ _ _ _ pattern_local_region Hd). }
  apply elem_of_app. right.
  destruct (pattern_local_match id sfx after Hid Hw Hsfx Hr) as [n Hn].
  exact (findall_from_match _ _ _ _ Hn).
Qed.

(** ** The asset pattern *)

Lemma lang_asset_ext e : lang asset_ext e → e ∈ asset_exts.
Proof.
  unfold asset_ext, asset_exts. cbn [lang].
  intros [H|[H|[H|[H|[H|[H|H]]]]]].
  - apply lang_lit in H as ->. apply list_elem_of_here.
  - destruct H as (u & v & -> & ->%lang_lit & (u' & v' & -> & [->| ->] & ->)).
    + do 2 apply list_elem_of_further. apply list_elem_of_here.
    + apply list_elem_of_further. apply list_elem_of_here.
  - apply lang_lit in H as ->. do 3 apply list_elem_of_further. apply list_elem_of_here.
  - apply lang_lit in H as ->. do 4 apply list_elem_of_further. apply list_elem_of_here.
  - apply lang_lit in H as ->. do 5 apply list_elem_of_further. apply list_elem_of_here.
  - apply lang_lit in H as ->. do 6 apply list_elem_of_further. apply list_elem_of_here.
  - destruct H as (u & v & -> & ->%lang_lit & [->| ->]).
    + do 8 apply list_elem_of_further. apply list_elem_of_here.
    + do 7 apply list_elem_of_further. apply list_elem_of_here.
Qed.

Lemma asset_exts_class : Forall (λ e, forallb cls_asset e = true) asset_exts.
Proof. unfold asset_exts. repeat constructor. Qed.

(** What the asset pattern captures: characters of the class, a dot, one of
    the extensions. *)
Lemma asset_name_shape g text :
  g ∈ findall asset_pattern text →
  ∃ w e, g = w ++ DOT :: e ∧ w ≠ [] ∧ forallb cls_asset w = true ∧ e ∈ asset_exts.
Proof.
  intros (a & b & n & _ & Hm)%findall_from_sound.
  apply match_at_sound in Hm as (w1 & w3 & s' & _ & _ & Hg & _).
  destruct Hg as (w & v & -> & [Hne Hw] & (u & e & -> & -> & He)).
  exists w, e. split_and!; try done. by apply lang_asset_ext.
Qed.

Lemma asset_name_class g text :
  g ∈ findall asset_pattern text → forallb cls_asset g = true.
Proof.
  intros (w & e & -> & _ & Hw & He)%asset_name_shape.
  rewrite forallb_app, Hw. simpl.
  pose proof asset_exts_class as Hall. rewrite Forall_forall in Hall.
  by rewrite (Hall e He).
Qed.

(** An asset name is a single path component. *)
Lemma asset_name_component g text P :
  g ∈ findall asset_pattern text → P // g = P ++ [g].
Proof.
  intros Hg. pose proof (asset_name_class _ _ Hg) as Hc.
  apply asset_name_shape in Hg as (w & e & -> & Hne & _ & _).
  apply joinpath_single.
  - rewrite forallb_forall in Hc. intros Hin%list_elem_of_In%Hc.
    by apply cls_asset_no_slash in Hin.
  - by destruct w.
  - destruct w as [|c [|c' w]]; done.
Qed.

(** ** The search-index pattern *)

Lemma index_name_shape site_id g text :
  g ∈ findall (index_pattern site_id) text →
  ∃ x, g = cps "searchIndex-" ++ x ++ cps ".json" ∧ x ≠ [] ∧ forallb cls_ref x = true.
Proof.
  intros (a & b & n & _ & Hm)%findall_from_sound.
  apply match_at_sound in Hm as (w1 & w3 & s' & _ & _ & Hg & _).
  destruct Hg as (u & v & -> & ->%lang_lit & (x & y & -> & [Hne Hx] & ->%lang_lit)).
  by exists x.
Qed.


(** ** The detection functions *)

Lemma elem_of_foldl_set {B} (g : gset (list N) → B → gset (list N))
    (C : B → list N → Prop) :
  (∀ acc p x, x ∈ g acc p ↔ x ∈ acc ∨ C p x) →
  ∀ l acc x, x ∈ foldl g acc l ↔ x ∈ acc ∨ ∃ p, p ∈ l ∧ C p x.
Proof.
  intros Hg l. induction l as [|p l IH]; intros acc x; simpl.
  - split; [auto|]. by intros [?|(p & Hp%elem_of_nil & _)].
  - rewrite IH, Hg. split.
    + intros [[?|?]|(q & ? & ?)]; [auto| |].
      * right. exists p. split; [left|done].
      * right. exists q. split; [by right|done].
    + intros [?|(q & [->|?]%elem_of_cons & ?)]; [auto|auto|]. right. eauto.
Qed.

Lemma elem_of_site_ids_in fs root (id : list N) :
  id ∈ site_ids_in fs root ↔
  ∃ text, scanned exts_site_ids fs root text ∧
          (id ∈ findall pattern_url text ∨ id ∈ findall pattern_local text).
Proof.
  unfold site_ids_in, scanned.
  rewrite (elem_of_foldl_set _
    (λ p x, ∃ text, scan_text exts_site_ids fs p = Some text ∧
                    (x ∈ findall pattern_url text ∨ x ∈ findall pattern_local text))).
  - rewrite elem_of_empty. split.
    + intros [[]|(p & Hp & text & Ht & Hx)]. eauto.
    + intros (text & (p & Hp & Ht) & Hx). right. eauto 10.
  - intros acc p x. unfold exts_site_ids.
    destruct (scan_text _ fs p) as [text|].
    + rewrite !elem_of_add_all. split.
      * intros [[?|?]|?]; eauto 10.
      * intros [?|(t & [= <-] & [?|?])]; auto.
    + split; [auto|]. intros [?|(t & [=] & _)]. done.
Qed.

Lemma elem_of_asset_names_in fs root (name : list N) :
  name ∈ asset_names_in fs root ↔
  ∃ text, scanned exts_assets fs root text ∧ name ∈ findall asset_pattern text.
Proof.
  unfold asset_names_in, scanned.
  rewrite (elem_of_foldl_set _
    (λ p x, ∃ text, scan_text exts_assets fs p = Some text ∧
                    x ∈ findall asset_pattern text)).
  - rewrite elem_of_empty. split.
    + intros [[]|(p & Hp & text & Ht & Hx)]. eauto.
    + intros (text & (p & Hp & Ht) & Hx). right. eauto 10.
  - intros acc p x. unfold exts_assets.
    destruct (scan_text _ fs p) as [text|].
    + rewrite !elem_of_add_all. split.
      * intros [?|?]; eauto 10.
      * intros [?|(t & [= <-] & ?)]; auto.
    + split; [auto|]. intros [?|(t & [=] & _)]. done.
Qed.

Lemma elem_of_indexes_in fs root site_id (name : list N) :
  name ∈ indexes_in fs root site_id ↔
  ∃ text, scanned exts_indexes fs root text ∧
          name ∈ findall (index_pattern site_id) text.
Proof.
  unfold indexes_in, scanned.
  rewrite (elem_of_foldl_set _
    (λ p x, ∃ text, scan_text exts_indexes fs p = Some text ∧
                    x ∈ findall (index_pattern site_id) text)).
  - rewrite elem_of_empty. split.
    + intros [[]|(p & Hp & text & Ht & Hx)]. eauto.
    + intros (text & (p & Hp & Ht) & Hx). right. eauto 10.
  - intros acc p x. unfold exts_indexes.
    destruct (scan_text _ fs p) as [text|].
    + rewrite !elem_of_add_all. split.
      * intros [?|?]; eauto 10.
      * intros [?|(t & [= <-] & ?)]; auto.
    + split; [auto|]. intros [?|(t & [=] & _)]. done.
Qed.

Lemma elem_of_add_absent fs site_dir missing l (x : list N) :
  x ∈ add_absent fs site_dir missing l ↔
  x ∈ missing ∨ (x ∈ l ∧ exists_ fs (site_dir // x) = false).
Proof.
  unfold add_absent.
  rewrite (elem_of_foldl_set _ (λ rel x, x = rel ∧ exists_ fs (site_dir // x) = false)).
  - split.
    + intros [?|(rel & ? & -> & ?)]; auto.
    + intros [?|[? ?]]; [auto|]. right. eauto.
  - intros acc rel y. destruct (exists_ fs (site_dir // rel)) eqn:E; simpl.
    + split; [auto|]. intros [?|[-> ?]]; [done|congruence].
    + rewrite elem_of_union, elem_of_singleton. split.
      * intros [?| ->]; auto.
      * intros [?|[-> ?]]; auto.
Qed.

Lemma elem_of_missing_mjs_in fs site_dir (rel : list N) :
  rel ∈ missing_mjs_in fs site_dir ↔
  ∃ mjs text, mjs ∈ glob_mjs fs site_dir ∧ read_text fs mjs = Some text ∧
    (rel ∈ findall dyn_import text ∨ rel ∈ findall static_import text) ∧
    exists_ fs (site_dir // rel) = false.
Proof.
  unfold missing_mjs_in.
  rewrite (elem_of_foldl_set _
    (λ mjs x, ∃ text, read_text fs mjs = Some text ∧
       (x ∈ findall dyn_import text ∨ x ∈ findall static_import text) ∧
       exists_ fs (site_dir // x) = false)).
  - rewrite elem_of_empty. split.
    + intros [[]|(p & Hp & text & Ht & Hx)]. eauto.
    + intros (mjs & text & Hp & Ht & Hx). right. eauto 10.
  - intros acc p x. destruct (read_text fs p) as [text|].
    + rewrite !elem_of_add_absent. split.
      * intros [[?|[? ?]]|[? ?]]; eauto 10.
      * intros [?|(t & [= <-] & [?|?] & ?)]; auto.
    + split; [auto|]. intros [?|(t & [=] & _)]. done.
Qed.

Lemma elem_of_missing_assets_in fs root (name : list N) :
  name ∈ missing_assets_in fs root ↔
  name ∈ asset_names_in fs root ∧
  exists_ fs (root // cps "assets" // name) = false ∧
  exists_ fs (root // cps "images" // name) = false.
Proof.
  unfold missing_assets_in. rewrite list_elem_of_filter, elem_of_sorted.
  rewrite andb_true_iff, !negb_true_iff. tauto.
Qed.

Lemma elem_of_missing_indexes_in fs root site_id (name : list N) :
  name ∈ missing_indexes_in fs root site_id ↔
  name ∈ indexes_in fs root site_id ∧
  exists_ fs (root // cps "sites" // site_id // name) = false.
Proof.
  unfold missing_indexes_in. rewrite list_elem_of_filter, elem_of_sorted.
  rewrite negb_true_iff. tauto.
Qed.

(** ** Reasoning about computations *)

Section Hoare.
Context {A B : Type}.

Lemma hoare_conseq (P P' : world → Prop) (m : M A) (Q Q' : outcome A → world → Prop) :
    hoare P' m Q' → (∀ w, P w → P' w) → (∀ o w, Q' o w → Q o w) → hoare P m Q.
  Proof. intros Hm HP HQ w Hw. apply HQ, Hm, HP, Hw. Qed.

Lemma hoare_ret (P : world → Prop) (a : A) (Q : outcome A → world → Prop) :
    (∀ w, P w → Q (Ret a) w) → hoare P (mret a) Q.
  Proof. intros H w Hw. by apply H. Qed.

Lemma hoare_raise (P : world → Prop) e (Q : outcome A → world → Prop) :
    (∀ w, P w → Q (Raise e) w) → hoare P (raise e) Q.
  Proof. intros H w Hw. by apply H. Qed.

Lemma hoare_reads (P : world → Prop) (f : gmap (list (list N)) node → A)
      (Q : outcome A → world → Prop) :
    (∀ w, P w → Q (Ret (f (fs w))) w) → hoare P (reads f) Q.
  Proof. intros H w Hw. by apply H. Qed.

Lemma hoare_bind (P : world → Prop) (m : M A) (f : A → M B)
      (R : A → world → Prop) (Q : outcome B → world → Prop) :
    hoare P m (λ o w, match o with Ret a => R a w | Raise e => Q (Raise e) w end) →
    (∀ a, hoare (R a) (f a) Q) →
    hoare P (m ≫= f) Q.
  Proof.
    intros Hm Hf w Hw. specialize (Hm w Hw).
    unfold mbind, M_bind. destruct (m w) as [[a|e] w']; simpl in *; [|done].
    by apply Hf.
  Qed.
End Hoare.

Lemma hoare_log (P : world → Prop) l (Q : outcome unit → world → Prop) :
  (∀ w, P w → Q (Ret ()) (World (fs w) (out w ++ [l]))) → hoare P (log l) Q.
Proof. intros H w Hw. by apply H. Qed.

(** Loops: [I rest] holds when [rest] is still to be processed. *)
Lemma hoare_for_each {A} (l : list A) (body : A → M unit)
    (I : list A → world → Prop) (Q : outcome unit → world → Prop) :
  (∀ before x rest, l = before ++ x :: rest →
     hoare (I (x :: rest)) (body x)
       (λ o w, match o with Ret _ => I rest w | Raise e => Q (Raise e) w end)) →
  (∀ w, I [] w → Q (Ret ()) w) →
  hoare (I l) (for_each l body) Q.
Proof.
  intros Hbody Hend.
  assert (∀ before rest, l = before ++ rest → hoare (I rest) (for_each rest body) Q)
    as H; [|by apply (H [])].
  intros before rest. revert before.
  induction rest as [|x rest IH]; intros before E; simpl.
  - by apply hoare_ret.
  - eapply hoare_bind; [by eapply Hbody|].
    intros []. apply (IH (before ++ [x])). by rewrite <- app_assoc.
Qed.

(** A loop with an invariant that does not depend on what is left. *)
Lemma hoare_for_each_inv {A} (l : list A) (body : A → M unit)
    (I : world → Prop) (Q : outcome unit → world → Prop) :
  (∀ x, x ∈ l →
     hoare I (body x)
       (λ o w, match o with Ret _ => I w | Raise e => Q (Raise e) w end)) →
  (∀ w, I w → Q (Ret ()) w) →
  hoare I (for_each l body) Q.
Proof.
  intros Hbody Hend. apply (hoare_for_each l body (λ _, I)); [|done].
  intros before x rest ->. apply Hbody, elem_of_app. right. by left.
Qed.

(** ** Runs without downloads *)

Lemma bind_run {A B} (m : M A) (f : A → M B) w :
  (m ≫= f) w = match m w with
               | (Ret a, w') => f a w'
               | (Raise e, w') => (Raise e, w')
               end.
Proof. reflexivity. Qed.

Lemma for_each_log (g : list N → log_line) l w :
  for_each l (λ x, log (g x)) w = (Ret (), World (fs w) (out w ++ map g l)).
Proof.
  revert w. induction l as [|x l IH]; intros w; simpl.
  - rewrite app_nil_r. by destruct w.
  - rewrite bind_run. unfold log at 1. rewrite IH. simpl.
    by rewrite <- app_assoc.
Qed.

Lemma item_lines_run header ok item l w :
  (if negb (bool_decide (l = [])) then
     log header;; for_each l (λ f, log (item f))
   else log ok) w
  = (Ret (), World (fs w) (out w ++ item_lines header ok item l)).
Proof.
  unfold item_lines. destruct (bool_decide (l = [])); simpl; [done|].
  rewrite bind_run. unfold log at 1. rewrite for_each_log. simpl.
  by rewrite <- app_assoc.
Qed.

Lemma find_missing_mjs_for_site_run root site_id w :
  find_missing_mjs_for_site root site_id w
  = (Ret (missing_mjs_of (fs w) root site_id),
     World (fs w)
       (out w ++ if is_dir (fs w) (root // cps "sites" // site_id) then []
                 else [LWarnNoSiteDir site_id])).
Proof.
  unfold find_missing_mjs_for_site, missing_mjs_of. rewrite bind_run.
  unfold reads at 1.
  destruct (is_dir (fs w) (root // cps "sites" // site_id)); simpl.
  - unfold reads. rewrite app_nil_r. by destruct w.
  - by rewrite bind_run.
Qed.

Lemma analyse_site_dry root net site_id w :
  analyse_site root true net site_id w
  = (Ret (), World (fs w) (out w ++ site_report (fs w) root site_id)).
Proof.
  unfold analyse_site, site_report.
  rewrite bind_run. unfold log at 1.
  rewrite bind_run, find_missing_mjs_for_site_run. cbn [fs out].
  rewrite bind_run, item_lines_run. cbn [fs out].
  rewrite bind_run. unfold find_missing_search_indexes, reads at 1. cbn [fs out].
  rewrite bind_run, item_lines_run. cbn [fs out negb].
  unfold mret, M_ret. by rewrite <- !app_assoc.
Qed.

Lemma for_each_report {A} (body : A → M unit)
    (F : gmap (list (list N)) node → A → list log_line) l w :
  (∀ x w, body x w = (Ret (), World (fs w) (out w ++ F (fs w) x))) →
  for_each l body w = (Ret (), World (fs w) (out w ++ concat (map (F (fs w)) l))).
Proof.
  intros Hbody. revert w. induction l as [|x l IH]; intros w; simpl.
  - rewrite app_nil_r. by destruct w.
  - rewrite bind_run, Hbody, IH. simpl. by rewrite <- app_assoc.
Qed.

Lemma main_dry root net w :
  is_dir (fs w) root = true →
  main root true net w = (Ret (), World (fs w) (out w ++ dry_report (fs w) root)).
Proof.
  intros Hroot. unfold main, dry_report.
  rewrite bind_run. unfold reads at 1. rewrite Hroot. cbn [negb].
  rewrite bind_run. unfold log at 1.
  rewrite bind_run. unfold find_site_ids, reads at 1. cbn [fs out].
  rewrite bind_run.
  assert (∀ w', (if bool_decide (site_ids_in (fs w) root = ∅) then log LWarnNoIds
                 else log (LInfoIds (sorted (site_ids_in (fs w) root)))) w'
                = (Ret (), World (fs w') (out w' ++
                     [if bool_decide (site_ids_in (fs w) root = ∅) then LWarnNoIds
                      else LInfoIds (sorted (site_ids_in (fs w) root))]))) as ->.
  { intros w'. by destruct (bool_decide _). }
  cbn [fs out].
  rewrite bind_run, (for_each_report _ (λ fs x, site_report fs root x))
    by (intros; apply analyse_site_dry).
  cbn [fs out].
  rewrite bind_run. unfold log at 1. cbn [fs out].
  rewrite bind_run. unfold find_missing_assets, reads at 1. cbn [fs out].
  rewrite bind_run, item_lines_run. cbn [fs out].
  rewrite bind_run. unfold mret, M_ret. cbn [fs out].
  rewrite bind_run. unfold log. cbn [fs out].
  by rewrite <- !app_assoc.
Qed.

Lemma main_no_root root dry_run net w :
  is_dir (fs w) root = false →
  main root dry_run net w = (Raise (SystemExit 1), World (fs w) (out w ++ [LFatal root])).
Proof.
  intros Hroot. unfold main. rewrite bind_run. unfold reads at 1. rewrite Hroot.
  reflexivity.
Qed.

Lemma elem_of_item_lines header ok item l x :
  x ∈ item_lines header ok item l ↔
  (l = [] ∧ x = ok) ∨ (l ≠ [] ∧ (x = header ∨ ∃ f, f ∈ l ∧ x = item f)).
Proof.
  unfold item_lines. destruct (bool_decide_reflect (l = [])) as [->|Hl].
  - rewrite list_elem_of_singleton. naive_solver.
  - rewrite elem_of_cons, list_elem_of_fmap. naive_solver.
Qed.

Lemma item_mjs_site_report fs root site_id id f :
  LItemMjs id f ∈ site_report fs root site_id ↔
  id = site_id ∧ f ∈ missing_mjs_of fs root site_id.
Proof.
  unfold site_report. rewrite !elem_of_app, !elem_of_item_lines, list_elem_of_singleton.
  split.
  - intros [?|[H|[H|H]]]; [done| | |].
    + destruct (is_dir _ _); [by apply elem_of_nil in H|].
      by apply list_elem_of_singleton in H.
    + destruct H as [[_ ?]|[_ [?|(g & Hg & [= -> ->])]]]; done.
    + destruct H as [[_ ?]|[_ [?|(g & Hg & ?)]]]; done.
  - intros [-> Hf]. right. right. left. right. split; [by intros E; rewrite E in Hf; apply elem_of_nil in Hf|].
    right. eauto.
Qed.

Lemma item_idx_site_report fs root site_id id f :
  LItemIdx id f ∈ site_report fs root site_id ↔
  id = site_id ∧ f ∈ missing_indexes_in fs root site_id.
Proof.
  unfold site_report. rewrite !elem_of_app, !elem_of_item_lines, list_elem_of_singleton.
  split.
  - intros [?|[H|[H|H]]]; [done| | |].
    + destruct (is_dir _ _); [by apply elem_of_nil in H|].
      by apply list_elem_of_singleton in H.
    + destruct H as [[_ ?]|[_ [?|(g & Hg & ?)]]]; done.
    + destruct H as [[_ ?]|[_ [?|(g & Hg & [= -> ->])]]]; done.
  - intros [-> Hf]. right. right. right. right. split; [by intros E; rewrite E in Hf; apply elem_of_nil in Hf|].
    right. eauto.
Qed.

Lemma item_asset_site_report fs root site_id name :
  LItemAsset name ∉ site_report fs root site_id.
Proof.
  unfold site_report. rewrite !elem_of_app, !elem_of_item_lines, list_elem_of_singleton.
  intros [?|[H|[H|H]]]; [done| | |].
  - destruct (is_dir _ _); [by apply elem_of_nil in H|].
    by apply list_elem_of_singleton in H.
  - destruct H as [[_ ?]|[_ [?|(g & Hg & ?)]]]; done.
  - destruct H as [[_ ?]|[_ [?|(g & Hg & ?)]]]; done.
Qed.

Lemma elem_of_concat_map {A B} (F : A → list B) (l : list A) (y : B) :
  y ∈ concat (map F l) ↔ ∃ x, x ∈ l ∧ y ∈ F x.
Proof.
  induction l as [|a l IH]; simpl.
  - rewrite elem_of_nil. split; [done|]. by intros (x & Hx%elem_of_nil & _).
  - rewrite elem_of_app, IH. split.
    + intros [?|(x & ? & ?)]; [exists a|exists x]; split; auto; by constructor.
    + intros (x & [->|?]%elem_of_cons & ?); eauto.
Qed.

Lemma item_mjs_dry_report fs root id f :
  LItemMjs id f ∈ dry_report fs root ↔
  id ∈ site_ids_in fs root ∧ f ∈ missing_mjs_of fs root id.
Proof.
  unfold dry_report.
  rewrite !elem_of_app, elem_of_concat_map, !list_elem_of_singleton,
    elem_of_item_lines. split.
  - intros [?|[H|[(x & Hx%elem_of_sorted & [-> ?]%item_mjs_site_report)|[?|[H|H]]]]];
      try done.
    + by destruct (bool_decide _).
    + destruct H as [[_ ?]|[_ [?|(g & Hg & ?)]]]; done.
    + by apply elem_of_cons in H as [?|?%list_elem_of_singleton].
  - intros [Hid Hf]. right. right. left. exists id.
    by rewrite elem_of_sorted, item_mjs_site_report.
Qed.

Lemma item_idx_dry_report fs root id f :
  LItemIdx id f ∈ dry_report fs root ↔
  id ∈ site_ids_in fs root ∧ f ∈ missing_indexes_in fs root id.
Proof.
  unfold dry_report.
  rewrite !elem_of_app, elem_of_concat_map, !list_elem_of_singleton,
    elem_of_item_lines. split.
  - intros [?|[H|[(x & Hx%elem_of_sorted & [-> ?]%item_idx_site_report)|[?|[H|H]]]]];
      try done.
    + by destruct (bool_decide _).
    + destruct H as [[_ ?]|[_ [?|(g & Hg & ?)]]]; done.
    + by apply elem_of_cons in H as [?|?%list_elem_of_singleton].
  - intros [Hid Hf]. right. right. left. exists id.
    by rewrite elem_of_sorted, item_idx_site_report.
Qed.

Lemma item_asset_dry_report fs root name :
  LItemAsset name ∈ dry_report fs root ↔ name ∈ missing_assets_in fs root.
Proof.
  unfold dry_report.
  rewrite !elem_of_app, elem_of_concat_map, !list_elem_of_singleton,
    elem_of_item_lines. split.
  - intros [?|[H|[(x & _ & []%item_asset_site_report)|[?|[H|H]]]]]; try done.
    + by destruct (bool_decide _).
    + destruct H as [[_ ?]|[_ [?|(g & Hg & [= ->])]]]; done.
    + by apply elem_of_cons in H as [?|?%list_elem_of_singleton].
  - intros Hf. do 4 right. left. right.
    split; [by intros E; rewrite E in Hf; apply elem_of_nil in Hf|]. right. eauto.
Qed.

(** ** Runs with downloads *)

(** The analysis of a site prints its report, then downloads. *)
Lemma analyse_site_run root dry_run net site_id w :
  analyse_site root dry_run net site_id w
  = (if negb dry_run then
       for_each (missing_mjs_of (fs w) root site_id) (fetch_site_file root net site_id);;
       for_each (missing_indexes_in (fs w) root site_id) (fetch_site_file root net site_id)
     else mret ())
      (World (fs w) (out w ++ site_report (fs w) root site_id)).
Proof.
  unfold analyse_site, site_report.
  rewrite bind_run. unfold log at 1.
  rewrite bind_run, find_missing_mjs_for_site_run. cbn [fs out].
  rewrite bind_run, item_lines_run. cbn [fs out].
  rewrite bind_run. unfold find_missing_search_indexes, reads at 1. cbn [fs out].
  rewrite bind_run, item_lines_run. cbn [fs out].
  by rewrite <- !app_assoc.
Qed.

(** What a download does to the world: the file system grows, the output
    gains lines that report no item, and a download that returns without
    an error line leaves its destination on disk. *)
Lemma download_file_effect net url dest w o w' :
  download_file net url dest w = (o, w') →
  grows (fs w) (fs w') ∧
  ∃ l, out w' = out w ++ l ∧ Forall (λ x, is_item x = false) l ∧
       (o = Ret () → no_errors l → exists_ (fs w') dest = true).
Proof.
  unfold download_file. rewrite bind_run. unfold mkdir at 1, mkdir_parents.
  pose proof (mkdir_from_grows (fs w) [] (parent dest)) as Hg1.
  destruct (mkdir_from (fs w) [] (parent dest)) as [fs1 [|]]; simpl in Hg1.
  2:{ intros [= <- <-]. split; [done|]. exists []. by rewrite app_nil_r. }
  rewrite bind_run. unfold log at 1. cbn [fs out].
  assert (∀ line, is_item line = false → is_error line = true →
            (Ret (), World fs1 ((out w ++ [LGet url]) ++ [line])) = (o, w') →
            grows (fs w) (fs w') ∧
            ∃ l, out w' = out w ++ l ∧ Forall (λ x, is_item x = false) l ∧
              (o = Ret () → no_errors l → exists_ (fs w') dest = true))
    as Hfail.
  { intros line Hi He [= <- <-]. split; [done|]. exists [LGet url; line].
    rewrite <- app_assoc. split_and!; [done|by repeat constructor|].
    intros _ Hne. inversion Hne as [|? ? _ Hne']. inversion Hne' as [|? ? E _]. congruence. }
  destruct (net url) as [b|b|b|code| |].
  - rewrite bind_run. unfold store at 1. cbn [fs out].
    destruct (write_file fs1 dest b) as [fs2|] eqn:Hw; [|by apply Hfail].
    intros [= <- <-]. cbn [fs out]. split.
    + eapply grows_trans; [done|]. by eapply write_file_grows.
    + exists [LGet url; LOk dest]. rewrite <- app_assoc.
      split_and!; [done|by repeat constructor|].
      intros _ _. by eapply write_file_exists.
  - rewrite bind_run. unfold store at 1. cbn [fs out].
    destruct (write_file fs1 dest b) as [fs2|] eqn:Hw; [|by apply Hfail].
    intros [= <- <-]. cbn [fs out]. split.
    + eapply grows_trans; [done|]. by eapply write_file_grows.
    + exists [LGet url; LErrURL url]. rewrite <- app_assoc.
      split_and!; [done|by repeat constructor|].
      intros _ Hne. inversion Hne as [|? ? _ Hne']. by inversion Hne'.
  - rewrite bind_run. unfold store at 1. cbn [fs out].
    destruct (write_file fs1 dest b) as [fs2|] eqn:Hw; [|by apply Hfail].
    intros [= <- <-]. cbn [fs out]. split.
    + eapply grows_trans; [done|]. by eapply write_file_grows.
    + exists [LGet url; LErrFail url]. rewrite <- app_assoc.
      split_and!; [done|by repeat constructor|].
      intros _ Hne. inversion Hne as [|? ? _ Hne']. by inversion Hne'.
  - by apply Hfail.
  - by apply Hfail.
  - by apply Hfail.
Qed.

Lemma is_item_dest root l : is_item l = false → item_dest root l = None.
Proof. by destruct l. Qed.

(** *** The shape of a run

    [main] keeps any invariant [I pend] of the world, indexed by the
    lines whose items are reported and not yet fetched, that the steps of
    the script keep. *)
Section Run.
Variables (root : list (list N)) (dry_run : bool) (net : list N → response).
Variable I : list log_line → world → Prop.

Hypothesis I_log : ∀ pend l w,
    I pend w → item_dest root l = None ∨ l ∈ pend →
    I pend (World (fs w) (out w ++ [l])).
Hypothesis I_site : ∀ w site_id,
    I [] w →
    I (map (LItemMjs site_id) (missing_mjs_of (fs w) root site_id)
       ++ map (LItemIdx site_id) (missing_indexes_in (fs w) root site_id)) w.
Hypothesis I_assets : ∀ w,
    I [] w → I (map LItemAsset (missing_assets_in (fs w) root)) w.
Hypothesis I_download : ∀ pend line url dest,
    item_dest root line = Some dest →
    hoare (I (line :: pend)) (download_file net url dest)
      (λ o w, match o with Ret _ => I pend w | Raise _ => ∃ pend', I pend' w end).
Hypothesis I_dry : dry_run = true → ∀ pend w, I pend w → I [] w.

Lemma I_logs (pend ls : list log_line) w :
    I pend w → (∀ l, l ∈ ls → item_dest root l = None ∨ l ∈ pend) →
    I pend (World (fs w) (out w ++ ls)).
  Proof.
    revert w. induction ls as [|l ls IH]; intros w HI Hls.
    - rewrite app_nil_r. by destruct w.
    - rewrite (cons_middle l), app_assoc.
      apply (IH (World (fs w) (out w ++ [l]))).
      + apply I_log; [done|]. apply Hls. by left.
      + intros l' Hl'. apply Hls. by right.
  Qed.

Lemma item_lines_dest header ok item (ls : list (list N))
      (pend : list log_line) l :
    item_dest root header = None → item_dest root ok = None →
    (∀ f, f ∈ ls → item f ∈ pend) →
    l ∈ item_lines header ok item ls → item_dest root l = None ∨ l ∈ pend.
  Proof.
    intros Hh Ho Hp [[_ ->]|[_ [->|(f & Hf & ->)]]]%elem_of_item_lines; auto.
  Qed.

Lemma hoare_downloads {A} (item : A → log_line) (body : A → M unit)
      (url : A → list N) (dest : A → list (list N)) (l : list A)
      (pend : list log_line) :
    (∀ x, body x = download_file net (url x) (dest x)) →
    (∀ x, item_dest root (item x) = Some (dest x)) →
    hoare (I (map item l ++ pend)) (for_each l body)
      (λ o w, match o with Ret _ => I pend w | Raise _ => ∃ pend', I pend' w end).
  Proof.
    intros Hb Hd.
    apply (hoare_for_each l _ (λ rest, I (map item rest ++ pend))).
    - intros before x rest _. simpl. rewrite Hb.
      eapply hoare_conseq; [by apply I_download| |]; done.
    - done.
  Qed.

Lemma hoare_analyse_site site_id :
    hoare (I []) (analyse_site root dry_run net site_id)
      (λ o w, match o with Ret _ => I [] w | Raise _ => ∃ pend', I pend' w end).
  Proof.
    intros w HI. rewrite analyse_site_run.
    set (mjs := missing_mjs_of (fs w) root site_id).
    set (idx := missing_indexes_in (fs w) root site_id).
    assert (I (map (LItemMjs site_id) mjs ++ map (LItemIdx site_id) idx)
              (World (fs w) (out w ++ site_report (fs w) root site_id))) as HI1.
    { apply I_logs; [by apply I_site|]. intros l. unfold site_report.
      intros [->%list_elem_of_singleton|[Hl|[Hl|Hl]%elem_of_app]%elem_of_app]%elem_of_app;
        [by left| | |].
      - destruct (is_dir _ _); [by apply elem_of_nil in Hl|].
        apply list_elem_of_singleton in Hl as ->. by left.
      - refine (item_lines_dest LMissMjs LOkMjs (LItemMjs site_id) _ _ _ eq_refl eq_refl _ Hl).
        intros f Hf. apply elem_of_app. left. by apply list_elem_of_fmap_2.
      - refine (item_lines_dest LMissIdx LOkIdx (LItemIdx site_id) _ _ _ eq_refl eq_refl _ Hl).
        intros f Hf. apply elem_of_app. right. by apply list_elem_of_fmap_2. }
    revert HI1. generalize (World (fs w) (out w ++ site_report (fs w) root site_id)).
    clearbody mjs idx. clear HI w. intros w HI1.
    destruct dry_run eqn:Hdry; cbn [negb].
    - by eapply I_dry.
    - revert w HI1.
      change (hoare (I (map (LItemMjs site_id) mjs ++ map (LItemIdx site_id) idx))
        (for_each mjs (fetch_site_file root net site_id);;
         for_each idx (fetch_site_file root net site_id))
        (λ o w, match o with Ret _ => I [] w | Raise _ => ∃ pend', I pend' w end)).
      eapply (hoare_bind _ _ _ (λ _ w, I (map (LItemIdx site_id) idx) w)).
      + by eapply (hoare_downloads (LItemMjs site_id)).
      + intros []. eapply hoare_conseq.
        * by eapply (hoare_downloads (LItemIdx site_id) _ _ _ idx []).
        * intros w. by rewrite app_nil_r.
        * done.
  Qed.

Lemma hoare_main :
    hoare (I []) (main root dry_run net)
      (λ o w, match o with Ret _ => I [] w | Raise _ => ∃ pend', I pend' w end).
  Proof.
    unfold main.
    eapply (hoare_bind _ _ _ (λ _ w, I [] w)).
    { apply hoare_reads. intros w HI. exact HI. }
    intros d. destruct d; cbn [negb].
    2:{ eapply (hoare_bind _ _ _ (λ _ w, I [] w)).
        { apply hoare_log. intros w HI. apply I_log; [exact HI|by left]. }
        intros []. apply hoare_raise. eauto. }
    eapply (hoare_bind _ _ _ (λ _ w, I [] w)).
    { apply hoare_log. intros w HI. apply I_log; [exact HI|by left]. }
    intros []. eapply (hoare_bind _ _ _ (λ _ w, I [] w)).
    { apply hoare_reads. intros w HI. exact HI. }
    intros site_ids. eapply (hoare_bind _ _ _ (λ _ w, I [] w)).
    { intros w HI. destruct (bool_decide _); simpl.
      - apply (I_log [] LWarnNoIds); auto.
      - apply (I_log [] (LInfoIds _)); auto. }
    intros []. eapply (hoare_bind _ _ _ (λ _ w, I [] w)).
    { apply hoare_for_each_inv; [|intros w HI; exact HI].
      intros x _. apply hoare_analyse_site. }
    intros []. eapply (hoare_bind _ _ _ (λ _ w, I [] w)).
    { apply hoare_log. intros w HI. apply I_log; [exact HI|by left]. }
    intros []. eapply (hoare_bind _ _ _ (λ a w, I (map LItemAsset a) w)).
    { apply hoare_reads. intros w HI. exact (I_assets w HI). }
    intros missing_assets. eapply (hoare_bind _ _ _ (λ _ w, I (map LItemAsset missing_assets) w)).
    { intros w HI. rewrite item_lines_run. cbn [fst snd].
      apply I_logs; [exact HI|]. intros l Hl.
      refine (item_lines_dest LMissAssets LOkAssets LItemAsset _ _ _ eq_refl eq_refl _ Hl).
      intros f Hf. by apply list_elem_of_fmap_2. }
    intros []. eapply (hoare_bind _ _ _ (λ _ w, I [] w)).
    { destruct dry_run eqn:Hdry; cbn [negb].
      - apply hoare_ret. intros w HI. by eapply I_dry.
      - eapply hoare_conseq.
        + by eapply (hoare_downloads LItemAsset _ _ _ missing_assets []).
        + intros w. by rewrite app_nil_r.
        + done. }
    intros []. eapply (hoare_bind _ _ _ (λ _ w, I [] w)).
    { apply hoare_log. intros w HI. apply I_log; [exact HI|by left]. }
    intros []. destruct dry_run.
    - apply hoare_log. intros w HI. apply I_log; [exact HI|by left].
    - apply hoare_log. intros w HI. apply I_log; [exact HI|by left].
  Qed.
End Run.

(** ** What a run leaves on disk *)

Lemma grows_absent fs fs' P :
  grows fs fs' → exists_ fs' P = false → exists_ fs P = false.
Proof.
  intros Hg Hn. destruct (exists_ fs P) eqn:E; [|done].
  by rewrite (grows_exists _ _ _ Hg E) in Hn.
Qed.

Lemma item_present_grows root fs fs' line :
  grows fs fs' → item_present root fs line → item_present root fs' line.
Proof.
  unfold item_present. destruct (item_dest root line); [|done].
  apply grows_exists.
Qed.

Lemma item_present_none root fs line :
  item_dest root line = None → item_present root fs line.
Proof. unfold item_present. by intros ->. Qed.

Lemma item_absent_none root fs line :
  item_dest root line = None → item_absent root fs line.
Proof. unfold item_absent. by intros ->. Qed.

Lemma no_errors_app l1 l2 : no_errors (l1 ++ l2) ↔ no_errors l1 ∧ no_errors l2.
Proof. apply Forall_app. Qed.

(** A run whose downloads all succeed leaves every item it reported on
    disk. *)
Lemma main_fetched root net :
  hoare (fetched root []) (main root false net)
    (λ o w, match o with Ret _ => fetched root [] w | Raise _ => True end).
Proof.
  eapply hoare_conseq; [apply (hoare_main root false net (fetched root))|done|].
  - intros pend l w HI Hl Hne line Hin. cbn [fs out] in *.
    apply no_errors_app in Hne as [Hne _].
    apply elem_of_app in Hin as [Hin| ->%list_elem_of_singleton]; [by apply HI|].
    destruct Hl as [Hl|Hl]; [left; by apply item_present_none|by right].
  - intros w site_id HI Hne line Hin. destruct (HI Hne line Hin) as [?|[]%elem_of_nil].
    by left.
  - intros w HI Hne line Hin. destruct (HI Hne line Hin) as [?|[]%elem_of_nil].
    by left.
  - intros pend line url dest Hdest w HI.
    destruct (download_file net url dest w) as [o w'] eqn:Hrun. cbn [fst snd].
    apply download_file_effect in Hrun as (Hg & l & Hout & Hl & Hok).
    assert (∀ line', line' ∈ l → item_present root (fs w') line') as Hnew.
    { intros line' Hin. apply item_present_none, is_item_dest.
      rewrite Forall_forall in Hl. by apply Hl. }
    destruct o as [[]|e].
    + intros Hne line' Hin. rewrite Hout in Hne, Hin.
      apply no_errors_app in Hne as [Hne1 Hne2].
      apply elem_of_app in Hin as [Hin|Hin]; [|left; by apply Hnew].
      destruct (HI Hne1 line' Hin) as [Hp|[->|Hp]%elem_of_cons].
      * left. by eapply item_present_grows.
      * left. unfold item_present. rewrite Hdest. by apply Hok.
      * by right.
    + exists (line :: pend). intros Hne line' Hin. rewrite Hout in Hne, Hin.
      apply no_errors_app in Hne as [Hne1 Hne2].
      apply elem_of_app in Hin as [Hin|Hin]; [|left; by apply Hnew].
      destruct (HI Hne1 line' Hin) as [Hp|Hp]; [|by right].
      left. by eapply item_present_grows.
  - done.
  - by intros [[]|e] w.
Qed.

(** Whatever a run prints about a missing item, the item was not on disk
    when the run started. *)
Lemma main_unfetched root dry_run net fs1 :
  hoare (unfetched root fs1 []) (main root dry_run net)
    (λ _ w, ∀ line, line ∈ out w → item_absent root fs1 line).
Proof.
  eapply hoare_conseq; [apply (hoare_main root dry_run net (unfetched root fs1))|done|].
  - intros pend l w (Hg & Hout & Hpend) Hl. split_and!; [done| |done].
    cbn [out]. intros line [Hin| ->%list_elem_of_singleton]%elem_of_app; [by apply Hout|].
    destruct Hl as [Hl|Hl]; [by apply item_absent_none|by apply Hpend].
  - intros w site_id (Hg & Hout & _). split_and!; [done..|].
    intros line [(f & -> & Hf)%list_elem_of_fmap|(f & -> & Hf)%list_elem_of_fmap]%elem_of_app;
      unfold item_absent, item_dest; apply (grows_absent _ _ _ Hg).
    + unfold missing_mjs_of in Hf. destruct (is_dir _ _); [|by apply elem_of_nil in Hf].
      apply elem_of_sorted, elem_of_missing_mjs_in in Hf as (? & ? & _ & _ & _ & Hf).
      exact Hf.
    + by apply elem_of_missing_indexes_in in Hf as [_ Hf].
  - intros w (Hg & Hout & _). split_and!; [done..|].
    intros line (f & -> & Hf)%list_elem_of_fmap.
    unfold item_absent, item_dest. apply (grows_absent _ _ _ Hg).
    by apply elem_of_missing_assets_in in Hf as (_ & Hf & _).
  - intros pend line url dest Hdest w (Hg & Hout & Hpend).
    destruct (download_file net url dest w) as [o w'] eqn:Hrun. cbn [fst snd].
    apply download_file_effect in Hrun as (Hg' & l & Hout' & Hl & _).
    assert (unfetched root fs1 pend w') as HU.
    { split_and!.
      - by eapply grows_trans.
      - rewrite Hout'. intros line' [Hin|Hin]%elem_of_app; [by apply Hout|].
        apply item_absent_none, is_item_dest.
        rewrite Forall_forall in Hl. by apply Hl.
      - intros line' Hin. apply Hpend. by right. }
    destruct o as [[]|e]; eauto.
  - intros _ pend w (Hg & Hout & _). split_and!; [done..|].
    by intros line []%elem_of_nil.
  - intros [[]|e] w; [by intros (_ & H & _)|by intros (pend & _ & H & _)].
Qed.

(** ** The pattern of static imports *)

Lemma cls_unquoted_quote c : cls_unquoted c = negb (cls_quote c).
Proof. reflexivity. Qed.

Lemma cls_space_unquoted c : cls_space c = true → cls_unquoted c = true.
Proof.
  intros H. unfold cls_unquoted.
  destruct (N.eqb_spec c DQUOTE) as [->|]; [by vm_compute in H|].
  destruct (N.eqb_spec c SQUOTE) as [->|]; [by vm_compute in H|]. done.
Qed.

(** The first quote of a text is where it is. *)
Lemma first_quote_unique (l1 l2 r1 r2 : list N) q1 q2 :
  forallb cls_unquoted l1 = true → forallb cls_unquoted l2 = true →
  cls_quote q1 = true → cls_quote q2 = true →
  l1 ++ q1 :: r1 = l2 ++ q2 :: r2 → l1 = l2 ∧ q1 = q2 ∧ r1 = r2.
Proof.
  revert l2. induction l1 as [|c l1 IH]; intros [|d l2]; simpl;
    rewrite ?andb_true_iff, ?cls_unquoted_quote, ?negb_true_iff.
  - intros _ _ _ _ [= -> ->]. done.
  - intros _ [Hd _] Hq _ [= -> _]. congruence.
  - intros [Hc _] _ _ Hq [= -> _]. congruence.
  - intros [_ H1] [_ H2] Hq1 Hq2 [= -> E].
    destruct (IH l2 H1 H2 Hq1 Hq2 E) as (-> & -> & ->). done.
Qed.

Lemma first_quote_split (l : list N) :
  forallb cls_unquoted l = true ∨
  ∃ l1 q l2, l = l1 ++ q :: l2 ∧ forallb cls_unquoted l1 = true ∧ cls_quote q = true.
Proof.
  induction l as [|c l [IH|(l1 & q & l2 & -> & H1 & Hq)]]; simpl.
  - by left.
  - destruct (cls_quote c) eqn:Hc.
    + right. by exists [], c, l.
    + left. by rewrite cls_unquoted_quote, Hc.
  - destruct (cls_quote c) eqn:Hc.
    + right. by exists [], c, (l1 ++ q :: l2).
    + right. exists (c :: l1), q, l2. simpl. by rewrite cls_unquoted_quote, Hc.
Qed.

(** What a match of the pattern looks like. *)
Lemma static_import_region s g n :
  match_at static_import s = Some (g, n) →
  ∃ ws q1 X q2 s',
    s = (cps "from" ++ ws) ++ q1 :: (cps "./" ++ X ++ cps ".mjs") ++ q2 :: s' ∧
    n = length ((cps "from" ++ ws) ++ q1 :: (cps "./" ++ X ++ cps ".mjs") ++ [q2]) ∧
    g = X ++ cps ".mjs" ∧
    ws ≠ [] ∧ forallb cls_space ws = true ∧ cls_quote q1 = true ∧
    X ≠ [] ∧ forallb cls_unquoted X = true ∧ cls_quote q2 = true.
Proof.
  intros (w1 & w3 & s' & -> & Hn & H1 & H2 & H3)%match_at_region.
  destruct H1 as (u & v & -> & ->%lang_lit & (ws & v2 & -> & [Hws1 Hws2] &
                   (u3 & v3 & -> & (q1 & -> & Hq1) & ->%lang_lit))).
  destruct H2 as (X & v4 & -> & [HX1 HX2] & ->%lang_lit).
  destruct H3 as (q2 & -> & Hq2).
  exists ws, q1, X, q2, s'. split_and!; try done.
  - by rewrite <- !app_assoc.
  - rewrite <- Hn. f_equal. by rewrite <- !app_assoc.
Qed.

(** The match at a static import. *)
Lemma static_import_match stem after :
  stem ≠ [] → forallb cls_unquoted stem = true →
  ∃ n, match_at static_import
         (cps "from " ++ DQUOTE :: cps "./" ++ (stem ++ cps ".mjs")
            ++ DQUOTE :: after)
       = Some (stem ++ cps ".mjs", n).
Proof.
  intros Hs Hu.
  set (s := cps "from " ++ DQUOTE :: cps "./" ++ (stem ++ cps ".mjs") ++ DQUOTE :: after).
  assert (is_Some (match_at static_import s)) as [[g n] Hm].
  { unfold match_at, static_import, pre, grp, post. cbn [mt].
    unfold s. change (cps "from ") with (cps "from" ++ [32]).
    rewrite <- !app_assoc. rewrite mt_lit.
    apply (plus_complete cls_space [32]); [done|done|].
    cbn [app mt]. change (cls_quote DQUOTE) with true. cbn match.
    rewrite mt_lit.
    apply (plus_complete cls_unquoted stem); [done|done|].
    rewrite mt_lit. cbn [mt]. change (cls_quote DQUOTE) with true. cbn match.
    eauto. }
  exists n. rewrite Hm. do 2 f_equal.
  apply static_import_region in Hm
    as (ws & q1 & X & q2 & s' & E & _ & -> & _ & Hws & Hq1 & _ & HX & Hq2).
  unfold s in E. change (cps "from ") with (cps "from" ++ [32]) in E.
  apply first_quote_unique in E as (_ & _ & E); try done.
  - rewrite (app_assoc (cps "./") (stem ++ cps ".mjs")) in E.
    apply first_quote_unique in E as (E & _ & _); try done.
    + by apply app_inv_head in E.
    + by rewrite !forallb_app, Hu.
    + by rewrite !forallb_app, HX.
  - rewrite forallb_app. simpl. by rewrite (forallb_impl _ _ _ cls_space_unquoted Hws).
Qed.

(** No earlier match runs across a static import. *)
Lemma static_import_free b rest h m :
  b ≠ [] →
  match_at static_import (b ++ cps "from " ++ DQUOTE :: rest) = Some (h, m) →
  (m ≤ length b)%nat.
Proof.
  intros Hb (ws & q1 & X & q2 & s' & E & -> & _ & _ & Hws & Hq1 & _ & HX & Hq2)%static_import_region.
  set (L1 := cps "from" ++ ws) in *. set (M := cps "./" ++ X ++ cps ".mjs") in *.
  assert (forallb cls_unquoted L1 = true) as HL1.
  { unfold L1. rewrite forallb_app.
    by rewrite (forallb_impl _ _ _ cls_space_unquoted Hws). }
  assert (forallb cls_unquoted M = true) as HM.
  { unfold M. by rewrite !forallb_app, HX. }
  replace (L1 ++ q1 :: M ++ q2 :: s') with ((L1 ++ q1 :: M ++ [q2]) ++ s') in E
    by (by rewrite <- !app_assoc, <- app_comm_cons, <- app_assoc).
  apply app_eq_inv in E as [(k & Hk & _)|(k & HR & HO)].
  { rewrite Hk, (length_app _ k). lia. }
  destruct (decide (k = [])) as [->|Hk]; [rewrite app_nil_r in HR; rewrite HR; lia|].
  exfalso.
  change (cps "from " ++ DQUOTE :: rest) with ((cps "from " ++ [DQUOTE]) ++ rest) in HO.
  symmetry in HO.
  apply app_eq_inv in HO as [(k' & -> & _)|(k' & Hlit & _)].
  - (* the match covers the opening quote of the import *)
    rewrite <- app_assoc in HR. cbn [app] in HR.
    destruct (first_quote_split b) as [Hbu|(b1 & q & b2 & -> & Hb1 & Hq)].
    + rewrite (app_assoc b) in HR.
      apply first_quote_unique in HR as (HR & _ & _); try done.
      2:{ by rewrite forallb_app, Hbu. }
      unfold L1 in HR. destruct b as [|c b']; [done|].
      injection HR as _ HR.
      assert (cps "rom" ++ ws = b' ++ cps "from ") as HR' by exact HR.
      assert (102 ∈ cps "rom" ++ ws) as [Hin|Hin]%elem_of_app.
      { rewrite HR'. apply elem_of_app. right. by left. }
      * by repeat (apply elem_of_cons in Hin as [Hin|Hin]; [done|]);
          apply elem_of_nil in Hin.
      * rewrite forallb_forall in Hws. apply list_elem_of_In, Hws in Hin.
        by vm_compute in Hin.
    + rewrite <- app_assoc in HR. cbn [app] in HR.
      apply first_quote_unique in HR as (_ & _ & HR); try done.
      destruct (first_quote_split b2) as [Hbu|(b3 & q' & b4 & -> & Hb3 & Hq')].
      * rewrite (app_assoc b2) in HR.
        apply first_quote_unique in HR as (HR & _ & _); try done.
        2:{ by rewrite forallb_app, Hbu. }
        unfold M in HR.
        change (cps ".mjs") with (cps ".mj" ++ [115]) in HR.
        change (cps "from ") with (cps "from" ++ [32]) in HR.
        rewrite !app_assoc in HR. by apply app_inj_tail in HR as [_ ?].
      * rewrite <- app_assoc in HR. cbn [app] in HR.
        apply first_quote_unique in HR as (_ & _ & HR); try done.
        apply (f_equal length) in HR. rewrite !length_app in HR. simpl in HR. lia.
  - (* the match would end inside [from ] *)
    assert (forallb cls_unquoted k = true ∨ k = cps "from " ++ [DQUOTE]) as [Hku| ->].
    { destruct k' as [|x k' _] using rev_ind.
      - right. by rewrite app_nil_r in Hlit.
      - left. rewrite app_assoc in Hlit. apply app_inj_tail in Hlit as [Hlit _].
        apply (f_equal (forallb cls_unquoted)) in Hlit.
        rewrite forallb_app in Hlit.
        change (forallb cls_unquoted (cps "from ")) with true in Hlit.
        symmetry in Hlit. by apply andb_true_iff in Hlit as [? _]. }
    + destruct k as [|x k _] using rev_ind; [done|].
      rewrite app_comm_cons, !app_assoc in HR.
      apply app_inj_tail in HR as [_ <-].
      rewrite forallb_app in Hku. simpl in Hku.
      rewrite cls_unquoted_quote, Hq2 in Hku. by rewrite andb_false_r in Hku.
    + (* it ends at the opening quote: it would end in ".mjs", not "rom " *)
      rewrite app_comm_cons, !app_assoc in HR.
      apply app_inj_tail in HR as [HR _].
      rewrite <- ?app_assoc in HR. unfold M in HR.
      change (cps ".mjs") with (cps ".mj" ++ [115]) in HR.
      change (cps "from ") with (cps "from" ++ [32]) in HR.
      rewrite app_comm_cons, !app_assoc in HR. by apply app_inj_tail in HR as [_ ?].
Qed.

(** A static import [from Q./<stem>.mjsQ] is found wherever it stands in
    the text. *)
Lemma findall_static_import before stem after :
  stem ≠ [] → forallb cls_unquoted stem = true →
  stem ++ cps ".mjs" ∈ findall static_import
    (before ++ cps "from " ++ DQUOTE :: cps "./" ++ (stem ++ cps ".mjs")
       ++ DQUOTE :: after).
Proof.
  intros Hs Hu. unfold findall.
  edestruct (findall_from_reach static_import before) as [l ->].
  { apply Nat.le_0_l. }
  { intros a b h m _ Hb Hm. exact (static_import_free _ _ _ _ Hb Hm). }
  apply elem_of_app. right.
  destruct (static_import_match stem after Hs Hu) as [n Hn].
  exact (findall_from_match _ _ _ _ Hn).
Qed.

(** ** The model at work *)

Example findall_url_ex :
  findall pattern_url (cps "x https://framerusercontent.com/sites/ab-1/p.html y")
  = [cps "ab-1"].
Proof. vm_compute. reflexivity. Qed.

(** The greedy class takes the longest name that still ends in an
    extension; [?] is greedy too. *)
Example findall_asset_ex :
  findall asset_pattern
    (cps "u(https://framerusercontent.com/assets/a.b.jpeg?x) https://framerusercontent.com/assets/f.woff2")
  = [cps "a.b.jpeg"; cps "f.woff2"].
Proof. vm_compute. reflexivity. Qed.

(** Matches do not overlap: the scan resumes after the end of a match. *)
Example findall_local_ex :
  findall pattern_local (quoted (cps "sites/a/searchIndex-1.json") ++ cps " "
                         ++ quoted (cps "sites/b/searchIndex-2.json"))
  = [cps "a"; cps "b"].
Proof. vm_compute. reflexivity. Qed.

Example findall_dyn_import_ex :
  findall dyn_import (cps "await import( " ++ quoted (cps "./chunk-1.mjs") ++ cps " )")
  = [cps "chunk-1.mjs"].
Proof. vm_compute. reflexivity. Qed.

(** An import without [from] is not a static import for the pattern. *)
Example findall_bare_import_ex :
  findall static_import (cps "import " ++ quoted (cps "./side.mjs")) = [].
Proof. vm_compute. reflexivity. Qed.

Example suffix_ex :
  lower (suffix [cps "srv"; cps "Page.HTML"]) = cps ".html" ∧
  suffix [cps "srv"; cps ".html"] = [] ∧
  suffix [cps "srv"; cps "a.tar.json"] = cps ".json".
Proof. vm_compute. auto. Qed.

Example joinpath_ex :
  [cps "srv"] // cps "a/./b//c/" = [cps "srv"; cps "a"; cps "b"; cps "c"] ∧
  [cps "srv"] // cps "../x" = [cps "srv"; cps ".."; cps "x"] ∧
  [cps "srv"] // cps "/etc/x" = [cps "etc"; cps "x"].
Proof. vm_compute. auto. Qed.

(** [..] is resolved through the directory it follows. *)
Example exists_ex :
  exists_ fs_modules (ex_root ++ [cps "sites"; cps ".."; cps "index.html"]) = true ∧
  exists_ fs_modules (ex_root ++ [cps "nowhere"; cps ".."; cps "index.html"]) = false.
Proof. vm_compute. auto. Qed.

Example sorted_ex :
  sorted {[cps "b"; cps "a"; cps "B"; cps "ab"]} = [cps "B"; cps "a"; cps "ab"; cps "b"].
Proof. vm_compute. reflexivity. Qed.

(** Decoding: a two-byte and a three-byte sequence; a byte that starts
    nothing, a sequence broken by its second byte and a sequence cut by the
    end of the data are dropped; line ends become line feeds. *)
Example decode_ex :
  decode [195; 169; 32; 226; 130; 172] = [233; 32; 8364] ∧
  decode [97; 255; 98; 226; 40; 99; 226; 130] = [97; 98; 40; 99] ∧
  decode [97; 13; 10; 98; 13; 99] = [97; 10; 98; 10; 99].
Proof. repeat split; vm_compute; reflexivity. Qed.

(** Bytes below 128 other than the carriage return are read as they are. *)
Lemma decode_plain s :
  forallb (λ c, (c <? 128) && negb (c =? 13)) s = true → decode s = s.
Proof.
  unfold decode. induction s as [|c s IH]; [done|].
  cbn [forallb utf8_decode]. intros [[Hc Hr]%andb_true_iff Hs]%andb_true_iff.
  rewrite Hc. cbn [universal_newlines].
  apply negb_true_iff in Hr. rewrite Hr. f_equal. by apply IH.
Qed.

(** What Linux refuses: a name of 256 bytes inside a directory that
    exists, but no name inside a directory that does not. *)
Example enametoolong_ex :
  enametoolong fs_long_id (ex_root ++ [cps "sites"; long_id]) = true ∧
  enametoolong fs_no_site_dir (ex_root ++ [cps "sites"; long_id]) = false ∧
  enametoolong fs_long_id (ex_root ++ [cps "sites"; cps "abc123"]) = false.
Proof. repeat split; vm_compute; reflexivity. Qed.
(** ** Detection with calls that can raise *)

Section RefusalFacts.
Variable refused : gmap (list (list N)) node → list (list N) → bool.

Lemma exists_os_answered P w :
  refused (fs w) P = false → exists_os refused P w = (Ret (exists_ (fs w) P), w).
Proof. unfold exists_os. by intros ->. Qed.

Lemma exists_os_refused P w :
  refused (fs w) P = true → exists_os refused P w = (Raise OSError, w).
Proof. unfold exists_os. by intros ->. Qed.

Lemma is_dir_os_answered P w :
  refused (fs w) P = false → is_dir_os refused P w = (Ret (is_dir (fs w) P), w).
Proof. unfold is_dir_os. by intros ->. Qed.

(** A loop that only queries the tree and is refused nothing filters its
    list. *)
Lemma fold_m_filter {A} (body : list A → A → M (list A)) (keep : A → bool)
    (l acc : list A) w :
  (∀ acc x, x ∈ l → body acc x w = (Ret (if keep x then acc ++ [x] else acc), w)) →
  fold_m body l acc w = (Ret (acc ++ filter (λ x, keep x = true) l), w).
Proof.
  revert acc. induction l as [|x l IH]; intros acc Hbody; simpl.
  - by rewrite app_nil_r.
  - rewrite bind_run, Hbody by (by left).
    rewrite IH by (intros; apply Hbody; by right).
    rewrite filter_cons. destruct (keep x) eqn:Hk.
    + rewrite decide_True by done. by rewrite <- app_assoc.
    + by rewrite decide_False by done.
Qed.

(** The one refusal of a loop ends it, with the world as it was. *)
Lemma fold_m_raise {A B} (body : B → A → M B) (l : list A) acc w x :
  x ∈ l →
  (∀ acc y, y ∈ l → body acc y w = (Raise OSError, w) ∨ ∃ b, body acc y w = (Ret b, w)) →
  (∀ acc, body acc x w = (Raise OSError, w)) →
  fold_m body l acc w = (Raise OSError, w).
Proof.
  revert acc. induction l as [|y l IH]; intros acc Hx Hbody Hraise.
  - by apply elem_of_nil in Hx.
  - simpl. rewrite bind_run.
    apply elem_of_cons in Hx as [<-|Hx]; [by rewrite Hraise|].
    destruct (Hbody acc y ltac:(by left)) as [->|[b ->]]; [done|].
    apply IH; [done| |done]. intros; apply Hbody; by right.
Qed.


Lemma find_missing_assets_os_answered root w :
  (∀ name, name ∈ asset_names_in (fs w) root →
     refused (fs w) (root // cps "assets" // name) = false ∧
     refused (fs w) (root // cps "images" // name) = false) →
  find_missing_assets_os refused root w = (Ret (missing_assets_in (fs w) root), w).
Proof.
  intros Hans. unfold find_missing_assets_os, missing_assets_in.
  rewrite bind_run. unfold reads at 1. cbn [fs].
  rewrite (fold_m_filter _
             (λ name, negb (exists_ (fs w) (root // cps "assets" // name))
                      && negb (exists_ (fs w) (root // cps "images" // name)))).
  - done.
  - intros acc name Hn%elem_of_sorted. destruct (Hans name Hn) as [Ha Hi].
    rewrite bind_run, exists_os_answered by done.
    rewrite bind_run, exists_os_answered by done. done.
Qed.

Lemma find_missing_assets_os_refused root w name :
  name ∈ asset_names_in (fs w) root →
  refused (fs w) (root // cps "assets" // name)
  || refused (fs w) (root // cps "images" // name) = true →
  find_missing_assets_os refused root w = (Raise OSError, w).
Proof.
  intros Hn Hr. unfold find_missing_assets_os.
  rewrite bind_run. unfold reads at 1. cbn [fs].
  apply (fold_m_raise _ _ _ _ name).
  - by apply elem_of_sorted.
  - intros acc y _. rewrite !bind_run. unfold exists_os.
    destruct (refused (fs w) (root // cps "assets" // y)); [by left|].
    rewrite !bind_run.
    destruct (refused (fs w) (root // cps "images" // y)); [by left|].
    right. eauto.
  - intros acc. rewrite bind_run. unfold exists_os.
    apply orb_true_iff in Hr as [Hr|Hr]; [by rewrite Hr|].
    destruct (refused (fs w) (root // cps "assets" // name)); [done|].
    by rewrite bind_run, Hr.
Qed.

Lemma add_absent_os_answered site_dir missing l w :
  (∀ rel, rel ∈ l → refused (fs w) (site_dir // rel) = false) →
  add_absent_os refused site_dir missing l w
  = (Ret (add_absent (fs w) site_dir missing l), w).
Proof.
  unfold add_absent_os, add_absent. revert missing.
  induction l as [|rel l IH]; intros missing Hans; simpl; [done|].
  rewrite bind_run, bind_run, exists_os_answered by (apply Hans; by left).
  apply IH. intros; apply Hans; by right.
Qed.

(** When the operating system answers every call, detection is what the
    functions without the suffix compute. *)
Lemma find_missing_mjs_for_site_os_answered root site_id w :
  (∀ P, refused (fs w) P = false) →
  find_missing_mjs_for_site_os refused root site_id w
  = find_missing_mjs_for_site root site_id w.
Proof.
  intros Hans. unfold find_missing_mjs_for_site_os, find_missing_mjs_for_site.
  rewrite !bind_run. rewrite is_dir_os_answered by done. unfold reads at 3. cbn [fs].
  destruct (is_dir (fs w) (root // cps "sites" // site_id)); cbn [negb]; [|done].
  rewrite bind_run. unfold reads at 1. cbn [fs].
  unfold reads at 2, missing_mjs_in. cbn [fs].
  generalize (glob_mjs (fs w) (root // cps "sites" // site_id)).
  generalize (∅ : gset (list N)). intros acc l. rewrite bind_run.
  enough (∀ acc,
    fold_m (λ missing mjs,
              text ← reads (λ fs, read_text fs mjs);
              match text with
              | None => mret missing
              | Some text =>
                  missing ← add_absent_os refused (root // cps "sites" // site_id)
                              missing (findall dyn_import text);
                  add_absent_os refused (root // cps "sites" // site_id) missing
                    (findall static_import text)
              end) l acc w
    = (Ret (foldl (λ missing mjs,
                     match read_text (fs w) mjs with
                     | None => missing
                     | Some text =>
                         add_absent (fs w) (root // cps "sites" // site_id)
                           (add_absent (fs w) (root // cps "sites" // site_id) missing
                              (findall dyn_import text))
                           (findall static_import text)
                     end) acc l), w)) as -> by done.
  induction l as [|mjs l IH]; intros acc'; simpl; [done|].
  rewrite bind_run, bind_run. unfold reads at 1. cbn [fs].
  destruct (read_text (fs w) mjs) as [text|]; [|apply IH].
  rewrite bind_run, add_absent_os_answered by auto.
  rewrite add_absent_os_answered by auto. apply IH.
Qed.
End RefusalFacts.

(** Linux does not refuse a path for its length when no component has more
    than 255 bytes and the whole path less than 4096. *)
Lemma long_name_from_short fs cur P :
  Forall (λ c, fs_bytes c ≤ NAME_MAX) P → long_name_from fs cur P = false.
Proof.
  revert cur. induction P as [|c P IH]; intros cur HP; [done|].
  apply Forall_cons in HP as [Hc HP]. cbn [long_name_from].
  destruct (is_dir_at fs cur); [|done]. cbn [andb].
  case_bool_decide; [by apply IH|].
  destruct (N.ltb_spec NAME_MAX (fs_bytes c)) as [|_]; [lia|]. cbn [orb].
  destruct (node_at fs (cur ++ [c])); [by apply IH|done].
Qed.

Lemma enametoolong_short fs P :
  Forall (λ c, fs_bytes c ≤ NAME_MAX) P → path_bytes P < PATH_MAX →
  enametoolong fs P = false.
Proof.
  intros HP Hlen. unfold enametoolong.
  rewrite long_name_from_short by done.
  destruct (N.leb_spec PATH_MAX (path_bytes P)) as [|_]; [lia|].
  by rewrite andb_false_r.
Qed.

(** A word of the identifier class takes one byte for each character. *)
Lemma fs_bytes_word id : forallb cls_word id = true → fs_bytes id = N.of_nat (length id).
Proof.
  induction id as [|c id IH]; [done|].
  cbn [forallb fs_bytes foldr length]. intros [Hc Hid]%andb_true_iff.
  fold (fs_bytes id). rewrite IH by done.
  assert ((c <? 128) = true) as Hlt.
  { unfold cls_word, in_range in Hc. apply N.ltb_lt.
    repeat (apply orb_true_iff in Hc as [Hc|Hc]);
      try (apply andb_true_iff in Hc as [_ Hc%N.leb_le]; lia);
      apply N.eqb_eq in Hc; lia. }
  unfold char_bytes. rewrite Hlt. lia.
Qed.

(** * More about the model *)

(** ** The files a scan reads *)

Lemma strip_prefix_spec (q k rel : list (list N)) :
  strip_prefix q k = Some rel ↔ k = q ++ rel.
Proof.
  revert k. induction q as [|a q IH]; intros [|b k]; simpl.
  - split; [by intros [= <-]|by intros <-].
  - split; [by intros [= <-]|by intros <-].
  - split; [done|by destruct rel].
  - case_bool_decide as E.
    + subst b. rewrite IH. split; [by intros ->|by intros [= ->]].
    + split; [done|]. intros [= ? _]. done.
Qed.

Lemma valid_name_not_dotdot n : valid_name n = true → n ≠ DOTDOT.
Proof.
  unfold valid_name. rewrite !andb_true_iff, !negb_true_iff, !bool_decide_eq_false.
  tauto.
Qed.

(** Below a directory, an entry reached through directories with ordinary
    names is where its components say. *)
Lemma descends_walk fs q rel :
  descends fs q rel = true → (rel ≠ [] → is_Some (fs !! (q ++ rel))) →
  walk fs q rel = Some (q ++ rel).
Proof.
  revert q. induction rel as [|n rel IH]; intros q; simpl.
  - by rewrite app_nil_r.
  - rewrite !andb_true_iff. intros [[Hd Hv] Hrest] Hsome.
    rewrite Hd, bool_decide_eq_false_2 by by apply valid_name_not_dotdot.
    rewrite node_at_snoc.
    assert (is_Some (fs !! (q ++ [n]))) as [x Hx].
    { destruct rel as [|n' rel'].
      - by apply Hsome.
      - simpl in Hrest. rewrite !andb_true_iff in Hrest.
        destruct Hrest as [[Hd' _] _]. unfold is_dir_at in Hd'.
        apply bool_decide_eq_true in Hd'. rewrite node_at_snoc in Hd'. eauto. }
    rewrite Hx, (cons_middle n q rel), app_assoc. apply IH; [done|].
    intros Hne. rewrite <- app_assoc. apply Hsome. done.
Qed.

Lemma elem_of_rglob fs P (p : list (list N)) :
  p ∈ rglob fs P ↔
  ∃ q rel, walk fs [] P = Some q ∧ p = P ++ rel ∧ rel ≠ [] ∧
           descends fs q rel = true ∧ is_Some (fs !! (q ++ rel)).
Proof.
  unfold rglob. destruct (walk fs [] P) as [q|]; [|split; [by intros ?%elem_of_nil|by intros (? & ? & ? & _)]].
  rewrite list_elem_of_omap. split.
  - intros (k & Hk & Hp). apply elem_of_elements, elem_of_dom in Hk.
    destruct (strip_prefix q k) as [rel|] eqn:Hrel; [|done]. simpl in Hp.
    apply strip_prefix_spec in Hrel as ->.
    destruct (negb (bool_decide (rel = [])) && descends fs q rel) eqn:E; [|done].
    apply andb_true_iff in E as [E1 E2].
    apply negb_true_iff, bool_decide_eq_false in E1.
    injection Hp as <-. by exists q, rel.
  - intros (q' & rel & [= <-] & -> & Hne & Hd & Hsome).
    exists (q ++ rel). split; [by apply elem_of_elements, elem_of_dom|].
    rewrite (proj2 (strip_prefix_spec q (q ++ rel) rel) eq_refl). simpl.
    by rewrite Hd, bool_decide_eq_false_2.
Qed.

Lemma stat_below fs P q rel :
  walk fs [] P = Some q → rel ≠ [] → descends fs q rel = true →
  is_Some (fs !! (q ++ rel)) → stat fs (P ++ rel) = fs !! (q ++ rel).
Proof.
  intros Hq Hne Hd Hsome. unfold stat. rewrite walk_app, Hq. simpl.
  rewrite descends_walk by done. simpl.
  destruct (q ++ rel) eqn:E; [|done]. by apply app_eq_nil in E as [_ ?].
Qed.

Lemma name_app (P rel : list (list N)) : rel ≠ [] → name (P ++ rel) = name rel.
Proof.
  intros Hne. unfold name. destruct rel as [|x rel _] using rev_ind; [done|].
  by rewrite app_assoc, !List.last_last.
Qed.

Lemma suffix_app (P rel : list (list N)) : rel ≠ [] → suffix (P ++ rel) = suffix rel.
Proof. intros Hne. unfold suffix. by rewrite name_app. Qed.

Lemma elem_of_glob_mjs fs P (p : list (list N)) :
  p ∈ glob_mjs fs P ↔
  ∃ q n, walk fs [] P = Some q ∧ p = P ++ [n] ∧ is_dir_at fs q = true ∧
         valid_name n = true ∧ endswith (cps ".mjs") n = true ∧
         is_Some (fs !! (q ++ [n])).
Proof.
  unfold glob_mjs. destruct (walk fs [] P) as [q|]; [|split; [by intros ?%elem_of_nil|by intros (? & ? & ? & _)]].
  rewrite list_elem_of_omap. split.
  - intros (k & Hk & Hp). apply elem_of_elements, elem_of_dom in Hk.
    destruct (strip_prefix q k) as [rel|] eqn:Hrel; [|done].
    cbn [mbind option_bind] in Hp.
    apply strip_prefix_spec in Hrel as ->.
    destruct rel as [|n [|? ?]]; try done.
    destruct (descends fs q [n] && endswith (cps ".mjs") n) eqn:E; [|done].
    injection Hp as <-. apply andb_true_iff in E as [E1 E2].
    cbn [descends] in E1. rewrite andb_true_r in E1.
    apply andb_true_iff in E1 as [E1 E3].
    by exists q, n.
  - intros (q' & n & [= <-] & -> & Hd & Hv & He & Hsome).
    exists (q ++ [n]). split; [by apply elem_of_elements, elem_of_dom|].
    rewrite (proj2 (strip_prefix_spec q (q ++ [n]) [n]) eq_refl).
    cbn [mbind option_bind descends]. by rewrite Hd, Hv, He.
Qed.

Lemma read_text_child fs P q n :
  walk fs [] P = Some q → is_dir_at fs q = true → valid_name n = true →
  is_Some (fs !! (q ++ [n])) →
  read_text fs (P ++ [n]) = match fs !! (q ++ [n]) with
                            | Some (File t) => t
                            | _ => None
                            end.
Proof.
  intros Hq Hd Hv Hsome. unfold read_text.
  rewrite (stat_below fs P q [n]); [done|done|done| |done].
  cbn [descends]. by rewrite Hd, Hv.
Qed.

(** ** The pattern of dynamic imports *)

(** What a match of the pattern looks like. *)
Lemma dyn_import_region s g n :
  match_at dyn_import s = Some (g, n) →
  ∃ ws1 q1 X q2 ws2 s',
    s = (cps "import(" ++ ws1) ++ q1 :: (cps "./" ++ X ++ cps ".mjs")
          ++ q2 :: (ws2 ++ cps ")") ++ s' ∧
    n = length ((cps "import(" ++ ws1) ++ q1 :: (cps "./" ++ X ++ cps ".mjs")
                  ++ q2 :: (ws2 ++ cps ")")) ∧
    g = X ++ cps ".mjs" ∧
    forallb cls_space ws1 = true ∧ cls_quote q1 = true ∧
    X ≠ [] ∧ forallb cls_unquoted X = true ∧ cls_quote q2 = true ∧
    forallb cls_space ws2 = true.
Proof.
  intros (w1 & w3 & s' & -> & Hn & H1 & H2 & H3)%match_at_region.
  destruct H1 as (u & v & -> & ->%lang_lit & (ws1 & v2 & -> & Hws1 &
                   (u3 & v3 & -> & (q1 & -> & Hq1) & ->%lang_lit))).
  destruct H2 as (X & v4 & -> & [HX1 HX2] & ->%lang_lit).
  destruct H3 as (u5 & v5 & -> & (q2 & -> & Hq2) &
                   (ws2 & v6 & -> & Hws2 & ->%lang_lit)).
  exists ws1, q1, X, q2, ws2, s'. split_and!; try done.
  - by rewrite <- !app_assoc.
  - rewrite <- Hn. f_equal. by rewrite <- !app_assoc.
Qed.

(** The match at a dynamic import. *)
Lemma dyn_import_match ws1 q1 stem q2 ws2 after :
  forallb cls_space ws1 = true → cls_quote q1 = true →
  stem ≠ [] → forallb cls_unquoted stem = true →
  cls_quote q2 = true → forallb cls_space ws2 = true →
  ∃ n, match_at dyn_import
         (cps "import(" ++ ws1 ++ q1 :: cps "./" ++ (stem ++ cps ".mjs")
            ++ q2 :: ws2 ++ cps ")" ++ after)
       = Some (stem ++ cps ".mjs", n).
Proof.
  intros Hws1 Hq1 Hs Hu Hq2 Hws2.
  set (s := cps "import(" ++ ws1 ++ q1 :: cps "./" ++ (stem ++ cps ".mjs")
              ++ q2 :: ws2 ++ cps ")" ++ after).
  assert (is_Some (match_at dyn_import s)) as [[g n] Hm].
  { unfold match_at, dyn_import, pre, grp, post. cbn [mt].
    unfold s. rewrite mt_lit.
    apply (star_complete cls_space ws1); [done|].
    rewrite Hq1. rewrite mt_lit. rewrite <- app_assoc.
    apply (plus_complete cls_unquoted stem); [done|done|].
    rewrite mt_lit. rewrite Hq2.
    apply (star_complete cls_space ws2); [done|].
    rewrite mt_lit. eauto. }
  exists n. rewrite Hm. do 2 f_equal.
  apply dyn_import_region in Hm
    as (ws1' & q1' & X & q2' & ws2' & s' & E & _ & -> & Hws1' & Hq1' & _ & HX & Hq2' & _).
  unfold s in E. rewrite (app_assoc (cps "import(") ws1) in E.
  apply first_quote_unique in E as (_ & _ & E); try done.
  - rewrite (app_assoc (cps "./") (stem ++ cps ".mjs")) in E.
    apply first_quote_unique in E as (E & _ & _); try done.
    + by apply app_inv_head in E.
    + by rewrite !forallb_app, Hu.
    + by rewrite !forallb_app, HX.
  - rewrite forallb_app. by rewrite (forallb_impl _ _ _ cls_space_unquoted Hws1).
  - rewrite forallb_app. by rewrite (forallb_impl _ _ _ cls_space_unquoted Hws1').
Qed.

(** No earlier match runs across a dynamic import. *)
Lemma dyn_import_free b ws q rest h m :
  b ≠ [] → forallb cls_space ws = true → cls_quote q = true →
  match_at dyn_import (b ++ cps "import(" ++ ws ++ q :: rest) = Some (h, m) →
  (m ≤ length b)%nat.
Proof.
  intros Hb Hws Hq
    (ws1 & q1 & X & q2 & ws2 & s' & E & -> & _ & Hws1 & Hq1 & _ & HX & Hq2 & Hws2)%dyn_import_region.
  set (L1 := cps "import(" ++ ws1) in *.
  set (M := cps "./" ++ X ++ cps ".mjs") in *.
  set (T := ws2 ++ cps ")") in *.
  set (I := cps "import(" ++ ws).
  assert (forallb cls_unquoted L1 = true) as HL1.
  { unfold L1. rewrite forallb_app.
    by rewrite (forallb_impl _ _ _ cls_space_unquoted Hws1). }
  assert (forallb cls_unquoted M = true) as HM.
  { unfold M. by rewrite !forallb_app, HX. }
  assert (forallb cls_unquoted I = true) as HI.
  { unfold I. rewrite forallb_app.
    by rewrite (forallb_impl _ _ _ cls_space_unquoted Hws). }
  assert (b ++ cps "import(" ++ ws ++ q :: rest = b ++ I ++ q :: rest) as HE
    by (unfold I; by rewrite <- app_assoc).
  rewrite HE in E. clear HE.
  destruct (first_quote_split b) as [Hbu|(b1 & qa & b2 & -> & Hb1 & Hqa)].
  - (* no quote before the import: the match would begin with [import(] twice *)
    exfalso. rewrite (app_assoc b) in E.
    apply first_quote_unique in E as (E & _ & _); try done.
    2:{ by rewrite forallb_app, Hbu. }
    unfold L1, I in E. destruct b as [|c b']; [done|].
    injection E as _ E.
    assert (b' ++ cps "import(" ++ ws = cps "mport(" ++ ws1) as E' by exact E.
    assert (105 ∈ cps "mport(" ++ ws1) as [Hin|Hin]%elem_of_app.
    { rewrite <- E'. apply elem_of_app. right. by left. }
    + by repeat (apply elem_of_cons in Hin as [Hin|Hin]; [done|]);
        apply elem_of_nil in Hin.
    + rewrite forallb_forall in Hws1. apply list_elem_of_In, Hws1 in Hin.
      by vm_compute in Hin.
  - rewrite <- app_assoc in E. cbn [app] in E.
    apply first_quote_unique in E as (-> & _ & E); try done.
    destruct (first_quote_split b2) as [Hbu|(b3 & qb & b4 & -> & Hb3 & Hqb)].
    + (* one quote before the import: the module name would end in the import *)
      exfalso. rewrite (app_assoc b2) in E.
      apply first_quote_unique in E as (E & _ & _); try done.
      2:{ by rewrite forallb_app, Hbu. }
      unfold M, I in E.
      change (cps ".mjs") with (cps ".mj" ++ [115]) in E.
      destruct ws as [|x ws _] using rev_ind.
      * rewrite app_nil_r in E.
        change (cps "import(") with (cps "import" ++ [40]) in E.
        rewrite !app_assoc in E. by apply app_inj_tail in E as [_ ?].
      * rewrite !app_assoc in E. apply app_inj_tail in E as [_ ->].
        rewrite forallb_app in Hws. simpl in Hws.
        apply andb_true_iff in Hws as [_ Hws]. by vm_compute in Hws.
    + (* two quotes before the import: the match ends before it *)
      rewrite <- app_assoc in E. cbn [app] in E.
      apply first_quote_unique in E as (-> & _ & E); try done.
      rewrite !length_app. cbn [length]. rewrite !length_app. cbn [length].
      enough (length T ≤ length b4)%nat by lia.
      apply app_eq_inv in E as [(k & -> & _)|(k & HT & E)].
      * rewrite length_app. lia.
      * destruct k as [|c k]; [rewrite HT, app_nil_r; lia|]. exfalso.
        assert (c = 105) as -> by (unfold I in E; by injection E).
        assert (105 ∈ ws2 ++ cps ")") as [Hin|Hin]%elem_of_app.
        { change (ws2 ++ cps ")") with T. rewrite HT.
          apply elem_of_app. right. by left. }
        -- rewrite forallb_forall in Hws2. apply list_elem_of_In, Hws2 in Hin.
           by vm_compute in Hin.
        -- by apply list_elem_of_singleton in Hin.
Qed.

(** A dynamic import is found wherever it stands in the text. *)
Lemma findall_dyn_import before ws1 q1 stem q2 ws2 after :
  forallb cls_space ws1 = true → cls_quote q1 = true →
  stem ≠ [] → forallb cls_unquoted stem = true →
  cls_quote q2 = true → forallb cls_space ws2 = true →
  stem ++ cps ".mjs" ∈ findall dyn_import
    (before ++ cps "import(" ++ ws1 ++ q1 :: cps "./" ++ (stem ++ cps ".mjs")
       ++ q2 :: ws2 ++ cps ")" ++ after).
Proof.
  intros Hws1 Hq1 Hs Hu Hq2 Hws2. unfold findall.
  edestruct (findall_from_reach dyn_import before) as [l ->].
  { apply Nat.le_0_l. }
  { intros a b h m _ Hb Hm. exact (dyn_import_free _ _ _ _ _ _ Hb Hws1 Hq1 Hm). }
  apply elem_of_app. right.
  destruct (dyn_import_match ws1 q1 stem q2 ws2 after) as [n Hn]; try done.
  exact (findall_from_match _ _ _ _ Hn).
Qed.

(** ** Static imports, with any white space and either quote *)

Lemma static_import_match_any ws q1 stem q2 after :
  ws ≠ [] → forallb cls_space ws = true → cls_quote q1 = true →
  stem ≠ [] → forallb cls_unquoted stem = true → cls_quote q2 = true →
  ∃ n, match_at static_import
         (cps "from" ++ ws ++ q1 :: cps "./" ++ (stem ++ cps ".mjs") ++ q2 :: after)
       = Some (stem ++ cps ".mjs", n).
Proof.
  intros Hne Hws Hq1 Hs Hu Hq2.
  set (s := cps "from" ++ ws ++ q1 :: cps "./" ++ (stem ++ cps ".mjs") ++ q2 :: after).
  assert (is_Some (match_at static_import s)) as [[g n] Hm].
  { unfold match_at, static_import, pre, grp, post. cbn [mt].
    unfold s. rewrite mt_lit.
    apply (plus_complete cls_space ws); [done|done|].
    rewrite Hq1. rewrite mt_lit. rewrite <- app_assoc.
    apply (plus_complete cls_unquoted stem); [done|done|].
    rewrite mt_lit. rewrite Hq2. eauto. }
  exists n. rewrite Hm. do 2 f_equal.
  apply static_import_region in Hm
    as (ws' & q1' & X & q2' & s' & E & _ & -> & _ & Hws' & Hq1' & _ & HX & Hq2').
  unfold s in E. rewrite (app_assoc (cps "from") ws) in E.
  apply first_quote_unique in E as (_ & _ & E); try done.
  - rewrite (app_assoc (cps "./") (stem ++ cps ".mjs")) in E.
    apply first_quote_unique in E as (E & _ & _); try done.
    + by apply app_inv_head in E.
    + by rewrite !forallb_app, Hu.
    + by rewrite !forallb_app, HX.
  - rewrite forallb_app. by rewrite (forallb_impl _ _ _ cls_space_unquoted Hws).
  - rewrite forallb_app. by rewrite (forallb_impl _ _ _ cls_space_unquoted Hws').
Qed.

Lemma static_import_free_any b ws q rest h m :
  b ≠ [] → forallb cls_space ws = true → cls_quote q = true →
  match_at static_import (b ++ cps "from" ++ ws ++ q :: rest) = Some (h, m) →
  (m ≤ length b)%nat.
Proof.
  intros Hb Hws Hq
    (ws1 & q1 & X & q2 & s' & E & -> & _ & _ & Hws1 & Hq1 & _ & HX & Hq2)%static_import_region.
  set (L1 := cps "from" ++ ws1) in *.
  set (M := cps "./" ++ X ++ cps ".mjs") in *.
  set (I := cps "from" ++ ws).
  assert (forallb cls_unquoted L1 = true) as HL1.
  { unfold L1. rewrite forallb_app.
    by rewrite (forallb_impl _ _ _ cls_space_unquoted Hws1). }
  assert (forallb cls_unquoted M = true) as HM.
  { unfold M. by rewrite !forallb_app, HX. }
  assert (forallb cls_unquoted I = true) as HI.
  { unfold I. rewrite forallb_app.
    by rewrite (forallb_impl _ _ _ cls_space_unquoted Hws). }
  assert (b ++ cps "from" ++ ws ++ q :: rest = b ++ I ++ q :: rest) as HE
    by (unfold I; by rewrite <- app_assoc).
  rewrite HE in E. clear HE.
  destruct (first_quote_split b) as [Hbu|(b1 & qa & b2 & -> & Hb1 & Hqa)].
  - exfalso. rewrite (app_assoc b) in E.
    apply first_quote_unique in E as (E & _ & _); try done.
    2:{ by rewrite forallb_app, Hbu. }
    unfold L1, I in E. destruct b as [|c b']; [done|].
    injection E as _ E.
    assert (b' ++ cps "from" ++ ws = cps "rom" ++ ws1) as E' by exact E.
    assert (102 ∈ cps "rom" ++ ws1) as [Hin|Hin]%elem_of_app.
    { rewrite <- E'. apply elem_of_app. right. by left. }
    + by repeat (apply elem_of_cons in Hin as [Hin|Hin]; [done|]);
        apply elem_of_nil in Hin.
    + rewrite forallb_forall in Hws1. apply list_elem_of_In, Hws1 in Hin.
      by vm_compute in Hin.
  - rewrite <- app_assoc in E. cbn [app] in E.
    apply first_quote_unique in E as (-> & _ & E); try done.
    destruct (first_quote_split b2) as [Hbu|(b3 & qb & b4 & -> & Hb3 & Hqb)].
    + exfalso. rewrite (app_assoc b2) in E.
      apply first_quote_unique in E as (E & _ & _); try done.
      2:{ by rewrite forallb_app, Hbu. }
      unfold M, I in E.
      change (cps ".mjs") with (cps ".mj" ++ [115]) in E.
      destruct ws as [|x ws _] using rev_ind.
      * rewrite app_nil_r in E.
        change (cps "from") with (cps "fro" ++ [109]) in E.
        rewrite !app_assoc in E. by apply app_inj_tail in E as [_ ?].
      * rewrite !app_assoc in E. apply app_inj_tail in E as [_ ->].
        rewrite forallb_app in Hws. simpl in Hws.
        apply andb_true_iff in Hws as [_ Hws]. by vm_compute in Hws.
    + rewrite <- app_assoc in E. cbn [app] in E.
      apply first_quote_unique in E as (-> & _ & E); try done.
      rewrite !length_app. cbn [length]. rewrite !length_app. cbn [length]. lia.
Qed.

(** A static import is found wherever it stands in the text. *)
Lemma findall_static_import_any before ws q1 stem q2 after :
  ws ≠ [] → forallb cls_space ws = true → cls_quote q1 = true →
  stem ≠ [] → forallb cls_unquoted stem = true → cls_quote q2 = true →
  stem ++ cps ".mjs" ∈ findall static_import
    (before ++ cps "from" ++ ws ++ q1 :: cps "./" ++ (stem ++ cps ".mjs")
       ++ q2 :: after).
Proof.
  intros Hne Hws Hq1 Hs Hu Hq2. unfold findall.
  edestruct (findall_from_reach static_import before) as [l ->].
  { apply Nat.le_0_l. }
  { intros a b h m _ Hb Hm. exact (static_import_free_any _ _ _ _ _ _ Hb Hws Hq1 Hm). }
  apply elem_of_app. right.
  destruct (static_import_match_any ws q1 stem q2 after) as [n Hn]; try done.
  exact (findall_from_match _ _ _ _ Hn).
Qed.

(** ** What the patterns capture *)

Lemma occurs_spec piece text :
  occurs piece text = true ↔ ∃ before after, text = before ++ piece ++ after.
Proof.
  induction text as [|c text IH]; cbn [occurs].
  - rewrite orb_false_r, startswith_spec. split.
    + intros [t ->]. by exists [], t.
    + intros (a & b & E). destruct a; [by exists b|done].
  - rewrite orb_true_iff, startswith_spec, IH. split.
    + intros [[t ->]|(a & b & ->)]; [by exists [], t|by exists (c :: a), b].
    + intros ([|x a] & b & E).
      * left. by exists b.
      * right. injection E as -> ->. by exists a, b.
Qed.

(** A site id is a word that stands after [sites/] in the text. *)
Lemma site_id_shape id text :
  id ∈ findall pattern_url text ∨ id ∈ findall pattern_local text →
  id ≠ [] ∧ forallb cls_word id = true ∧ occurs (cps "sites/" ++ id) text = true.
Proof.
  intros [(a & b & n & -> & Hm)%findall_from_sound|(a & b & n & -> & Hm)%findall_from_sound];
    apply match_at_sound in Hm as (w1 & w3 & s' & -> & H1 & [Hne Hw] & _);
    apply lang_lit in H1 as ->; split_and!; try done; apply occurs_spec.
  - exists (a ++ cps "framerusercontent.com/"), (w3 ++ s').
    change (cps "framerusercontent.com/sites/")
      with (cps "framerusercontent.com/" ++ cps "sites/").
    by rewrite <- !app_assoc.
  - exists a, (w3 ++ s'). by rewrite <- !app_assoc.
Qed.

(** A site id is a single, ordinary path component. *)
Lemma site_id_component P id :
  id ≠ [] → forallb cls_word id = true → P // id = P ++ [id].
Proof.
  intros Hne Hw. apply joinpath_single; [|done|].
  - intros Hin. rewrite forallb_forall in Hw.
    apply list_elem_of_In, Hw in Hin. by vm_compute in Hin.
  - intros ->. by vm_compute in Hw.
Qed.

(** What the import patterns capture. *)
Lemma static_import_shape rel text :
  rel ∈ findall static_import text →
  occurs (cps "from") text = true ∧
  ∃ stem, rel = stem ++ cps ".mjs" ∧ stem ≠ [] ∧ forallb cls_unquoted stem = true.
Proof.
  intros (a & b & n & -> & Hm)%findall_from_sound.
  apply static_import_region in Hm
    as (ws & q1 & X & q2 & s' & -> & _ & -> & _ & _ & _ & HX1 & HX2 & _).
  split; [|by exists X]. apply occurs_spec.
  exists a. eexists. by rewrite <- !app_assoc.
Qed.

Lemma dyn_import_shape rel text :
  rel ∈ findall dyn_import text →
  occurs (cps "import(") text = true ∧
  ∃ stem, rel = stem ++ cps ".mjs" ∧ stem ≠ [] ∧ forallb cls_unquoted stem = true.
Proof.
  intros (a & b & n & -> & Hm)%findall_from_sound.
  apply dyn_import_region in Hm
    as (ws1 & q1 & X & q2 & ws2 & s' & -> & _ & -> & _ & _ & HX1 & HX2 & _).
  split; [|by exists X]. apply occurs_spec.
  exists a. eexists. by rewrite <- !app_assoc.
Qed.

(** ** The repetition a greedy match settles on *)

Section Pick.
Context {A : Type}.

Lemma star_none p s (k : list N → option A) w s' :
  star p s k = None → s = w ++ s' → forallb p w = true → k s' = None.
Proof.
  intros Hn -> Hw. destruct (k s') as [x|] eqn:Hk; [|done].
  destruct (star_complete p w s' k Hw) as [y Hy]; [by rewrite Hk|congruence].
Qed.

(** A greedy repetition stops at the longest run after which the rest of
    the pattern matches. *)
Lemma star_pick p w s' (k : list N → option A) x :
  forallb p w = true → k s' = Some x →
  (∀ w2 s2, w ++ s' = w2 ++ s2 → forallb p w2 = true →
     (length w < length w2)%nat → k s2 = None) →
  star p (w ++ s') k = Some x.
Proof.
  induction w as [|c w IH]; intros Hw Hk Hmax.
  - cbn [app]. destruct s' as [|c t]; [done|]. cbn [star].
    destruct (p c) eqn:Hc; [|done].
    destruct (star p t k) as [r|] eqn:Hs; [|done].
    apply star_sound in Hs as (w2 & s2 & -> & Hw2 & Hr).
    rewrite (Hmax (c :: w2) s2) in Hr; [done|done| |simpl; lia].
    simpl. by rewrite Hc.
  - cbn [forallb] in Hw. apply andb_true_iff in Hw as [Hc Hw].
    cbn [app star]. rewrite Hc, IH; [done|done|done|].
    intros w2 s2 E Hw2 Hlen. apply (Hmax (c :: w2) s2).
    + by rewrite <- app_comm_cons, E.
    + simpl. by rewrite Hc.
    + simpl. lia.
Qed.

Lemma plus_pick p w s' (k : list N → option A) x :
  w ≠ [] → forallb p w = true → k s' = Some x →
  (∀ w2 s2, w ++ s' = w2 ++ s2 → forallb p w2 = true →
     (length w < length w2)%nat → k s2 = None) →
  plus p (w ++ s') k = Some x.
Proof.
  destruct w as [|c w]; [done|]. intros _ Hw Hk Hmax.
  cbn [forallb] in Hw. apply andb_true_iff in Hw as [Hc Hw].
  cbn [app plus]. rewrite Hc. apply star_pick; [done|done|].
  intros w2 s2 E Hw2 Hlen. apply (Hmax (c :: w2) s2).
  - by rewrite <- app_comm_cons, E.
  - simpl. by rewrite Hc.
  - simpl. lia.
Qed.
End Pick.

(** A run of characters of a class that is followed by a character outside
    it does not reach further. *)
Lemma run_bounded (p : N → bool) (w rest w2 s2 : list N) :
  forallb p w2 = true → (∀ c t, rest = c :: t → p c = false) →
  w ++ rest = w2 ++ s2 → ∃ k, w = w2 ++ k ∧ s2 = k ++ rest.
Proof.
  intros Hw2 Hrest E. apply app_eq_inv in E as [(k & -> & ->)|(k & -> & ->)].
  - by exists k.
  - destruct k as [|c k].
    + exists []. by rewrite !app_nil_r.
    + rewrite forallb_app in Hw2. simpl in Hw2.
      rewrite (Hrest c (k ++ s2) eq_refl) in Hw2.
      by rewrite andb_false_r in Hw2.
Qed.

(** ** References to search indexes *)

Lemma index_pattern_match site_id sfx rest :
  sfx ≠ [] → forallb cls_ref sfx = true →
  (∀ c t, rest = c :: t → cls_ref c = false) →
  ∃ n, match_at (index_pattern site_id)
         (cps "https://framerusercontent.com/sites/" ++ site_id ++ SLASH ::
            (cps "searchIndex-" ++ sfx ++ cps ".json") ++ rest)
       = Some (cps "searchIndex-" ++ sfx ++ cps ".json", n).
Proof.
  intros Hsfx Hr Hrest. unfold match_at, index_pattern, pre, grp, post, re_escape.
  cbn [mt]. rewrite !mt_lit. rewrite N.eqb_refl. rewrite <- !app_assoc. rewrite mt_lit.
  eexists. apply plus_pick; [done|done| |].
  - rewrite mt_lit.
    rewrite (app_assoc (cps "searchIndex-")), (app_assoc (_ ++ sfx)).
    rewrite take_app_sub. by rewrite <- !app_assoc.
  - intros w2 s2 E Hw2 Hlen.
    match goal with |- mt _ _ ?k = None => destruct (mt (lit (cps ".json")) s2 k) eqn:Hm end;
      [|done].
    exfalso. apply mt_lit_inv in Hm as (s'' & -> & _).
    rewrite !app_assoc in E.
    apply (run_bounded cls_ref) in E as (k & E & _); [|by rewrite forallb_app, Hw2|done].
    apply (f_equal length) in E. rewrite !length_app in E. lia.
Qed.

Lemma index_pattern_region site_id s g n :
  forallb cls_ref site_id = true →
  match_at (index_pattern site_id) s = Some (g, n) →
  ∃ w s', s = w ++ s' ∧ length w = n ∧ forallb cls_ref w = true.
Proof.
  intros Hid (w1 & w3 & s' & -> & Hn & H1 & H2 & H3)%match_at_region.
  exists (w1 ++ g ++ w3), s'. split_and!; try done.
  destruct H1 as (u & v & -> & ->%lang_lit & (u2 & v2 & -> & ->%lang_lit & ->)).
  destruct H2 as (u3 & v3 & -> & ->%lang_lit & (x & y & -> & [_ Hx] & ->%lang_lit)).
  assert (w3 = []) as -> by exact H3.
  by rewrite !forallb_app, Hx, Hid.
Qed.

(** The reference to a search index of a site is found, with the name it
    has, when it stands between characters no reference can contain. *)
Lemma findall_index_pattern before site_id sfx rest :
  forallb cls_ref site_id = true →
  before = [] ∨ (∃ b d, before = b ++ [d] ∧ cls_ref d = false) →
  sfx ≠ [] → forallb cls_ref sfx = true →
  (∀ c t, rest = c :: t → cls_ref c = false) →
  cps "searchIndex-" ++ sfx ++ cps ".json"
  ∈ findall (index_pattern site_id)
      (before ++ cps "https://framerusercontent.com/sites/" ++ site_id ++ SLASH ::
         (cps "searchIndex-" ++ sfx ++ cps ".json") ++ rest).
Proof.
  intros Hid Hb Hsfx Hr Hrest.
  destruct (index_pattern_match site_id sfx rest Hsfx Hr Hrest) as [n Hn].
  destruct Hb as [->|(b & d & -> & Hd)].
  - exact (findall_from_match _ _ _ _ Hn).
  - unfold findall.
    edestruct (findall_from_reach (index_pattern site_id) (b ++ [d])) as [l ->].
    { apply Nat.le_0_l. }
    { exact (delimited_free _ _ _ _ _ (λ s g n, index_pattern_region site_id s g n Hid) Hd). }
    apply elem_of_app. right. exact (findall_from_match _ _ _ _ Hn).
Qed.

(** ** References to assets *)

Lemma mt_lit_mismatch {A} l s (k : list N → option A) :
  startswith l s = false → mt (lit l) s k = None.
Proof.
  revert s. induction l as [|a l IH]; intros [|b s]; simpl; try done.
  rewrite (N.eqb_sym b a). destruct (a =? b); simpl; [apply IH|done].
Qed.

Lemma asset_exts_no_dot : Forall (λ e, DOT ∉ e) asset_exts.
Proof.
  unfold asset_exts. repeat constructor;
    intros H; repeat (apply elem_of_cons in H as [H|H]; [done|]);
    by apply elem_of_nil in H.
Qed.

Lemma not_asset_char c : cls_asset c = false → c ≠ DOT ∧ c ≠ 50.
Proof. intros H. split; intros ->; by vm_compute in H. Qed.

(** After the dot the alternation takes the extension that stands there. *)
Lemma asset_ext_match {A} ext rest (k : list N → option A) x :
  ext ∈ asset_exts → (∀ c t, rest = c :: t → cls_asset c = false) →
  k rest = Some x → mt asset_ext (ext ++ rest) k = Some x.
Proof.
  intros He Hrest Hk.
  assert (mt (Opt (Chr 50)) rest k = Some x) as Hopt.
  { cbn [mt]. destruct rest as [|c t]; [done|].
    destruct (not_asset_char c (Hrest c t eq_refl)) as [_ Hc].
    by destruct (N.eqb_spec c 50). }
  unfold asset_exts in He. unfold asset_ext.
  repeat (apply elem_of_cons in He as [->|He]); [..|by apply elem_of_nil in He].
  - cbn [mt]. by rewrite mt_lit, Hk.
  - cbn [mt]. rewrite mt_lit_mismatch by (vm_compute; reflexivity).
    change (cps "jpg" ++ rest) with (cps "jp" ++ 103 :: rest). rewrite mt_lit.
    change (103 =? 101) with false. cbn match. change (103 =? 103) with true.
    cbn match. by rewrite Hk.
  - cbn [mt]. rewrite mt_lit_mismatch by (vm_compute; reflexivity).
    change (cps "jpeg" ++ rest) with (cps "jp" ++ 101 :: 103 :: rest). rewrite mt_lit.
    change (101 =? 101) with true. cbn match. change (103 =? 103) with true.
    cbn match. by rewrite Hk.
  - cbn [mt]. rewrite !mt_lit_mismatch by (vm_compute; reflexivity).
    by rewrite mt_lit, Hk.
  - cbn [mt]. rewrite !mt_lit_mismatch by (vm_compute; reflexivity).
    by rewrite mt_lit, Hk.
  - cbn [mt]. rewrite !mt_lit_mismatch by (vm_compute; reflexivity).
    by rewrite mt_lit, Hk.
  - cbn [mt]. rewrite !mt_lit_mismatch by (vm_compute; reflexivity).
    by rewrite mt_lit, Hk.
  - cbn [mt]. rewrite !mt_lit_mismatch by (vm_compute; reflexivity).
    rewrite mt_lit. cbn [mt] in Hopt. by rewrite Hopt.
  - cbn [mt]. rewrite !mt_lit_mismatch by (vm_compute; reflexivity).
    change (cps "woff2" ++ rest) with (cps "woff" ++ 50 :: rest). rewrite mt_lit.
    change (50 =? 50) with true. cbn match. by rewrite Hk.
Qed.

Lemma asset_pattern_match stem ext rest :
  stem ≠ [] → forallb cls_asset stem = true → ext ∈ asset_exts →
  (∀ c t, rest = c :: t → cls_asset c = false) →
  ∃ n, match_at asset_pattern
         (cps "https://framerusercontent.com/assets/" ++ (stem ++ DOT :: ext) ++ rest)
       = Some (stem ++ DOT :: ext, n).
Proof.
  intros Hstem Hs He Hrest. unfold match_at, asset_pattern, pre, grp, post.
  cbn [mt]. rewrite mt_lit. rewrite <- app_assoc. cbn [app].
  eexists. apply plus_pick; [done|done| |].
  - rewrite N.eqb_refl. apply asset_ext_match; [done|done|].
    rewrite (app_comm_cons ext), app_assoc. by rewrite take_app_sub.
  - intros w2 s2 E Hw2 Hlen.
    rewrite (app_comm_cons ext), app_assoc in E.
    apply (run_bounded cls_asset) in E as (k & E & ->); [|done|done].
    apply app_eq_inv in E as [(j & -> & _)|(j & -> & E)].
    { rewrite length_app in Hlen. lia. }
    destruct j as [|c j]; [rewrite app_nil_r in Hlen; lia|].
    injection E as <- E.
    destruct k as [|c k].
    + cbn [app]. destruct rest as [|c t]; [done|].
      destruct (not_asset_char c (Hrest c t eq_refl)) as [Hc _].
      by destruct (N.eqb_spec c DOT).
    + cbn [app]. assert (c ≠ DOT) as Hc.
      { intros ->. pose proof asset_exts_no_dot as Hd.
        rewrite Forall_forall in Hd. apply (Hd ext He).
        rewrite E. apply elem_of_app. right. by left. }
      by destruct (N.eqb_spec c DOT).
Qed.

Lemma asset_pattern_region s g n :
  match_at asset_pattern s = Some (g, n) →
  ∃ w s', s = w ++ s' ∧ length w = n ∧
    forallb (λ c, cls_asset c || (c =? 58) || (c =? 47)) w = true.
Proof.
  intros (w1 & w3 & s' & -> & Hn & H1 & H2 & H3)%match_at_region.
  exists (w1 ++ g ++ w3), s'. split_and!; try done.
  apply lang_lit in H1 as ->. assert (w3 = []) as -> by exact H3.
  destruct H2 as (w & v & -> & [_ Hw] & (u & e & -> & -> & He%lang_asset_ext)).
  pose proof asset_exts_class as Hall. rewrite Forall_forall in Hall.
  rewrite !forallb_app. cbn [forallb]. rewrite !andb_true_iff. split_and!; try done.
  - eapply forallb_impl; [|exact Hw]. by intros c ->.
  - eapply forallb_impl; [|exact (Hall e He)]. by intros c ->.
Qed.

(** The reference to an asset is found, with the name it has, when no
    character of a name follows it and it starts the text or follows a
    character no reference can contain. *)
Lemma findall_asset_pattern before stem ext rest :
  before = [] ∨
    (∃ b d, before = b ++ [d] ∧ cls_asset d || (d =? 58) || (d =? 47) = false) →
  stem ≠ [] → forallb cls_asset stem = true → ext ∈ asset_exts →
  (∀ c t, rest = c :: t → cls_asset c = false) →
  stem ++ DOT :: ext
  ∈ findall asset_pattern
      (before ++ cps "https://framerusercontent.com/assets/"
         ++ (stem ++ DOT :: ext) ++ rest).
Proof.
  intros Hb Hstem Hs He Hrest.
  destruct (asset_pattern_match stem ext rest Hstem Hs He Hrest) as [n Hn].
  destruct Hb as [->|(b & d & -> & Hd)].
  - exact (findall_from_match _ _ _ _ Hn).
  - unfold findall.
    edestruct (findall_from_reach asset_pattern (b ++ [d])) as [l ->].
    { apply Nat.le_0_l. }
    { exact (delimited_free _ _ _ _ _ asset_pattern_region Hd). }
    apply elem_of_app. right. exact (findall_from_match _ _ _ _ Hn).
Qed.

(** ** One download *)

(** Every entry [mkdir_from] adds is a directory. *)
Lemma mkdir_from_new fs cur P q n :
  (mkdir_from fs cur P).1 !! q = Some n →
  fs !! q = Some n ∨ (fs !! q = None ∧ n = Dir).
Proof.
  revert fs cur. induction P as [|c P IH]; intros fs cur; simpl; [by left|].
  destruct (bool_decide (c = DOTDOT)); [by apply IH|].
  destruct (node_at fs (cur ++ [c])) as [[|t]|] eqn:Hn; [by apply IH|by left|].
  intros [H|[H ->]]%IH.
  - destruct (decide (cur ++ [c] = q)) as [<-|Hne].
    + rewrite lookup_insert_eq in H. injection H as <-. right.
      by rewrite <- node_at_snoc.
    + rewrite lookup_insert_ne in H by done. by left.
  - destruct (decide (cur ++ [c] = q)) as [<-|Hne].
    + by rewrite lookup_insert_eq in H.
    + rewrite lookup_insert_ne in H by done. by right.
Qed.

(** Where a file that was written is. *)
Lemma write_file_at fs P body fs' :
  write_file fs P body = Some fs' →
  ∃ q n, walk fs' [] P = Some (q ++ [n]) ∧
         fs' = <[q ++ [n] := File (Some (decode body))]> fs ∧
         fs !! (q ++ [n]) ≠ Some Dir.
Proof.
  intros Hw. pose proof (write_file_grows _ _ _ _ Hw) as Hg.
  apply write_file_inv in Hw as (q & Hq & Hd & HP & Hn & Hnd & Hfs).
  exists q, (name P). split_and!; [|done|by rewrite <- node_at_snoc].
  pose proof (path_parent_name P HP) as HPP.
  revert Hq Hn Hnd Hfs HPP. generalize (parent P) (name P).
  intros PP n Hq Hn Hnd Hfs ->.
  rewrite walk_app, (grows_walk _ _ _ _ _ Hg Hq).
  cbn [mbind option_bind walk].
  rewrite (grows_is_dir_at _ _ _ Hg Hd).
  rewrite bool_decide_eq_false_2 by done.
  by rewrite !node_at_snoc, Hfs, lookup_insert_eq.
Qed.

(** Reading back what was written. *)
Lemma write_file_read fs P body fs' :
  write_file fs P body = Some fs' → read_text fs' P = Some (decode body).
Proof.
  intros (q & n & Hq & -> & _)%write_file_at.
  unfold read_text, stat. rewrite Hq. cbn [mbind option_bind].
  by rewrite node_at_snoc, lookup_insert_eq.
Qed.

(** The two ways a download ends: [mkdir] raises before anything is
    printed, or the download returns after a [GET] line and one line that
    tells how it went. *)
Lemma download_file_cases net url dest w :
  ((mkdir_parents (fs w) (parent dest)).2 = false ∧
   download_file net url dest w
   = (Raise OSError, World (mkdir_parents (fs w) (parent dest)).1 (out w))) ∨
  ((mkdir_parents (fs w) (parent dest)).2 = true ∧
   ∃ fs' r,
     download_file net url dest w = (Ret (), World fs' (out w ++ [LGet url; r])) ∧
     ((fs' = (mkdir_parents (fs w) (parent dest)).1 ∧ is_error r = true ∧
       (∀ code, net url = HTTPError code → r = LErrHTTP code url) ∧
       (net url = URLError → r = LErrURL url) ∧
       (net url = OtherError → r = LErrFail url) ∧
       (∀ b, net url = Body b ∨ net url = Truncated b ∨ net url = Broken b →
             r = LErrFail url)) ∨
      (∃ b, write_file (mkdir_parents (fs w) (parent dest)).1 dest b = Some fs' ∧
            ((net url = Body b ∧ r = LOk dest) ∨
             (net url = Truncated b ∧ r = LErrURL url) ∨
             (net url = Broken b ∧ r = LErrFail url))))).
Proof.
  unfold download_file. rewrite !bind_run. unfold mkdir.
  destruct (mkdir_parents (fs w) (parent dest)) as [fs1 [|]]; cbn [fst snd];
    [right|by left].
  split; [done|]. rewrite bind_run. unfold log at 1. cbn [fs out].
  assert (∀ r, is_error r = true →
            (∀ code, net url = HTTPError code → r = LErrHTTP code url) →
            (net url = URLError → r = LErrURL url) →
            (net url = OtherError → r = LErrFail url) →
            (∀ b, net url = Body b ∨ net url = Truncated b ∨ net url = Broken b →
                  r = LErrFail url) →
            ∃ fs' r',
              (Ret (), World fs1 ((out w ++ [LGet url]) ++ [r]))
              = (Ret (), World fs' (out w ++ [LGet url; r'])) ∧
              (fs' = fs1 ∧ is_error r' = true ∧
               (∀ code, net url = HTTPError code → r' = LErrHTTP code url) ∧
               (net url = URLError → r' = LErrURL url) ∧
               (net url = OtherError → r' = LErrFail url) ∧
               (∀ b, net url = Body b ∨ net url = Truncated b ∨ net url = Broken b →
                     r' = LErrFail url) ∨
               ∃ b, write_file fs1 dest b = Some fs' ∧
                    (net url = Body b ∧ r' = LOk dest ∨
                     net url = Truncated b ∧ r' = LErrURL url ∨
                     net url = Broken b ∧ r' = LErrFail url))) as Hfail.
  { intros r ? ? ? ? ?. exists fs1, r. rewrite <- app_assoc. split; [done|]. by left. }
  assert (∀ fs2 r b, write_file fs1 dest b = Some fs2 →
            net url = Body b ∧ r = LOk dest ∨
            net url = Truncated b ∧ r = LErrURL url ∨
            net url = Broken b ∧ r = LErrFail url →
            ∃ fs' r',
              (Ret (), World fs2 ((out w ++ [LGet url]) ++ [r]))
              = (Ret (), World fs' (out w ++ [LGet url; r'])) ∧
              (fs' = fs1 ∧ is_error r' = true ∧
               (∀ code, net url = HTTPError code → r' = LErrHTTP code url) ∧
               (net url = URLError → r' = LErrURL url) ∧
               (net url = OtherError → r' = LErrFail url) ∧
               (∀ b, net url = Body b ∨ net url = Truncated b ∨ net url = Broken b →
                     r' = LErrFail url) ∨
               ∃ b, write_file fs1 dest b = Some fs' ∧
                    (net url = Body b ∧ r' = LOk dest ∨
                     net url = Truncated b ∧ r' = LErrURL url ∨
                     net url = Broken b ∧ r' = LErrFail url))) as Hstore.
  { intros fs2 r b ? ?. exists fs2, r. rewrite <- app_assoc. split; [done|].
    right. by exists b. }
  destruct (net url) as [b|b|b|code| |] eqn:Hnet.
  - rewrite bind_run. unfold store at 1. cbn [fs out].
    destruct (write_file fs1 dest b) as [fs2|] eqn:Hw; unfold log; cbn [fs out].
    + apply (Hstore fs2 _ b); auto.
    + apply Hfail; done.
  - rewrite bind_run. unfold store at 1. cbn [fs out].
    destruct (write_file fs1 dest b) as [fs2|] eqn:Hw; unfold log; cbn [fs out].
    + apply (Hstore fs2 _ b); auto.
    + apply Hfail; done.
  - rewrite bind_run. unfold store at 1. cbn [fs out].
    destruct (write_file fs1 dest b) as [fs2|] eqn:Hw; unfold log; cbn [fs out].
    + apply (Hstore fs2 _ b); auto.
    + apply Hfail; done.
  - unfold log; cbn [fs out].
    apply Hfail; try done; try (by intros ? [= ->]); by intros ? [|[|]].
  - unfold log; cbn [fs out]. apply Hfail; try done; by intros ? [|[|]].
  - unfold log; cbn [fs out]. apply Hfail; try done; by intros ? [|[|]].
Qed.

(** When [mkdir] returns, the path it was given is a directory. *)
Lemma mkdir_from_dir fs cur P fs' :
  (∀ k, is_dir_at fs (take k cur) = true) →
  mkdir_from fs cur P = (fs', true) →
  ∃ q, walk fs' cur P = Some q ∧ ∀ k, is_dir_at fs' (take k q) = true.
Proof.
  revert fs cur. induction P as [|c P IH]; intros fs cur Hcur; cbn [mkdir_from walk].
  - intros [= <-]. by exists cur.
  - assert (is_dir_at fs cur = true) as Hd.
    { specialize (Hcur (length cur)). by rewrite firstn_all in Hcur. }
    case_bool_decide as Hc.
    + intros Hm. pose proof (mkdir_from_grows fs (parent cur) P) as Hg.
      rewrite Hm in Hg. cbn [fst] in Hg.
      rewrite (grows_is_dir_at _ _ _ Hg Hd). apply (IH fs); [|done].
      intros k. unfold parent. rewrite removelast_firstn_len, take_take. apply Hcur.
    + destruct (node_at fs (cur ++ [c])) as [[|t]|] eqn:Hn; [|done|].
      * intros Hm. pose proof (mkdir_from_grows fs (cur ++ [c]) P) as Hg.
        rewrite Hm in Hg. cbn [fst] in Hg.
        rewrite (grows_is_dir_at _ _ _ Hg Hd).
        destruct (grows_node_at _ _ _ _ Hg Hn) as (n' & -> & _).
        apply (IH fs); [|done]. intros k.
        destruct (decide (k ≤ length cur)%nat).
        -- rewrite take_app_le by done. apply Hcur.
        -- rewrite take_ge by (rewrite length_app; simpl; lia).
           unfold is_dir_at. rewrite Hn. by apply bool_decide_eq_true.
      * intros Hm.
        assert (fs !! (cur ++ [c]) = None) as Hfree by (by rewrite <- node_at_snoc).
        pose proof (mkdir_from_grows (<[cur ++ [c] := Dir]> fs) (cur ++ [c]) P) as Hg.
        rewrite Hm in Hg. cbn [fst] in Hg.
        pose proof (grows_insert_fresh fs (cur ++ [c]) Dir Hfree) as Hg1.
        rewrite (grows_is_dir_at _ _ _ (grows_trans _ _ _ Hg1 Hg) Hd).
        assert (node_at (<[cur ++ [c] := Dir]> fs) (cur ++ [c]) = Some Dir) as Hn1
          by (by rewrite node_at_snoc, lookup_insert_eq).
        destruct (grows_node_at _ _ _ _ Hg Hn1) as (n' & -> & _).
        apply (IH (<[cur ++ [c] := Dir]> fs)); [|done]. intros k.
        destruct (decide (k ≤ length cur)%nat).
        -- rewrite take_app_le by done.
           apply (grows_is_dir_at _ _ _ Hg1), Hcur.
        -- rewrite take_ge by (rewrite length_app; simpl; lia).
           unfold is_dir_at. rewrite Hn1. by apply bool_decide_eq_true.
Qed.

Lemma mkdir_parents_dir fs P fs' :
  mkdir_parents fs P = (fs', true) → is_dir fs' P = true.
Proof.
  intros Hm. apply mkdir_from_dir in Hm as (q & Hq & Hd).
  - unfold is_dir, stat. rewrite Hq. cbn [mbind option_bind].
    specialize (Hd (length q)). rewrite firstn_all in Hd.
    unfold is_dir_at in Hd. by apply bool_decide_eq_true in Hd; apply bool_decide_eq_true.
  - intros k. by rewrite take_nil.
Qed.

(** ** Paths without [..] *)

Lemma parent_no_dotdot (cur : list (list N)) : DOTDOT ∉ cur → DOTDOT ∉ parent cur.
Proof.
  intros H Hin. apply H. unfold parent in Hin.
  destruct cur as [|c cur _] using rev_ind; [done|].
  rewrite removelast_last in Hin. apply elem_of_app. by left.
Qed.

(** Name resolution gives a location without [..]. *)
Lemma walk_no_dotdot fs cur P q :
  walk fs cur P = Some q → DOTDOT ∉ cur → DOTDOT ∉ q.
Proof.
  revert cur. induction P as [|c P IH]; intros cur; cbn [walk].
  - by intros [= ->].
  - destruct (is_dir_at fs cur); [|done]. case_bool_decide as Hc.
    + intros Hw Hcur. apply (IH _ Hw). by apply parent_no_dotdot.
    + destruct (node_at fs (cur ++ [c])); [|done]. intros Hw Hcur.
      apply (IH _ Hw). rewrite elem_of_app, list_elem_of_singleton. intros [?|?]; auto.
Qed.

(** Without [..], a path that resolves leads where its components say, and
    everything on the way exists. *)
Lemma walk_plain fs cur P q :
  DOTDOT ∉ P → walk fs cur P = Some q →
  q = cur ++ P ∧ ∀ k, (0 < k ≤ length P)%nat → is_Some (fs !! (cur ++ take k P)).
Proof.
  revert cur. induction P as [|c P IH]; intros cur Hno; cbn [walk].
  - intros [= ->]. rewrite app_nil_r. split; [done|]. simpl. lia.
  - apply not_elem_of_cons in Hno as [Hc Hno].
    destruct (is_dir_at fs cur); [|done].
    rewrite bool_decide_eq_false_2 by done.
    destruct (node_at fs (cur ++ [c])) as [n|] eqn:Hn; [|done].
    intros [-> Hk]%IH; [|done]. split; [by rewrite <- app_assoc|].
    intros [|k] Hlen; [lia|]. cbn [take].
    destruct k as [|k].
    + rewrite take_0, <- node_at_snoc, Hn. eauto.
    + rewrite (cons_middle c), app_assoc. apply Hk. simpl in *. lia.
Qed.

(** Without [..], [mkdir] adds entries only along its path. *)
Lemma mkdir_from_changed fs cur P q :
  DOTDOT ∉ P → (mkdir_from fs cur P).1 !! q ≠ fs !! q →
  ∃ k, (0 < k ≤ length P)%nat ∧ q = cur ++ take k P ∧ fs !! q = None.
Proof.
  revert fs cur. induction P as [|c P IH]; intros fs cur Hno; cbn [mkdir_from].
  { intros H. by destruct H. }
  apply not_elem_of_cons in Hno as [Hc Hno].
  rewrite bool_decide_eq_false_2 by done.
  destruct (node_at fs (cur ++ [c])) as [[|t]|] eqn:Hn; [|intros H; by destruct H|].
  - intros (k & Hk & -> & Hq)%IH; [|done].
    exists (S k). cbn [take length].
    split; [lia|]. split; [by rewrite <- app_assoc|done].
  - intros Hq. destruct (decide (q = cur ++ [c])) as [->|Hne].
    + exists 1%nat. cbn [take length]. rewrite take_0.
      split; [lia|]. split; [done|by rewrite <- node_at_snoc].
    + destruct (IH (<[cur ++ [c] := Dir]> fs) (cur ++ [c]) Hno) as (k & Hk & -> & Hq').
      { by rewrite lookup_insert_ne by done. }
      exists (S k). cbn [take length].
      split; [lia|]. split; [by rewrite <- app_assoc|].
      by rewrite lookup_insert_ne in Hq' by done.
Qed.

(** Without [..], a file is written where its path says. *)
Lemma write_file_plain fs P body fs' :
  DOTDOT ∉ P → write_file fs P body = Some fs' →
  fs' = <[P := File (Some (decode body))]> fs.
Proof.
  intros Hno (q & n & Hw & -> & _)%write_file_at.
  apply walk_plain in Hw as [Hq _]; [|done]. cbn [app] in Hq. by rewrite Hq.
Qed.

(** A download to a path without [..] changes the tree at the ancestors of
    the path that were missing, and at the path. *)
Lemma download_file_plain net url dest w q :
  DOTDOT ∉ dest →
  fs (download_file net url dest w).2 !! q ≠ fs w !! q →
  ∃ k, (0 < k ≤ length dest)%nat ∧ q = take k dest ∧
       (k < length dest → fs w !! q = None)%nat.
Proof.
  intros Hno.
  assert (DOTDOT ∉ parent dest) as Hnp by (by apply parent_no_dotdot).
  assert (∀ q, (mkdir_parents (fs w) (parent dest)).1 !! q ≠ fs w !! q →
            ∃ k, (0 < k ≤ length dest)%nat ∧ q = take k dest ∧
                 (k < length dest → fs w !! q = None)%nat) as Hmk.
  { intros q' (k & Hk & -> & Hq)%mkdir_from_changed; [|done].
    exists k. cbn [app]. unfold parent in *.
    rewrite removelast_firstn_len, length_take in Hk.
    rewrite removelast_firstn_len, take_take.
    rewrite removelast_firstn_len, take_take in Hq.
    replace (k `min` pred (length dest))%nat with k in * by lia.
    split; [lia|]. split; [done|done]. }
  destruct (download_file_cases net url dest w)
    as [[_ ->]|(_ & fs' & r & -> & [(-> & _)|(b & Hw & _)])]; cbn [fst snd fs];
    [apply Hmk|apply Hmk|].
  assert (dest ≠ []) as Hd0.
  { by apply write_file_inv in Hw as (? & _ & _ & ? & _). }
  apply write_file_plain in Hw as ->; [|done].
  destruct (decide (q = dest)) as [->|Hne].
  - intros _. exists (length dest). rewrite firstn_all.
    split; [|split; [done|lia]].
    destruct dest; simpl; [done|lia].
  - rewrite lookup_insert_ne by done. apply Hmk.
Qed.

(** ** The phases of a run with downloads

    Every step of [main] prints a report and then downloads the items the
    report lists, in the order of the report. *)

Lemma for_each_app {A} (l1 l2 : list A) (body : A → M unit) w :
  for_each (l1 ++ l2) body w = (for_each l1 body;; for_each l2 body) w.
Proof.
  revert w. induction l1 as [|x l1 IH]; intros w; simpl.
  - done.
  - rewrite !bind_run. destruct (body x w) as [[[]|e] w1]; [|done].
    by rewrite IH, bind_run.
Qed.

Lemma filter_items_map (item : list N → log_line) (l : list (list N)) :
  (∀ x, is_item (item x) = true) →
  filter (λ l, is_item l = true) (map item l) = map item l.
Proof.
  intros Hi. induction l as [|x l IH]; [done|]. simpl.
  rewrite filter_cons_True by apply Hi. by rewrite IH.
Qed.

Lemma filter_items_item_lines header ok (item : list N → log_line) l :
  is_item header = false → is_item ok = false →
  (∀ x, is_item (item x) = true) →
  filter (λ l, is_item l = true) (item_lines header ok item l) = map item l.
Proof.
  intros Hh Ho Hi. unfold item_lines. case_bool_decide as E.
  - subst l. rewrite filter_cons_False by by rewrite Ho. done.
  - rewrite filter_cons_False by by rewrite Hh. by apply filter_items_map.
Qed.

Lemma filter_items_site_report fs root site_id :
  filter (λ l, is_item l = true) (site_report fs root site_id)
  = map (LItemMjs site_id) (missing_mjs_of fs root site_id)
    ++ map (LItemIdx site_id) (missing_indexes_in fs root site_id).
Proof.
  unfold site_report. rewrite !filter_app.
  rewrite !filter_items_item_lines by done.
  by destruct (is_dir _ _).
Qed.

Lemma fetch_free_item_lines header ok (item : list N → log_line) l :
  is_fetch header = false → is_fetch ok = false →
  (∀ x, is_fetch (item x) = false) →
  Forall (λ l, is_fetch l = false) (item_lines header ok item l).
Proof.
  intros Hh Ho Hi. unfold item_lines. case_bool_decide.
  - by repeat constructor.
  - constructor; [done|]. apply Forall_forall.
    intros x (y & -> & _)%list_elem_of_fmap. apply Hi.
Qed.

Lemma fetch_free_site_report fs root site_id :
  Forall (λ l, is_fetch l = false) (site_report fs root site_id).
Proof.
  unfold site_report. rewrite !Forall_app. split_and!.
  - by repeat constructor.
  - destruct (is_dir _ _); by repeat constructor.
  - by apply fetch_free_item_lines.
  - by apply fetch_free_item_lines.
Qed.

Lemma for_each_items root net (item : list N → log_line) l (body : list N → M unit) w :
  (∀ x w, fetch_item root net (item x) w = body x w) →
  for_each (map item l) (fetch_item root net) w = for_each l body w.
Proof.
  intros Hb. revert w. induction l as [|x l IH]; intros w; simpl; [done|].
  rewrite !bind_run, Hb. by destruct (body x w) as [[[]|e] w1].
Qed.

(** The analysis of a site is a phase. *)
Lemma analyse_site_phase root net site_id w :
  analyse_site root false net site_id w
  = for_each (filter (λ l, is_item l = true) (site_report (fs w) root site_id))
      (fetch_item root net)
      (World (fs w) (out w ++ site_report (fs w) root site_id)).
Proof.
  rewrite analyse_site_run, filter_items_site_report. cbn [negb].
  rewrite for_each_app, !bind_run.
  rewrite (for_each_items _ _ (LItemMjs site_id) _ (fetch_site_file root net site_id))
    by done.
  destruct (for_each _ (fetch_site_file root net site_id) _) as [[[]|e] w1]; [|done].
  by rewrite (for_each_items _ _ (LItemIdx site_id) _ (fetch_site_file root net site_id)).
Qed.

Lemma fetch_assets_phase root net l w :
  for_each l (fetch_asset root net) w
  = for_each (map LItemAsset l) (fetch_item root net) w.
Proof. by rewrite (for_each_items _ _ LItemAsset _ (fetch_asset root net)). Qed.

Section Phases.
Variables (root : list (list N)) (net : list N → response).
Variables (J : world → Prop) (Q : exn → world → Prop).

Hypothesis J_phase : ∀ w report,
    J w → Forall (λ l, is_fetch l = false) report →
    match for_each (filter (λ l, is_item l = true) report) (fetch_item root net)
            (World (fs w) (out w ++ report)) with
    | (Ret _, w') => J w'
    | (Raise e, w') => Q e w'
    end.

Lemma J_line l w :
    J w → is_item l = false → is_fetch l = false →
    J (World (fs w) (out w ++ [l])).
Proof.
  intros HJ Hi Hf. pose proof (J_phase w [l] HJ) as H.
  rewrite filter_cons_False in H by by rewrite Hi.
  apply H. by repeat constructor.
Qed.

Lemma phases_sites (l : list (list N)) w :
    J w →
    match for_each l (analyse_site root false net) w with
    | (Ret _, w') => J w'
    | (Raise e, w') => Q e w'
    end.
Proof.
  revert w. induction l as [|x l IH]; intros w HJ; simpl; [done|].
  rewrite bind_run, analyse_site_phase.
  pose proof (J_phase w _ HJ (fetch_free_site_report (fs w) root x)) as H.
  destruct (for_each _ (fetch_item root net) _) as [[[]|e] w1]; [|done].
  by apply IH.
Qed.

Lemma phases_main w :
    is_dir (fs w) root = true → J w →
    match main root false net w with
    | (Ret _, w') => J w'
    | (Raise e, w') => Q e w'
    end.
Proof.
  intros Hroot HJ. unfold main.
  rewrite bind_run. unfold reads at 1. rewrite Hroot. cbn [negb].
  rewrite bind_run. unfold log at 1.
  rewrite bind_run. unfold find_site_ids, reads at 1. cbn [fs out].
  rewrite bind_run.
  assert (∀ w', (if bool_decide (site_ids_in (fs w) root = ∅) then log LWarnNoIds
                 else log (LInfoIds (sorted (site_ids_in (fs w) root)))) w'
                = (Ret (), World (fs w') (out w' ++
                     [if bool_decide (site_ids_in (fs w) root = ∅) then LWarnNoIds
                      else LInfoIds (sorted (site_ids_in (fs w) root))]))) as ->.
  { intros w'. by destruct (bool_decide _). }
  cbn [fs out].
  assert (J (World (fs w) ((out w ++ [LInfoRoot root]) ++
            [if bool_decide (site_ids_in (fs w) root = ∅) then LWarnNoIds
             else LInfoIds (sorted (site_ids_in (fs w) root))]))) as HJ2.
  { apply (J_line _ (World (fs w) (out w ++ [LInfoRoot root]))).
    - by apply J_line.
    - by destruct (bool_decide _).
    - by destruct (bool_decide _). }
  revert HJ2. generalize (World (fs w) ((out w ++ [LInfoRoot root]) ++
            [if bool_decide (site_ids_in (fs w) root = ∅) then LWarnNoIds
             else LInfoIds (sorted (site_ids_in (fs w) root))])).
  generalize (sorted (site_ids_in (fs w) root)). clear HJ Hroot w.
  intros ids w HJ. rewrite bind_run.
  pose proof (phases_sites ids w HJ) as Hs.
  destruct (for_each ids _ w) as [[[]|e] w1]; [|done].
  rewrite bind_run. unfold log at 1. cbn [fs out].
  rewrite bind_run. unfold find_missing_assets, reads at 1. cbn [fs out].
  rewrite bind_run, item_lines_run. cbn [fs out negb].
  rewrite bind_run, fetch_assets_phase.
  pose proof (J_phase w1
    (LAssetsHeader :: item_lines LMissAssets LOkAssets LItemAsset
                        (missing_assets_in (fs w1) root)) Hs) as Ha.
  rewrite filter_cons_False in Ha by done.
  rewrite filter_items_item_lines in Ha by done.
  rewrite (cons_middle LAssetsHeader), app_assoc in Ha.
  destruct (for_each _ (fetch_item root net) _) as [[[]|e] w2].
  2:{ apply Ha. constructor; [done|]. by apply fetch_free_item_lines. }
  rewrite bind_run. unfold log. cbn [fs out].
  apply (J_line _ (World (fs w2) (out w2 ++ [LDone]))); [|done|done].
  apply J_line; [|done|done].
  apply Ha. constructor; [done|]. by apply fetch_free_item_lines.
Qed.
End Phases.

(** ** What a run requests *)

Lemma requests_app l1 l2 : requests (l1 ++ l2) = requests l1 ++ requests l2.
Proof. apply omap_app. Qed.

Lemma reported_app l1 l2 : reported (l1 ++ l2) = reported l1 ++ reported l2.
Proof. apply omap_app. Qed.

Lemma requests_cons l ls :
  requests (l :: ls) = match l with LGet url => url :: requests ls | _ => requests ls end.
Proof. by destruct l. Qed.

Lemma reported_cons l ls :
  reported (l :: ls) = match item_url l with
                       | Some url => url :: reported ls
                       | None => reported ls
                       end.
Proof. by destruct l. Qed.

Lemma requests_fetch_free report :
  Forall (λ l, is_fetch l = false) report → requests report = [].
Proof.
  induction 1 as [|l report Hl _ IH]; [done|].
  rewrite requests_cons, IH. by destruct l.
Qed.

Lemma reported_filter report :
  reported (filter (λ l, is_item l = true) report) = reported report.
Proof.
  induction report as [|l report IH]; [done|].
  destruct (is_item l) eqn:E.
  - rewrite filter_cons_True by done. by rewrite !reported_cons, IH.
  - rewrite filter_cons_False by by rewrite E.
    rewrite IH, reported_cons. by destruct l.
Qed.

(** The lines a download prints. *)
Lemma download_file_lines net url dest w :
  (download_file net url dest w).1 = Raise OSError ∧
    out (download_file net url dest w).2 = out w ∨
  (download_file net url dest w).1 = Ret () ∧
    ∃ r, out (download_file net url dest w).2 = out w ++ [LGet url; r] ∧
         (r = LOk dest ∨ is_error r = true).
Proof.
  destruct (download_file_cases net url dest w)
    as [[_ ->]|(_ & fs' & r & -> & Hr)]; [by left|right].
  split; [done|]. exists r. split; [done|].
  destruct Hr as [(_ & ? & _)|(b & _ & [[_ ->]|[[_ ->]|[_ ->]]])]; auto.
Qed.

(** The download loop of a phase requests its items one after the other,
    and stops at the first [mkdir] that raises. *)
Lemma fetch_items_requests root net lines w :
  Forall (λ l, is_item l = true) lines →
  reported (out (for_each lines (fetch_item root net) w).2) = reported (out w) ∧
  ∃ fetched rest,
    lines = fetched ++ rest ∧
    requests (out (for_each lines (fetch_item root net) w).2)
    = requests (out w) ++ reported fetched ∧
    ((for_each lines (fetch_item root net) w).1 = Ret () ∧ rest = [] ∨
     (for_each lines (fetch_item root net) w).1 = Raise OSError).
Proof.
  intros Hl. revert w. induction Hl as [|l lines Hi _ IH]; intros w.
  - split; [done|]. exists [], []. cbn [for_each]. unfold mret, M_ret.
    cbn [fst snd]. change (reported []) with (@nil (list N)).
    rewrite !app_nil_r. auto.
  - cbn [for_each]. rewrite bind_run.
    assert (∃ url dest, item_url l = Some url ∧
              fetch_item root net l = download_file net url dest)
      as (url & dest & Hu & ->) by (destruct l; try done; simpl; eauto).
    destruct (download_file_lines net url dest w) as [[Ho Hout]|(Ho & r & Hout & Hr)];
      destruct (download_file net url dest w) as [o w1]; cbn [fst snd] in *; subst o.
    + cbn [fst snd]. rewrite Hout. split; [done|]. exists [], (l :: lines).
      change (reported []) with (@nil (list N)). rewrite app_nil_r. auto.
    + destruct (IH w1) as (Hrep & fetched & rest & -> & Hreq & Hend).
      rewrite Hrep, Hout, reported_app. split.
      { destruct Hr as [->|Hr]; [by rewrite app_nil_r|].
        destruct r; try done; by rewrite app_nil_r. }
      exists (l :: fetched), rest. split; [done|]. split; [|done].
      rewrite Hreq, Hout, requests_app, reported_cons, Hu.
      rewrite <- app_assoc. f_equal.
      destruct Hr as [->|Hr]; [done|]. by destruct r.
Qed.

(** Up to any point of a run, the requests made are the first of the items
    reported; they are all of them when the run returns. *)
Lemma main_requests root net w :
  is_dir (fs w) root = true →
  requests (out w) = reported (out w) →
  match main root false net w with
  | (Ret _, w') => requests (out w') = reported (out w')
  | (Raise e, w') => e = OSError ∧ requests (out w') `prefix_of` reported (out w')
  end.
Proof.
  intros Hroot HJ.
  apply (phases_main root net (λ w, requests (out w) = reported (out w))
           (λ e w, e = OSError ∧ requests (out w) `prefix_of` reported (out w)));
    [|done|done].
  clear. intros w report HJ Hff.
  destruct (fetch_items_requests root net
              (filter (λ l, is_item l = true) report)
              (World (fs w) (out w ++ report)))
    as (Hrep & fetched & rest & Hl & Hreq & Hend).
  { apply Forall_forall. by intros l [? _]%list_elem_of_filter. }
  destruct (for_each _ _ _) as [o w']. cbn [fst snd out] in *.
  rewrite requests_app, (requests_fetch_free _ Hff), app_nil_r in Hreq.
  rewrite reported_app, <- (reported_filter report), Hl, reported_app in Hrep.
  rewrite Hrep, Hreq, HJ.
  destruct Hend as [[-> ->]| ->].
  - by rewrite app_nil_r.
  - split; [done|]. apply prefix_app, prefix_app_r. done.
Qed.

(** A run raises nothing but the [OSError] of a [mkdir]. *)
Lemma main_raises root net w :
  is_dir (fs w) root = true →
  (main root false net w).1 = Ret () ∨ (main root false net w).1 = Raise OSError.
Proof.
  intros Hroot.
  pose proof (phases_main root net (λ _, True) (λ e _, e = OSError)) as H.
  specialize (H ltac:(
    clear; intros w report _ _;
    destruct (fetch_items_requests root net
                (filter (λ l, is_item l = true) report)
                (World (fs w) (out w ++ report)))
      as (_ & fetched & rest & _ & _ & Hend);
    [apply Forall_forall; by intros l [? _]%list_elem_of_filter|];
    destruct (for_each _ _ _) as [[[]|e] w']; [done|];
    destruct Hend as [[? _]|[= ->]]; done) w Hroot I).
  destruct (main root false net w) as [[[]|e] w']; cbn [fst]; [by left|].
  right. by rewrite H.
Qed.

(** ** What a run writes *)

Lemma files_accounted_mono root fs0 fs ls ls' :
  files_accounted root fs0 fs ls → (∀ l, l ∈ ls → l ∈ ls') →
  files_accounted root fs0 fs ls'.
Proof.
  intros H Hsub q t Hq. destruct (H q t Hq) as [?|(line & dest & ? & ? & ?)]; [by left|].
  right. exists line, dest. auto.
Qed.

Lemma files_accounted_mkdir root fs0 fs cur P ls :
  files_accounted root fs0 fs ls →
  files_accounted root fs0 (mkdir_from fs cur P).1 ls.
Proof.
  intros H q t [Hq|[_ [=]]]%mkdir_from_new.
  destruct (H q t Hq) as [?|(line & dest & ? & ? & Hw)]; [by left|].
  right. exists line, dest. split_and!; [done|done|].
  eapply grows_walk; [apply mkdir_from_grows|done].
Qed.

Lemma files_accounted_write root fs0 fs dest b fs' ls line :
  files_accounted root fs0 fs ls →
  line ∈ ls → item_dest root line = Some dest →
  write_file fs dest b = Some fs' →
  files_accounted root fs0 fs' ls.
Proof.
  intros H Hl Hd Hw. pose proof (write_file_grows _ _ _ _ Hw) as Hg.
  apply write_file_at in Hw as (qd & n & Hwalk & -> & _).
  intros q t Hq. destruct (decide (qd ++ [n] = q)) as [<-|Hne].
  - right. by exists line, dest.
  - rewrite lookup_insert_ne in Hq by done.
    destruct (H q t Hq) as [?|(line' & dest' & ? & ? & Hw')]; [by left|].
    right. exists line', dest'. split_and!; [done|done|].
    by eapply grows_walk.
Qed.

(** A download writes at most at its destination. *)
Lemma files_accounted_download root net fs0 url dest line w :
  line ∈ out w → item_dest root line = Some dest →
  files_accounted root fs0 (fs w) (out w) →
  files_accounted root fs0 (fs (download_file net url dest w).2)
    (out (download_file net url dest w).2) ∧
  (∀ l, l ∈ out w → l ∈ out (download_file net url dest w).2).
Proof.
  intros Hl Hd H.
  destruct (download_file_cases net url dest w)
    as [[_ ->]|(_ & fs' & r & -> & Hr)]; cbn [fst snd fs out].
  - split; [|done]. by apply files_accounted_mkdir.
  - split; [|intros l ?; apply elem_of_app; by left].
    apply (files_accounted_mono root fs0 fs' (out w));
      [|intros l ?; apply elem_of_app; by left].
    destruct Hr as [(-> & _)|(b & Hw & _)].
    + by apply files_accounted_mkdir.
    + eapply files_accounted_write; [|done|done|done].
      by apply files_accounted_mkdir.
Qed.

Lemma files_accounted_fetch root net fs0 lines w :
  (∀ l, l ∈ lines → l ∈ out w) →
  files_accounted root fs0 (fs w) (out w) →
  files_accounted root fs0 (fs (for_each lines (fetch_item root net) w).2)
    (out (for_each lines (fetch_item root net) w).2).
Proof.
  revert w. induction lines as [|l lines IH]; intros w Hin H; [done|].
  cbn [for_each]. rewrite bind_run.
  assert (l ∈ out w) as Hl by (apply Hin; by left).
  destruct (item_dest root l) as [dest|] eqn:Hd.
  - assert (∃ url, fetch_item root net l = download_file net url dest)
      as [url ->].
    { unfold fetch_item. rewrite Hd. destruct l; try done; eauto. }
    destruct (files_accounted_download root net fs0 url dest l w Hl Hd H)
      as [H1 Hsub].
    destruct (download_file net url dest w) as [[[]|e] w1]; [|done].
    apply IH; [|done]. intros l' Hl'. apply Hsub, Hin. by right.
  - assert (fetch_item root net l = mret ()) as ->.
    { unfold fetch_item. rewrite Hd. by destruct (item_url l). }
    apply IH; [|done]. intros l' Hl'. apply Hin. by right.
Qed.

Lemma main_files root net fs0 w :
  is_dir (fs w) root = true →
  files_accounted root fs0 (fs w) (out w) →
  files_accounted root fs0 (fs (main root false net w).2)
    (out (main root false net w).2).
Proof.
  intros Hroot HJ.
  assert (∀ w report,
    files_accounted root fs0 (fs w) (out w) →
    files_accounted root fs0
      (fs (for_each (filter (λ l, is_item l = true) report) (fetch_item root net)
             (World (fs w) (out w ++ report))).2)
      (out (for_each (filter (λ l, is_item l = true) report) (fetch_item root net)
             (World (fs w) (out w ++ report))).2)) as Hphase.
  { clear. intros w report HJ. apply files_accounted_fetch; cbn [fs out].
    - intros l [_ ?]%list_elem_of_filter. apply elem_of_app. by right.
    - eapply files_accounted_mono; [exact HJ|].
      intros l ?. apply elem_of_app. by left. }
  pose proof (phases_main root net
                (λ w, files_accounted root fs0 (fs w) (out w))
                (λ _ w, files_accounted root fs0 (fs w) (out w))) as H.
  specialize (H ltac:(
    intros w1 report HJ1 _; specialize (Hphase w1 report HJ1);
    by destruct (for_each _ _ _) as [[[]|e] w']) w Hroot HJ).
  by destruct (main root false net w) as [[[]|e] w'].
Qed.

(** ** A mirror that lacks nothing *)

Lemma analyse_site_complete root net site_id w :
  missing_mjs_of (fs w) root site_id = [] →
  missing_indexes_in (fs w) root site_id = [] →
  analyse_site root false net site_id w
  = (Ret (), World (fs w) (out w ++ site_report (fs w) root site_id)).
Proof. intros H1 H2. by rewrite analyse_site_run, H1, H2. Qed.

Lemma sites_complete root net fs0 ids o :
  Forall (λ id, missing_mjs_of fs0 root id = [] ∧
                missing_indexes_in fs0 root id = []) ids →
  for_each ids (analyse_site root false net) (World fs0 o)
  = (Ret (), World fs0 (o ++ concat (map (site_report fs0 root) ids))).
Proof.
  intros H. revert o. induction H as [|id ids [H1 H2] _ IH]; intros o; simpl.
  - by rewrite app_nil_r.
  - rewrite bind_run, analyse_site_complete by done. cbn [fs out].
    by rewrite IH, <- app_assoc.
Qed.

Lemma main_complete root net w :
  is_dir (fs w) root = true →
  Forall (λ id, missing_mjs_of (fs w) root id = [] ∧
                missing_indexes_in (fs w) root id = [])
         (sorted (site_ids_in (fs w) root)) →
  missing_assets_in (fs w) root = [] →
  ∃ report, Forall (λ l, is_fetch l = false ∧ is_item l = false) report ∧
    main root false net w = (Ret (), World (fs w) (out w ++ report)).
Proof.
  intros Hroot Hsites Hassets. unfold main.
  rewrite bind_run. unfold reads at 1. rewrite Hroot. cbn [negb].
  rewrite bind_run. unfold log at 1.
  rewrite bind_run. unfold find_site_ids, reads at 1. cbn [fs out].
  rewrite bind_run.
  assert (∀ w', (if bool_decide (site_ids_in (fs w) root = ∅) then log LWarnNoIds
                 else log (LInfoIds (sorted (site_ids_in (fs w) root)))) w'
                = (Ret (), World (fs w') (out w' ++
                     [if bool_decide (site_ids_in (fs w) root = ∅) then LWarnNoIds
                      else LInfoIds (sorted (site_ids_in (fs w) root))]))) as ->.
  { intros w'. by destruct (bool_decide _). }
  cbn [fs out].
  rewrite bind_run, sites_complete by done.
  rewrite bind_run. unfold log at 1. cbn [fs out].
  rewrite bind_run. unfold find_missing_assets, reads at 1. cbn [fs out].
  rewrite bind_run, item_lines_run. cbn [fs out negb].
  rewrite Hassets. cbn [for_each].
  rewrite bind_run. unfold mret, M_ret. cbn [fs out].
  rewrite bind_run. unfold log. cbn [fs out].
  eexists. split; [|by rewrite <- !app_assoc].
  rewrite !Forall_app. split_and!; try (by repeat constructor).
  - repeat constructor; by destruct (bool_decide _).
  - apply Forall_concat, Forall_fmap, Forall_forall. intros id Hid. simpl.
    rewrite Forall_forall in Hsites. destruct (Hsites id Hid) as [H1 H2].
    unfold site_report. rewrite H1, H2. rewrite !Forall_app. split_and!.
    + by repeat constructor.
    + destruct (is_dir (fs w) (root // cps "sites" // id)); by repeat constructor.
    + by repeat constructor.
    + by repeat constructor.
Qed.

(** ** The sites a run analyses *)

Lemma analysed_app l1 l2 : analysed (l1 ++ l2) = analysed l1 ++ analysed l2.
Proof. apply omap_app. Qed.

Lemma analysed_cons l ls :
  analysed (l :: ls) = match l with
                       | LAnalysis site_id => site_id :: analysed ls
                       | _ => analysed ls
                       end.
Proof. by destruct l. Qed.

Lemma analysed_none ls :
  Forall (λ l, ∀ site_id, l ≠ LAnalysis site_id) ls → analysed ls = [].
Proof.
  induction 1 as [|l ls Hl _ IH]; [done|].
  rewrite analysed_cons, IH. destruct l; try done. by destruct (Hl site_id).
Qed.

Lemma analysed_item_lines header ok (item : list N → log_line) l :
  (∀ site_id, header ≠ LAnalysis site_id) → (∀ site_id, ok ≠ LAnalysis site_id) →
  (∀ x site_id, item x ≠ LAnalysis site_id) →
  analysed (item_lines header ok item l) = [].
Proof.
  intros Hh Ho Hi. apply analysed_none. unfold item_lines. case_bool_decide.
  - by repeat constructor.
  - constructor; [done|]. apply Forall_forall.
    intros x (y & -> & _)%list_elem_of_fmap. apply Hi.
Qed.

Lemma analysed_site_report fs root site_id :
  analysed (site_report fs root site_id) = [site_id].
Proof.
  unfold site_report. rewrite !analysed_app, !analysed_item_lines by done.
  by destruct (is_dir _ _).
Qed.

(** The download loop of a phase prints no header line. *)
Lemma fetch_items_analysed root net lines w :
  analysed (out (for_each lines (fetch_item root net) w).2) = analysed (out w).
Proof.
  revert w. induction lines as [|l lines IH]; intros w; [done|].
  cbn [for_each]. rewrite bind_run.
  assert (fetch_item root net l = mret () ∨
          ∃ url dest, fetch_item root net l = download_file net url dest)
    as [->|(url & dest & ->)].
  { unfold fetch_item. destruct (item_url l), (item_dest root l); eauto. }
  - apply IH.
  - destruct (download_file_lines net url dest w) as [[Ho Hout]|(Ho & r & Hout & Hr)];
      destruct (download_file net url dest w) as [o w1]; cbn [fst snd] in *; subst o.
    + cbn [snd]. by rewrite Hout.
    + rewrite IH, Hout, analysed_app, !analysed_cons.
      destruct Hr as [->|Hr]; [by rewrite app_nil_r|].
      destruct r; try done; by rewrite app_nil_r.
Qed.

Lemma sites_analysed root net ids w :
  ∃ k, analysed (out (for_each ids (analyse_site root false net) w).2)
       = analysed (out w) ++ take k ids ∧
       ((for_each ids (analyse_site root false net) w).1 = Ret () → k = length ids).
Proof.
  revert w. induction ids as [|id ids IH]; intros w.
  - exists O. cbn [for_each]. unfold mret, M_ret. cbn [fst snd take].
    by rewrite app_nil_r.
  - cbn [for_each]. rewrite bind_run.
    pose proof (fetch_items_analysed root net
                  (filter (λ l, is_item l = true) (site_report (fs w) root id))
                  (World (fs w) (out w ++ site_report (fs w) root id))) as Ha.
    rewrite <- analyse_site_phase in Ha. cbn [out] in Ha.
    rewrite analysed_app, analysed_site_report in Ha.
    destruct (analyse_site root false net id w) as [[[]|e] w1]; cbn [fst snd] in *.
    + destruct (IH w1) as (k & Hk & Hret). exists (S k). rewrite Hk, Ha.
      cbn [take length]. rewrite <- app_assoc. split; [done|]. intros ?. f_equal. auto.
    + exists 1%nat. cbn [take]. rewrite take_0. split; [done|]. by intros [=].
Qed.

Lemma main_analysed root net w :
  is_dir (fs w) root = true →
  match main root false net w with
  | (o, w') =>
      ∃ k, analysed (out w')
           = analysed (out w) ++ take k (sorted (site_ids_in (fs w) root)) ∧
           (o = Ret () → k = length (sorted (site_ids_in (fs w) root)))
  end.
Proof.
  intros Hroot. unfold main.
  rewrite bind_run. unfold reads at 1. rewrite Hroot. cbn [negb].
  rewrite bind_run. unfold log at 1.
  rewrite bind_run. unfold find_site_ids, reads at 1. cbn [fs out].
  rewrite bind_run.
  assert (∀ w', (if bool_decide (site_ids_in (fs w) root = ∅) then log LWarnNoIds
                 else log (LInfoIds (sorted (site_ids_in (fs w) root)))) w'
                = (Ret (), World (fs w') (out w' ++
                     [if bool_decide (site_ids_in (fs w) root = ∅) then LWarnNoIds
                      else LInfoIds (sorted (site_ids_in (fs w) root))]))) as ->.
  { intros w'. by destruct (bool_decide _). }
  cbn [fs out].
  set (w1 := World (fs w) ((out w ++ [LInfoRoot root]) ++
            [if bool_decide (site_ids_in (fs w) root = ∅) then LWarnNoIds
             else LInfoIds (sorted (site_ids_in (fs w) root))])).
  assert (analysed (out w1) = analysed (out w)) as Hstart.
  { unfold w1. cbn [out]. rewrite !analysed_app.
    destruct (bool_decide _); by rewrite !app_nil_r. }
  clearbody w1. revert Hstart.
  generalize (sorted (site_ids_in (fs w) root)). generalize (analysed (out w)).
  clear Hroot w. intros A ids <-. rename w1 into w.
  rewrite bind_run. destruct (sites_analysed root net ids w) as (k & Hk & Hret).
  destruct (for_each ids _ w) as [[[]|e] w1]; cbn [fst snd] in *.
  2:{ exists k. split; [done|]. by intros [=]. }
  rewrite bind_run. unfold log at 1. cbn [fs out].
  rewrite bind_run. unfold find_missing_assets, reads at 1. cbn [fs out].
  rewrite bind_run, item_lines_run. cbn [fs out negb].
  rewrite bind_run, fetch_assets_phase.
  pose proof (fetch_items_analysed root net
                (map LItemAsset (missing_assets_in (fs w1) root))
                (World (fs w1) ((out w1 ++ [LAssetsHeader]) ++
                   item_lines LMissAssets LOkAssets LItemAsset
                     (missing_assets_in (fs w1) root)))) as Ha.
  cbn [out] in Ha. rewrite !analysed_app, analysed_item_lines in Ha by done.
  change (analysed [LAssetsHeader]) with (@nil (list N)) in Ha.
  rewrite !app_nil_r in Ha.
  destruct (for_each _ (fetch_item root net) _) as [[[]|e] w2]; cbn [fst snd] in *.
  2:{ exists k. rewrite Ha, Hk. split; [done|]. by intros [=]. }
  rewrite bind_run. unfold log. cbn [fs out snd].
  exists k. rewrite !analysed_app, !app_nil_r, Ha, Hk. split; [done|]. auto.
Qed.

(** * Properties of the script *)

(** C5: a dry run leaves the file system as it found it, whatever the tree
    and however many items are missing; and its output reports exactly the
    items the detection functions find on that tree. *)
Theorem dry_run_changes_nothing root net fs0 :
  fs (main root true net (World fs0 [])).2 = fs0 ∧
  (∀ id f, LItemMjs id f ∈ out (main root true net (World fs0 [])).2 ↔
     is_dir fs0 root = true ∧ id ∈ site_ids_in fs0 root ∧
     f ∈ missing_mjs_of fs0 root id) ∧
  (∀ id f, LItemIdx id f ∈ out (main root true net (World fs0 [])).2 ↔
     is_dir fs0 root = true ∧ id ∈ site_ids_in fs0 root ∧
     f ∈ missing_indexes_in fs0 root id) ∧
  (∀ name, LItemAsset name ∈ out (main root true net (World fs0 [])).2 ↔
     is_dir fs0 root = true ∧ name ∈ missing_assets_in fs0 root).
Proof.
  destruct (is_dir fs0 root) eqn:Hroot.
  - rewrite main_dry by done. cbn [fs out fst snd app]. split_and!; [done| | |].
    + intros id f. rewrite item_mjs_dry_report. tauto.
    + intros id f. rewrite item_idx_dry_report. tauto.
    + intros name. rewrite item_asset_dry_report. tauto.
  - rewrite main_no_root by done. cbn [fs out fst snd app]. split_and!; [done| | |];
      intros; rewrite list_elem_of_singleton; split; (done || by intros [? _]).
Qed.









Lemma asset_exts_length : Forall (λ e : list N, (3 ≤ length e)%nat) asset_exts.
Proof. unfold asset_exts. repeat constructor. Qed.

Lemma joinpath_assets root : root // cps "assets" = root ++ [cps "assets"].
Proof. reflexivity. Qed.

Lemma missing_asset_referenced fs root name :
  name ∈ missing_assets_in fs root → ∃ text, name ∈ findall asset_pattern text.
Proof.
  intros (Hn & _)%elem_of_missing_assets_in.
  apply elem_of_asset_names_in in Hn as (text & _ & Hn). eauto.
Qed.

Lemma asset_dest root name text :
  name ∈ findall asset_pattern text →
  root // cps "assets" // name = root ++ [cps "assets"; name].
Proof.
  intros Hn. rewrite (asset_name_component _ _ _ Hn), joinpath_assets.
  by rewrite <- app_assoc.
Qed.

(** A name the asset pattern captures is an ordinary name. *)
Lemma asset_name_valid name text :
  name ∈ findall asset_pattern text → valid_name name = true.
Proof.
  intros Hn. pose proof (asset_name_class _ _ Hn) as Hc.
  apply asset_name_shape in Hn as (stem & ext & -> & Hs & _ & He).
  pose proof asset_exts_length as Hlen. rewrite Forall_forall in Hlen.
  specialize (Hlen ext He).
  unfold valid_name. rewrite !andb_true_iff, !negb_true_iff, !bool_decide_eq_false.
  split_and!.
  - by destruct stem.
  - intros E%(f_equal length). rewrite length_app in E. simpl in E. lia.
  - intros E%(f_equal length). rewrite length_app in E. simpl in E. lia.
  - rewrite forallb_forall in Hc. intros Hin%list_elem_of_In%Hc.
    by apply cls_asset_no_slash in Hin.
Qed.

(** The download of one asset changes the tree at [<root>/assets] and at
    [<root>/assets/<name>], and nowhere else. *)
Lemma fetch_asset_changes root net name text w q :
  name ∈ findall asset_pattern text →
  walk (fs w) [] root = Some root →
  fs (fetch_asset root net name w).2 !! q ≠ fs w !! q →
  q = root ++ [cps "assets"] ∨ q = root ++ [cps "assets"; name].
Proof.
  intros Hn Hroot. unfold fetch_asset. rewrite (asset_dest root _ _ Hn).
  assert (DOTDOT ∉ root) as Hnr.
  { apply (walk_no_dotdot _ _ _ _ Hroot). by intros ?%elem_of_nil. }
  destruct (walk_plain _ _ _ _ Hnr Hroot) as [_ Hex].
  assert (DOTDOT ∉ root ++ [cps "assets"; name]) as Hnd.
  { rewrite elem_of_app, !elem_of_cons.
    intros [?|[?|[<-|[]%elem_of_nil]]]; [done|done|].
    apply asset_name_valid in Hn. by vm_compute in Hn. }
  intros (k & Hk & -> & Hnew)%download_file_plain; [|done].
  rewrite !length_app in Hk, Hnew. cbn [length] in Hk, Hnew.
  destruct (decide (k ≤ length root)%nat) as [Hle|Hgt].
  - exfalso. rewrite take_app_le in Hnew by done.
    destruct (Hex k) as [n Hn']; [lia|]. cbn [app] in Hn'.
    rewrite Hnew in Hn' by lia. done.
  - rewrite take_app_ge by lia.
    destruct (k - length root)%nat as [|[|[|j]]] eqn:Hj; [lia|by left|by right|lia].
Qed.

(** The download loop of the assets, over names the pattern captured. *)
Lemma fetch_assets_changes root net l w q :
  (∀ name, name ∈ l → ∃ text, name ∈ findall asset_pattern text) →
  walk (fs w) [] root = Some root →
  fs (for_each l (fetch_asset root net) w).2 !! q ≠ fs w !! q →
  q = root ++ [cps "assets"] ∨ ∃ name, name ∈ l ∧ q = root ++ [cps "assets"; name].
Proof.
  revert w. induction l as [|x l IH]; intros w Hl Hroot; cbn [for_each].
  { intros H. by destruct H. }
  rewrite bind_run.
  destruct (Hl x ltac:(by left)) as [text Hx].
  pose proof (fetch_asset_changes root net x text w q Hx Hroot) as H1.
  destruct (fetch_asset root net x w) as [[[]|e] w1] eqn:Hrun; cbn [snd] in *.
  - destruct (decide (fs w1 !! q = fs w !! q)) as [E|Hne].
    + rewrite <- E. intros Hq. apply IH in Hq as [?|(name & ? & ?)].
      * by left.
      * right. exists name. split; [by right|done].
      * intros; apply Hl; by right.
      * unfold fetch_asset in Hrun. apply download_file_effect in Hrun as [Hg _].
        by eapply grows_walk.
    + intros _. destruct (H1 Hne) as [?|?]; [by left|].
      right. exists x. split; [by left|done].
  - intros Hne. destruct (H1 Hne) as [?|?]; [by left|].
    right. exists x. split; [by left|done].
Qed.

(** C10: the names asset detection collects are made of the characters of
    the class (none of them a path separator), end in a dot and one of the
    fixed extensions and are single, ordinary path components; and the
    download loop over such names, on a resolved root, changes the tree at
    [<root>/assets] and at the entries [<root>/assets/<name>] directly
    inside it, and at no other path. *)
Theorem asset_destination_inside_assets fsd root net l w :
  (∀ name, name ∈ l → name ∈ asset_names_in fsd root) →
  walk (fs w) [] root = Some root →
  (∀ name, name ∈ l →
     forallb cls_asset name = true ∧ valid_name name = true ∧
     (∃ stem ext, name = stem ++ DOT :: ext ∧ stem ≠ [] ∧ ext ∈ asset_exts) ∧
     root // cps "assets" // name = root ++ [cps "assets"; name]) ∧
  (∀ q, fs (for_each l (fetch_asset root net) w).2 !! q ≠ fs w !! q →
     q = root ++ [cps "assets"] ∨
     ∃ name, name ∈ l ∧ q = root ++ [cps "assets"; name]).
Proof.
  intros Hl Hroot.
  assert (∀ name, name ∈ l → ∃ text, name ∈ findall asset_pattern text) as Hl'.
  { intros name (text & _ & Hn)%Hl%elem_of_asset_names_in. eauto. }
  split.
  - intros name [text Hn]%Hl'. split_and!.
    + by eapply asset_name_class.
    + by eapply asset_name_valid.
    + apply asset_name_shape in Hn as (stem & ext & -> & Hs & _ & He). eauto.
    + by eapply asset_dest.
  - intros q. by apply fetch_assets_changes.
Qed.

Lemma asset_destination_inside_assets_witness :
  cps "logo123.png" ∈ asset_names_in fs_logo ex_root ∧
  walk fs_logo [] ex_root = Some ex_root ∧
  fs_logo !! (ex_root ++ [cps "assets"; cps "logo123.png"]) = None ∧
  fs (for_each [cps "logo123.png"] (fetch_asset ex_root net_plain) (World fs_logo [])).2
    !! (ex_root ++ [cps "assets"; cps "logo123.png"])
  = Some (File (Some (cps "export {}"))) ∧
  (ex_root ++ [cps "assets"; cps "logo123.png"] = ex_root ++ [cps "assets"] ∨
   ∃ name, name ∈ [cps "logo123.png"] ∧
           ex_root ++ [cps "assets"; cps "logo123.png"]
           = ex_root ++ [cps "assets"; name]).
Proof.
  assert (cps "logo123.png" ∈ asset_names_in fs_logo ex_root) as Hn.
  { apply elem_of_elements, list_elem_of_In. vm_compute. auto. }
  assert (walk fs_logo [] ex_root = Some ex_root) as Hroot
    by (vm_compute; reflexivity).
  assert (fs_logo !! (ex_root ++ [cps "assets"; cps "logo123.png"]) = None) as Hold
    by (vm_compute; reflexivity).
  assert (fs (for_each [cps "logo123.png"] (fetch_asset ex_root net_plain)
                (World fs_logo [])).2
            !! (ex_root ++ [cps "assets"; cps "logo123.png"])
          = Some (File (Some (cps "export {}")))) as Hnew by (vm_compute; reflexivity).
  split_and!; [exact Hn|exact Hroot|exact Hold|exact Hnew|].
  apply (asset_destination_inside_assets fs_logo ex_root net_plain
           [cps "logo123.png"] (World fs_logo [])).
  - by intros name ->%list_elem_of_singleton.
  - exact Hroot.
  - cbn [fs]. rewrite Hnew, Hold. discriminate.
Defined.

(** C4 as amended: search-index detection reads the files below the root
    whose extension is .html, .htm, .js or .mjs (not .json), looks for
    remote references [https://framerusercontent.com/sites/<id>/searchIndex-....json]
    and returns, sorted and without duplicates, the referenced names that
    are absent from [sites/<id>/]; it prints nothing. *)
Theorem search_index_detection root site_id w :
  ∃ l, find_missing_search_indexes root site_id w = (Ret l, w) ∧
    StronglySorted str_le l ∧ NoDup l ∧
    (∀ name, name ∈ l ↔
       (∃ text, scanned exts_indexes (fs w) root text ∧
                name ∈ findall (index_pattern site_id) text) ∧
       exists_ (fs w) (root // cps "sites" // site_id // name) = false) ∧
    (∀ name, name ∈ l →
       ∃ sfx, name = cps "searchIndex-" ++ sfx ++ cps ".json" ∧ sfx ≠ []).
Proof.
  exists (missing_indexes_in (fs w) root site_id). split_and!.
  - done.
  - apply StronglySorted_filter, StronglySorted_sorted.
  - apply NoDup_filter, NoDup_sorted.
  - intros name. by rewrite elem_of_missing_indexes_in, elem_of_indexes_in.
  - intros name (Hn & _)%elem_of_missing_indexes_in.
    apply elem_of_indexes_in in Hn as (text & _ & Hn).
    apply index_name_shape in Hn as (sfx & -> & Hs & _). eauto.
Qed.

(** C4 as stated fails: a reference in a [.json] file, which identifier
    discovery reads, is not seen by search-index detection. *)
Lemma search_index_detection_skips_json :
  scanned exts_site_ids fs_json_ref ex_root text_index_ref ∧
  cps "abc123" ∈ site_ids_in fs_json_ref ex_root ∧
  cps "searchIndex-x.json" ∈ findall (index_pattern (cps "abc123")) text_index_ref ∧
  exists_ fs_json_ref (ex_root // cps "sites" // cps "abc123" // cps "searchIndex-x.json")
  = false ∧
  find_missing_search_indexes ex_root (cps "abc123") (World fs_json_ref [])
  = (Ret [], World fs_json_ref []).
Proof.
  split_and!.
  - exists (ex_root ++ [cps "data.json"]). split; [|vm_compute; reflexivity].
    apply list_elem_of_In. vm_compute. auto.
  - apply elem_of_elements, list_elem_of_In. vm_compute. auto.
  - apply list_elem_of_In. vm_compute. auto.
  - vm_compute; reflexivity.
  - vm_compute; reflexivity.
Qed.

(** Writing a new entry of a directory. *)
Lemma write_file_new fs D n body :
  walk fs [] D = Some D → is_dir_at fs D = true → n ≠ DOTDOT →
  fs !! (D ++ [n]) ≠ Some Dir →
  write_file fs (D ++ [n]) body
  = Some (<[D ++ [n] := File (Some (decode body))]> fs).
Proof.
  intros HD Hd Hn Hfree. unfold write_file.
  rewrite parent_snoc, name_snoc, HD, Hd.
  rewrite !bool_decide_eq_false_2 by (done || by destruct D).
  cbn [negb andb]. rewrite node_at_snoc.
  by destruct (fs !! (D ++ [n])) as [[|t]|].
Qed.

(** The download of one asset into a tree where nothing stands in its way:
    it returns after two lines, [<root>/assets] is a directory afterwards,
    and a body the server sends whole is in [<root>/assets/<name>]. *)
Lemma fetch_asset_run root net name text fs0 out0 :
  name ∈ findall asset_pattern text →
  walk fs0 [] root = Some root → is_dir fs0 root = true →
  (∀ t, fs0 !! (root ++ [cps "assets"]) ≠ Some (File t)) →
  fs0 !! (root ++ [cps "assets"; name]) ≠ Some Dir →
  ∃ fs1 r,
    fetch_asset root net name (World fs0 out0)
    = (Ret (), World fs1 (out0 ++ [LGet (FRAMER_CDN ++ cps "/assets/" ++ name); r])) ∧
    fs1 !! (root ++ [cps "assets"]) = Some Dir ∧
    (∀ q, q ≠ root ++ [cps "assets"] → q ≠ root ++ [cps "assets"; name] →
          fs1 !! q = fs0 !! q) ∧
    (∀ b, net (FRAMER_CDN ++ cps "/assets/" ++ name) = Body b →
          r = LOk (root ++ [cps "assets"; name]) ∧
          fs1 !! (root ++ [cps "assets"; name]) = Some (File (Some (decode b)))).
Proof.
  intros Hn Hroot Hdir Hnofile Hfree.
  assert (is_dir_at fs0 root = true) as Hdir_at.
  { unfold is_dir, stat in Hdir. rewrite Hroot in Hdir. exact Hdir. }
  assert (name ≠ DOTDOT) as Hname.
  { apply asset_name_valid in Hn. intros ->. by vm_compute in Hn. }
  unfold fetch_asset. rewrite (asset_dest root _ _ Hn).
  set (url := FRAMER_CDN ++ cps "/assets/" ++ name).
  set (adir := root ++ [cps "assets"]) in *.
  replace (root ++ [cps "assets"; name]) with (adir ++ [name]) in *
    by (unfold adir; by rewrite <- app_assoc).
  unfold download_file. rewrite bind_run. unfold mkdir at 1, mkdir_parents.
  rewrite parent_snoc. unfold adir at 1. cbn [fs out].
  rewrite (mkdir_from_walk fs0 [] root root [cps "assets"] Hroot Hdir_at).
  cbn [mkdir_from]. rewrite bool_decide_eq_false_2 by discriminate.
  rewrite node_at_snoc. fold adir.
  (* the steps after [mkdir], from a tree [fsd] in which [assets] is a
     directory *)
  assert (∀ fsd,
    (∀ q, q ≠ adir → fsd !! q = fs0 !! q) → grows fs0 fsd →
    fsd !! adir = Some Dir →
    ∃ fs1 r,
      (log (LGet url) ≫= λ _,
         match net url with
         | Body b => store (adir ++ [name]) b ≫= λ written : bool,
                       if written then log (LOk (adir ++ [name])) else log (LErrFail url)
         | Truncated b => store (adir ++ [name]) b ≫= λ written : bool,
                       if written then log (LErrURL url) else log (LErrFail url)
         | Broken b => store (adir ++ [name]) b ≫= λ _, log (LErrFail url)
         | HTTPError code => log (LErrHTTP code url)
         | URLError => log (LErrURL url)
         | OtherError => log (LErrFail url)
         end) (World fsd out0)
      = (Ret (), World fs1 (out0 ++ [LGet url; r])) ∧
      fs1 !! adir = Some Dir ∧
      (∀ q, q ≠ adir → q ≠ adir ++ [name] → fs1 !! q = fs0 !! q) ∧
      (∀ b, net url = Body b →
            r = LOk (adir ++ [name]) ∧
            fs1 !! (adir ++ [name]) = Some (File (Some (decode b))))) as Hrest.
  { intros fsd Hsame Hg Hadir. rewrite bind_run. unfold log at 1. cbn [fs out].
    assert (adir ≠ adir ++ [name]) as Hne.
    { intros E%(f_equal length). rewrite length_app in E. simpl in E. lia. }
    assert (∀ b, write_file fsd (adir ++ [name]) b
                 = Some (<[adir ++ [name] := File (Some (decode b))]> fsd)) as Hwrite.
    { intros b. apply write_file_new; [| |done|].
      - unfold adir. rewrite walk_app, (grows_walk _ _ _ _ _ Hg Hroot).
        cbn [mbind option_bind walk].
        rewrite (grows_is_dir_at _ _ _ Hg Hdir_at).
        rewrite bool_decide_eq_false_2 by discriminate.
        rewrite node_at_snoc. fold adir. by rewrite Hadir.
      - unfold is_dir_at. apply bool_decide_eq_true.
        unfold adir. rewrite node_at_snoc. exact Hadir.
      - rewrite Hsame by (by intros E; apply Hne). exact Hfree. }
    assert (∀ b r, ∃ fs1 r',
              (Ret (), World (<[adir ++ [name] := File (Some (decode b))]> fsd)
                         ((out0 ++ [LGet url]) ++ [r]))
              = (Ret (), World fs1 (out0 ++ [LGet url; r'])) ∧ r' = r ∧
              fs1 = <[adir ++ [name] := File (Some (decode b))]> fsd) as Hstored.
    { intros b r. eexists _, r. by rewrite <- app_assoc. }
    assert (∀ r, (∀ b, net url ≠ Body b) →
              ∃ fs1 r',
                (Ret (), World fsd ((out0 ++ [LGet url]) ++ [r]))
                = (Ret (), World fs1 (out0 ++ [LGet url; r'])) ∧
                fs1 !! adir = Some Dir ∧
                (∀ q, q ≠ adir → q ≠ adir ++ [name] → fs1 !! q = fs0 !! q) ∧
                (∀ b, net url = Body b →
                      r' = LOk (adir ++ [name]) ∧
                      fs1 !! (adir ++ [name]) = Some (File (Some (decode b))))) as Hfail.
    { intros r Hnb. exists fsd, r. rewrite <- app_assoc.
      split_and!; [done|done|by auto|]. intros b Hb. by destruct (Hnb b). }
    destruct (net url) as [b|b|b|code| |] eqn:Hnet; try (by apply Hfail).
    - rewrite bind_run. unfold store at 1. cbn [fs out]. rewrite Hwrite.
      unfold log. cbn [fs out].
      destruct (Hstored b (LOk (adir ++ [name]))) as (fs1 & r' & -> & -> & ->).
      eexists _, _. split; [done|]. split_and!.
      + by rewrite lookup_insert_ne.
      + intros q H1 H2. rewrite lookup_insert_ne by done. by apply Hsame.
      + intros b' [= <-]. by rewrite lookup_insert_eq.
    - rewrite bind_run. unfold store at 1. cbn [fs out]. rewrite Hwrite.
      unfold log. cbn [fs out].
      destruct (Hstored b (LErrURL url)) as (fs1 & r' & -> & -> & ->).
      eexists _, _. split; [done|]. split_and!.
      + by rewrite lookup_insert_ne.
      + intros q H1 H2. rewrite lookup_insert_ne by done. by apply Hsame.
      + done.
    - rewrite bind_run. unfold store at 1. cbn [fs out]. rewrite Hwrite.
      unfold log. cbn [fs out].
      destruct (Hstored b (LErrFail url)) as (fs1 & r' & -> & -> & ->).
      eexists _, _. split; [done|]. split_and!.
      + by rewrite lookup_insert_ne.
      + intros q H1 H2. rewrite lookup_insert_ne by done. by apply Hsame.
      + done. }
  destruct (fs0 !! adir) as [[|t]|] eqn:Hadir.
  - apply Hrest; [done|apply grows_refl|done].
  - by destruct (Hnofile t).
  - apply Hrest.
    + intros q Hq. by rewrite lookup_insert_ne.
    + by apply grows_insert_fresh.
    + by rewrite lookup_insert_eq.
Qed.

(** The download loop of the assets on such a tree. *)
Lemma fetch_assets_run root net l fs0 out0 :
  (∀ name, name ∈ l → ∃ text, name ∈ findall asset_pattern text) → NoDup l →
  walk fs0 [] root = Some root → is_dir fs0 root = true →
  (∀ t, fs0 !! (root ++ [cps "assets"]) ≠ Some (File t)) →
  (∀ name, name ∈ l → fs0 !! (root ++ [cps "assets"; name]) ≠ Some Dir) →
  ∃ fs' new,
    for_each l (fetch_asset root net) (World fs0 out0)
    = (Ret (), World fs' (out0 ++ new)) ∧
    ∀ name, name ∈ l →
      LGet (FRAMER_CDN ++ cps "/assets/" ++ name) ∈ new ∧
      ∀ b, net (FRAMER_CDN ++ cps "/assets/" ++ name) = Body b →
           fs' !! (root ++ [cps "assets"; name]) = Some (File (Some (decode b))) ∧
           LOk (root ++ [cps "assets"; name]) ∈ new.
Proof.
  revert fs0 out0. induction l as [|x l IH]; intros fs0 out0 Hl Hnd Hroot Hdir Hnofile Hfree.
  { exists fs0, []. rewrite app_nil_r. split; [done|]. by intros name ?%elem_of_nil. }
  apply NoDup_cons in Hnd as [Hx Hnd].
  destruct (Hl x ltac:(by left)) as [text Ht].
  destruct (fetch_asset_run root net x text fs0 out0 Ht Hroot Hdir Hnofile
              (Hfree x ltac:(by left))) as (fs1 & r & Hrun & Hadir & Hframe & Hbody).
  assert (grows fs0 fs1) as Hg.
  { unfold fetch_asset in Hrun. by apply download_file_effect in Hrun as [? _]. }
  assert (∀ name, name ∈ l → root ++ [cps "assets"; name] ≠ root ++ [cps "assets"; x])
    as Hother.
  { intros name Hn E. apply app_inv_head in E. injection E as ->. done. }
  assert (∀ name : list N, root ++ [cps "assets"; name] ≠ root ++ [cps "assets"]) as Hlen.
  { intros name E%(f_equal length). rewrite !length_app in E. simpl in E. lia. }
  destruct (IH fs1 (out0 ++ [LGet (FRAMER_CDN ++ cps "/assets/" ++ x); r]))
    as (fs' & new & Hrest & Hall).
  - intros; apply Hl; by right.
  - done.
  - by eapply grows_walk.
  - by eapply grows_is_dir.
  - intros t. by rewrite Hadir.
  - intros name Hn. rewrite Hframe; [|done|by apply Hother]. apply Hfree. by right.
  - exists fs', ([LGet (FRAMER_CDN ++ cps "/assets/" ++ x); r] ++ new).
    cbn [for_each]. rewrite bind_run, Hrun, Hrest, <- app_assoc. split; [done|].
    intros name [->|Hn]%elem_of_cons.
    + split; [apply elem_of_app; left; by left|].
      intros b Hb. destruct (Hbody b Hb) as [-> Hfile]. split.
      * destruct (decide (fs' !! (root ++ [cps "assets"; x])
                          = fs1 !! (root ++ [cps "assets"; x]))) as [->|Hne]; [done|].
        pose proof (fetch_assets_changes root net l
                      (World fs1 (out0 ++ [LGet (FRAMER_CDN ++ cps "/assets/" ++ x);
                                          LOk (root ++ [cps "assets"; x])]))
                      (root ++ [cps "assets"; x])) as Hch.
        rewrite Hrest in Hch. cbn [fs snd] in Hch.
        destruct Hch as [E|(name & Hn & E)].
        -- intros; apply Hl; by right.
        -- by eapply grows_walk.
        -- done.
        -- by destruct (Hlen x).
        -- by destruct (Hother name Hn).
      * apply elem_of_app. left. apply elem_of_cons. right. by left.
    + destruct (Hall name Hn) as [Hget Hb]. split; [apply elem_of_app; by right|].
      intros b Hnet. destruct (Hb b Hnet) as [Hfile Hok].
      split; [done|apply elem_of_app; by right].
Qed.

(** A tree given entry by entry is checked by a computation. *)
Lemma tree_check fs :
  forallb (λ k, is_dir_at fs (removelast k)) (elements (dom fs)) = true → tree fs.
Proof.
  intros Hall q c n Hq. rewrite forallb_forall in Hall.
  assert (q ++ [c] ∈ elements (dom fs)) as Hin.
  { apply elem_of_elements, elem_of_dom. eauto. }
  apply list_elem_of_In, Hall in Hin. rewrite removelast_last in Hin.
  by apply bool_decide_eq_true in Hin.
Qed.

(** Nothing lies below a path of a tree that does not exist. *)
Lemma tree_absent fs root d n :
  tree fs → walk fs [] root = Some root → is_dir fs root = true →
  d ≠ DOTDOT →
  exists_ fs (root ++ [d; n]) = false →
  fs !! (root ++ [d; n]) ≠ Some Dir.
Proof.
  intros Htree Hroot Hdir Hd Hex Hn.
  assert (is_dir_at fs root = true) as Hdir_at.
  { unfold is_dir, stat in Hdir. rewrite Hroot in Hdir. exact Hdir. }
  replace (root ++ [d; n]) with ((root ++ [d]) ++ [n]) in * by (by rewrite <- app_assoc).
  pose proof (Htree _ _ _ Hn) as Hp. rewrite node_at_snoc in Hp.
  apply bool_decide_eq_false in Hex. apply Hex.
  unfold stat. rewrite <- app_assoc. cbn [app].
  rewrite (walk_app fs [] root [d; n]), Hroot. cbn [mbind option_bind walk].
  rewrite Hdir_at, bool_decide_eq_false_2, node_at_snoc, Hp by done.
  unfold is_dir_at. rewrite node_at_snoc, Hp, bool_decide_eq_true_2 by done.
  destruct (bool_decide (n = DOTDOT)) eqn:Hnd.
  - rewrite parent_snoc. cbn [mbind option_bind].
    destruct root as [|? ? _] using rev_ind; [done|].
    rewrite node_at_snoc. unfold is_dir_at in Hdir_at.
    apply bool_decide_eq_true in Hdir_at. rewrite node_at_snoc in Hdir_at. eauto.
  - rewrite node_at_snoc. replace (root ++ [d] ++ [n]) with ((root ++ [d]) ++ [n])
      by (by rewrite <- app_assoc).
    rewrite Hn. cbn [mbind option_bind]. rewrite node_at_snoc, Hn. eauto.
Qed.

(** C8: when the operating system answers the queries of [exists] for the
    asset names referenced in the scanned files (extensions .html, .htm,
    .js, .mjs, .css), asset detection returns, sorted and without
    duplicates, the names that exist neither in [<root>/assets] nor in
    [<root>/images].  The download loop over that list, on a resolved root
    and right after detection as in [main], changes no entry of the tree
    other than [<root>/assets] and the files [<root>/assets/<name>] of the
    list; and on a tree where no regular file stands at [<root>/assets] it
    returns, requests every asset of the list and leaves every body the
    server sends whole in [<root>/assets/<name>], with its success
    line. *)
Theorem asset_detection_and_remediation refused root w :
  (∀ text name, scanned exts_assets (fs w) root text →
     name ∈ findall asset_pattern text →
     refused (fs w) (root // cps "assets" // name) = false ∧
     refused (fs w) (root // cps "images" // name) = false) →
  ∃ l, find_missing_assets_os refused root w = (Ret l, w) ∧
    StronglySorted str_le l ∧ NoDup l ∧
    (∀ name, name ∈ l ↔
       (∃ text, scanned exts_assets (fs w) root text ∧
                name ∈ findall asset_pattern text) ∧
       exists_ (fs w) (root // cps "assets" // name) = false ∧
       exists_ (fs w) (root // cps "images" // name) = false) ∧
    ∀ net out0,
      walk (fs w) [] root = Some root → is_dir (fs w) root = true →
      (∀ q, q ≠ root ++ [cps "assets"] →
            (∀ name, name ∈ l → q ≠ root ++ [cps "assets"; name]) →
            fs (for_each l (fetch_asset root net) (World (fs w) out0)).2 !! q
            = fs w !! q) ∧
      (tree (fs w) → (∀ t, fs w !! (root ++ [cps "assets"]) ≠ Some (File t)) →
       ∃ fs' new,
         for_each l (fetch_asset root net) (World (fs w) out0)
         = (Ret (), World fs' (out0 ++ new)) ∧
         ∀ name, name ∈ l →
           LGet (FRAMER_CDN ++ cps "/assets/" ++ name) ∈ new ∧
           ∀ b, net (FRAMER_CDN ++ cps "/assets/" ++ name) = Body b →
                fs' !! (root ++ [cps "assets"; name]) = Some (File (Some (decode b))) ∧
                LOk (root // cps "assets" // name) ∈ new).
Proof.
  intros Hans. exists (missing_assets_in (fs w) root).
  assert (∀ name, name ∈ missing_assets_in (fs w) root →
            ∃ text, name ∈ findall asset_pattern text) as Hpat.
  { intros name Hn. by eapply missing_asset_referenced. }
  split_and!.
  - apply find_missing_assets_os_answered.
    intros name (text & Hs & Hn)%elem_of_asset_names_in. eauto.
  - apply StronglySorted_filter, StronglySorted_sorted.
  - apply NoDup_filter, NoDup_sorted.
  - intros name. by rewrite elem_of_missing_assets_in, elem_of_asset_names_in.
  - intros net out0 Hroot Hdir. split.
    + intros q Hq Hnames.
      destruct (decide (fs (for_each (missing_assets_in (fs w) root)
                              (fetch_asset root net) (World (fs w) out0)).2 !! q
                        = fs w !! q)) as [|Hne]; [done|].
      apply (fetch_assets_changes root net _ (World (fs w) out0)) in Hne
        as [?|(name & Hn & ->)]; [done|by destruct (Hnames name Hn)|done|done].
    + intros Htree Hnofile.
      destruct (fetch_assets_run root net (missing_assets_in (fs w) root) (fs w) out0)
        as (fs' & new & Hrun & Hall); [done|apply NoDup_filter, NoDup_sorted|done..| |].
      * intros name Hn. destruct (Hpat name Hn) as [text Ht].
        apply elem_of_missing_assets_in in Hn as (_ & Ha & _).
        rewrite (asset_dest root _ _ Ht) in Ha.
        by apply (tree_absent _ root (cps "assets") name).
      * exists fs', new. split; [done|]. intros name Hn.
        destruct (Hall name Hn) as [Hget Hb]. split; [done|].
        intros b Hnet. destruct (Hb b Hnet) as [Hfile Hok]. split; [done|].
        destruct (Hpat name Hn) as [text Ht]. by rewrite (asset_dest root _ _ Ht).
Qed.

(** The queries for the assets of a tree given entry by entry are checked
    by a computation. *)
Lemma assets_answered_check (refused : gmap (list (list N)) node → list (list N) → bool)
    fs root :
  forallb (λ name, negb (refused fs (root // cps "assets" // name))
                   && negb (refused fs (root // cps "images" // name)))
          (sorted (asset_names_in fs root)) = true →
  ∀ text name, scanned exts_assets fs root text →
    name ∈ findall asset_pattern text →
    refused fs (root // cps "assets" // name) = false ∧
    refused fs (root // cps "images" // name) = false.
Proof.
  intros Hall text name Hs Hn. rewrite forallb_forall in Hall.
  assert (name ∈ sorted (asset_names_in fs root)) as Hin.
  { apply elem_of_sorted, elem_of_asset_names_in. eauto. }
  apply list_elem_of_In, Hall in Hin.
  apply andb_true_iff in Hin as [H1 H2].
  by rewrite negb_true_iff in H1, H2.
Qed.

Lemma asset_detection_and_remediation_witness :
  find_missing_assets_os enametoolong ex_root (World fs_logo [])
  = (Ret [cps "logo123.png"], World fs_logo []) ∧
  walk fs_logo [] ex_root = Some ex_root ∧
  is_dir fs_logo ex_root = true ∧
  tree fs_logo ∧
  fs_logo !! (ex_root ++ [cps "assets"; cps "logo123.png"]) = None ∧
  ∃ fs' new,
    for_each [cps "logo123.png"] (fetch_asset ex_root net_plain) (World fs_logo [])
    = (Ret (), World fs' new) ∧
    fs' !! (ex_root ++ [cps "assets"; cps "logo123.png"])
    = Some (File (Some (cps "export {}"))) ∧
    LOk (ex_root ++ [cps "assets"; cps "logo123.png"]) ∈ new.
Proof.
  assert (find_missing_assets_os enametoolong ex_root (World fs_logo [])
          = (Ret [cps "logo123.png"], World fs_logo [])) as Hrun
    by (vm_compute; reflexivity).
  assert (walk fs_logo [] ex_root = Some ex_root) as Hroot
    by (vm_compute; reflexivity).
  assert (is_dir fs_logo ex_root = true) as Hdir by (vm_compute; reflexivity).
  assert (tree fs_logo) as Htree by (apply tree_check; vm_compute; reflexivity).
  split_and!; [exact Hrun|exact Hroot|exact Hdir|exact Htree|vm_compute; reflexivity|].
  destruct (asset_detection_and_remediation enametoolong ex_root (World fs_logo []))
    as (l & Hl & _ & _ & _ & Hfetch).
  { apply assets_answered_check. vm_compute; reflexivity. }
  rewrite Hrun in Hl. injection Hl as <-.
  destruct (Hfetch net_plain [] Hroot Hdir) as [_ Hstore].
  destruct Hstore as (fs' & new & Hloop & Hall); [exact Htree|discriminate|].
  exists fs', new. split; [exact Hloop|].
  destruct (Hall (cps "logo123.png")) as [_ Hbody]; [by left|].
  exact (Hbody (cps "export {}") eq_refl).
Defined.

(** A match of the local pattern is a text
    [sites/<word>/searchIndex-<chars>.json]. *)
Lemma pattern_local_shape s g n :
  match_at pattern_local s = Some (g, n) →
  ∃ sfx rest,
    g ≠ [] ∧ forallb cls_word g = true ∧ sfx ≠ [] ∧ forallb cls_ref sfx = true ∧
    s = (cps "sites/" ++ g ++ cps "/searchIndex-" ++ sfx ++ cps ".json") ++ rest ∧
    n = length (cps "sites/" ++ g ++ cps "/searchIndex-" ++ sfx ++ cps ".json").
Proof.
  intros (w1 & w3 & s' & -> & Hn & H1 & H2 & H3)%match_at_region.
  apply lang_lit in H1 as ->. destruct H2 as [Hg H2].
  destruct H3 as (u & v & -> & ->%lang_lit & (x & y & -> & [Hx Hx'] & ->%lang_lit)).
  exists x, s'. rewrite <- Hn. by rewrite <- !app_assoc.
Qed.

(** C3 as amended: in the text of a scanned file, identifier discovery
    finds the id of every remote reference
    [https://framerusercontent.com/sites/<id>/], and the id of every local
    reference [sites/<id>/searchIndex-<suffix>.json] whose suffix is not
    empty and has no quote and no [>], unless an earlier piece of the text
    runs into the reference: a piece of the same form,
    [sites/<word>/searchIndex-<chars>.json] with [<chars>] free of quotes
    and [>], that begins before the reference and ends after the
    reference begins. *)
Theorem site_id_discovery fs root text id :
  scanned exts_site_ids fs root text →
  id ≠ [] → forallb cls_word id = true →
  (∃ before after,
     text = before ++ cps "https://framerusercontent.com/sites/" ++ id
              ++ SLASH :: after) ∨
  (∃ before sfx after,
     sfx ≠ [] ∧ forallb cls_ref sfx = true ∧
     text = before ++ cps "sites/" ++ id ++ cps "/searchIndex-" ++ sfx
              ++ cps ".json" ++ after ∧
     ∀ a b word chars rest,
       before = a ++ b → b ≠ [] →
       word ≠ [] → forallb cls_word word = true →
       chars ≠ [] → forallb cls_ref chars = true →
       b ++ cps "sites/" ++ id ++ cps "/searchIndex-" ++ sfx ++ cps ".json" ++ after
       = (cps "sites/" ++ word ++ cps "/searchIndex-" ++ chars ++ cps ".json") ++ rest →
       (length (cps "sites/" ++ word ++ cps "/searchIndex-" ++ chars ++ cps ".json")
        ≤ length b)%nat) →
  id ∈ site_ids_in fs root.
Proof.
  intros Hscan Hid Hw Hform. apply elem_of_site_ids_in. exists text.
  split; [done|].
  destruct Hform as [(before & after & ->)|(before & sfx & after & Hs & Hr & -> & Hfree)].
  - left. by apply findall_pattern_url.
  - right.
    destruct (pattern_local_match id sfx after Hid Hw Hs Hr) as [n Hn].
    apply (findall_hit _ _ _ _ n); [|exact Hn].
    intros a b h m Hab Hb Hm.
    apply pattern_local_shape in Hm as (chars & rest & Hh & Hhw & Hc & Hcr & E & ->).
    by apply (Hfree a b h chars rest).
Qed.

(** The reference of [text_local_ref] follows [./]: no earlier piece of
    the text has the form of a reference. *)
Lemma site_id_discovery_witness :
  scanned exts_site_ids fs_local_ref ex_root text_local_ref ∧
  cps "abc123" ∈ site_ids_in fs_local_ref ex_root.
Proof.
  assert (scanned exts_site_ids fs_local_ref ex_root text_local_ref) as Hscan.
  { exists (ex_root ++ [cps "index.html"]). split; [|vm_compute; reflexivity].
    apply list_elem_of_In. vm_compute. auto. }
  split; [exact Hscan|].
  apply (site_id_discovery fs_local_ref ex_root text_local_ref (cps "abc123") Hscan).
  - discriminate.
  - vm_compute; reflexivity.
  - right. exists (cps "<a href=" ++ [DQUOTE] ++ cps "./"), (cps "x"),
      ([DQUOTE] ++ cps ">").
    split_and!; [discriminate|vm_compute; reflexivity|vm_compute; reflexivity|].
    intros a b word chars rest Hab Hb _ _ _ _ E. exfalso.
    do 11 (destruct a as [|? a];
           [apply (f_equal (take 1)) in E; simpl in Hab; subst b; discriminate E|
            simpl in Hab; injection Hab as _ Hab]).
    destruct a; [simpl in Hab; by subst b|discriminate Hab].
Defined.

(** C3 as stated fails: the greedy suffix of the local pattern runs across
    a second reference that no quote or [>] separates from the first. *)
Lemma site_id_discovery_misses_unquoted :
  scanned exts_site_ids fs_unquoted ex_root text_unquoted ∧
  forallb cls_word (cps "b") = true ∧
  text_unquoted = cps "sites/a/searchIndex-1.json " ++ cps "sites/" ++ cps "b"
                  ++ cps "/searchIndex-" ++ cps "2" ++ cps ".json" ++ [] ∧
  cps "b" ∉ site_ids_in fs_unquoted ex_root.
Proof.
  split_and!.
  - exists (ex_root ++ [cps "index.html"]). split; [|vm_compute; reflexivity].
    apply list_elem_of_In. vm_compute. auto.
  - vm_compute; reflexivity.
  - reflexivity.
  - intros H%elem_of_elements%list_elem_of_In. vm_compute in H.
    destruct H as [H|[]]. discriminate H.
Qed.

(** C7 fails on the code: [mkdir] is called outside the [try] of
    [download_file]; when a component of the destination is a regular file
    it raises, nothing catches the exception and the process ends with
    status 1 although the root is a directory. *)
Theorem mkdir_failure_exit_status :
  is_dir fs_assets_file ex_root = true ∧
  (main ex_root false net_plain (World fs_assets_file [])).1 = Raise OSError ∧
  exit_status (main ex_root false net_plain (World fs_assets_file [])).1 = 1%Z.
Proof. split_and!; vm_compute; reflexivity. Qed.

(** The two directions of C7 that hold when the operating system answers
    every query of the run: a root that is not a directory ends the run
    with status 1, and a dry run on a directory ends with 0. *)
Lemma exit_status_no_root root dry_run net w :
  is_dir (fs w) root = false → exit_status (main root dry_run net w).1 = 1%Z.
Proof. intros H. by rewrite main_no_root. Qed.

Lemma exit_status_dry_run root net w :
  is_dir (fs w) root = true → exit_status (main root true net w).1 = 0%Z.
Proof. intros H. by rewrite main_dry. Qed.

Lemma item_present_absent root fs1 line :
  is_item line = true → item_present root fs1 line → item_absent root fs1 line → False.
Proof.
  unfold item_present, item_absent. destruct line; try done; simpl; congruence.
Qed.

(** C1 as amended: after a run that downloads (no dry run), returns and
    prints no error line, every item the run reported missing is on disk
    at its destination, and no later run on the same root reports it
    again. *)
Theorem rerun_reports_no_fetched_item root net net2 dry_run2 fs0 line :
  (main root false net (World fs0 [])).1 = Ret () →
  no_errors (out (main root false net (World fs0 [])).2) →
  is_item line = true →
  line ∈ out (main root false net (World fs0 [])).2 →
  item_present root (fs (main root false net (World fs0 [])).2) line ∧
  line ∉ out (main root dry_run2 net2
                (World (fs (main root false net (World fs0 [])).2) [])).2.
Proof.
  intros Hret Hne Hitem Hin.
  assert (fetched root [] (World fs0 [])) as H0 by (intros _ l []%elem_of_nil).
  pose proof (main_fetched root net _ H0) as H1.
  cbn beta in H1. rewrite Hret in H1.
  destruct (H1 Hne line Hin) as [Hp|[]%elem_of_nil].
  split; [done|]. intros Hin2.
  pose proof (main_unfetched root dry_run2 net2
                (fs (main root false net (World fs0 [])).2)
                (World (fs (main root false net (World fs0 [])).2) [])) as H2.
  cbn beta in H2. eapply item_present_absent; [done|exact Hp|].
  apply H2; [|done]. split_and!.
  - apply grows_refl.
  - by intros l []%elem_of_nil.
  - by intros l []%elem_of_nil.
Qed.

Lemma singleton_list {A} (l : list A) x :
  NoDup l → (∀ y, y ∈ l → y = x) → x ∈ l → l = [x].
Proof.
  intros Hnd Hall Hx. destruct l as [|a [|b l]].
  - by apply elem_of_nil in Hx.
  - f_equal. apply Hall. by left.
  - exfalso. assert (a = x) as -> by (apply Hall; by left).
    assert (b = x) as -> by (apply Hall; right; by left).
    apply NoDup_cons in Hnd as [Hnd _]. apply Hnd. by left.
Qed.

(** C2 as amended: module detection reads the files of [sites/<id>/]
    whose name ends in [.mjs] and no other ([page.html] is never read).
    When such a file, readable, contains a static import
    [from Q./<module>.mjsQ] and the module is absent from the directory,
    the returned list contains the module; it is that one-element list
    when every other import of the module files of the directory exists. *)
Theorem static_import_detection fs0 root site_id mjs text before stem after :
  is_dir fs0 (root // cps "sites" // site_id) = true →
  mjs ∈ glob_mjs fs0 (root // cps "sites" // site_id) →
  read_text fs0 mjs = Some text →
  text = before ++ cps "from " ++ DQUOTE :: cps "./" ++ (stem ++ cps ".mjs")
           ++ DQUOTE :: after →
  stem ≠ [] → forallb cls_unquoted stem = true →
  exists_ fs0 (root // cps "sites" // site_id // (stem ++ cps ".mjs")) = false →
  ∃ l, find_missing_mjs_for_site root site_id (World fs0 []) = (Ret l, World fs0 []) ∧
    stem ++ cps ".mjs" ∈ l ∧
    ((∀ mjs' text' rel,
        mjs' ∈ glob_mjs fs0 (root // cps "sites" // site_id) →
        read_text fs0 mjs' = Some text' →
        rel ∈ findall dyn_import text' ∨ rel ∈ findall static_import text' →
        rel ≠ stem ++ cps ".mjs" →
        exists_ fs0 (root // cps "sites" // site_id // rel) = true) →
     l = [stem ++ cps ".mjs"]).
Proof.
  intros Hdir Hmjs Hread -> Hs Hu Habsent.
  exists (sorted (missing_mjs_in fs0 (root // cps "sites" // site_id))).
  assert (stem ++ cps ".mjs"
          ∈ sorted (missing_mjs_in fs0 (root // cps "sites" // site_id))) as Hin.
  { apply elem_of_sorted, elem_of_missing_mjs_in. eexists mjs, _.
    split_and!; [done|done| |done]. right. by apply findall_static_import. }
  split_and!.
  - rewrite find_missing_mjs_for_site_run. unfold missing_mjs_of.
    cbn [fs out]. by rewrite Hdir.
  - done.
  - intros Hothers. apply singleton_list; [apply NoDup_sorted| |done].
    intros rel Hrel%elem_of_sorted%elem_of_missing_mjs_in.
    destruct Hrel as (mjs' & text' & H1 & H2 & H3 & H4).
    destruct (decide (rel = stem ++ cps ".mjs")) as [|Hne]; [done|].
    rewrite (Hothers mjs' text' rel H1 H2 H3 Hne) in H4. done.
Qed.

Lemma static_import_detection_witness :
  is_dir fs_modules (ex_root // cps "sites" // cps "abc123") = true ∧
  read_text fs_modules (ex_root ++ [cps "sites"; cps "abc123"; cps "page.mjs"])
  = Some (ex_import (cps "util.mjs")) ∧
  exists_ fs_modules (ex_root // cps "sites" // cps "abc123" // cps "util.mjs") = false ∧
  ∃ l, find_missing_mjs_for_site ex_root (cps "abc123") (World fs_modules [])
       = (Ret l, World fs_modules []) ∧ cps "util.mjs" ∈ l.
Proof.
  assert (is_dir fs_modules (ex_root // cps "sites" // cps "abc123") = true) as Hdir
    by (vm_compute; reflexivity).
  assert (read_text fs_modules (ex_root ++ [cps "sites"; cps "abc123"; cps "page.mjs"])
          = Some (ex_import (cps "util.mjs"))) as Hread by (vm_compute; reflexivity).
  assert (exists_ fs_modules (ex_root // cps "sites" // cps "abc123" // cps "util.mjs")
          = false) as Habsent by (vm_compute; reflexivity).
  split_and!; [exact Hdir|exact Hread|exact Habsent|].
  destruct (static_import_detection fs_modules ex_root (cps "abc123")
              (ex_root ++ [cps "sites"; cps "abc123"; cps "page.mjs"])
              (ex_import (cps "util.mjs")) (cps "import { f } ") (cps "util") [])
    as (l & Hl & Hin & _).
  - exact Hdir.
  - apply list_elem_of_In. vm_compute. auto.
  - exact Hread.
  - vm_compute; reflexivity.
  - discriminate.
  - vm_compute; reflexivity.
  - exact Habsent.
  - exists l. split; [exact Hl|exact Hin].
Defined.

(** C2 as stated fails: the import stands in [page.html], which module
    detection does not read, and the list returned is empty. *)
Lemma page_html_is_not_read :
  read_text fs_page_html (ex_root ++ [cps "index.html"]) = Some ex_index_html ∧
  read_text fs_page_html (ex_root ++ [cps "sites"; cps "abc123"; cps "page.html"])
  = Some (ex_import (cps "util.mjs")) ∧
  cps "util.mjs" ∈ findall static_import (ex_import (cps "util.mjs")) ∧
  exists_ fs_page_html (ex_root // cps "sites" // cps "abc123" // cps "util.mjs") = false ∧
  find_missing_mjs_for_site ex_root (cps "abc123") (World fs_page_html [])
  = (Ret [], World fs_page_html []).
Proof.
  split_and!; try (vm_compute; reflexivity).
  apply list_elem_of_In. vm_compute. auto.
Qed.

Lemma rerun_reports_no_fetched_item_witness :
  (main ex_root false net_plain (World fs_modules [])).1 = Ret () ∧
  no_errors (out (main ex_root false net_plain (World fs_modules [])).2) ∧
  LItemMjs (cps "abc123") (cps "util.mjs")
  ∈ out (main ex_root false net_plain (World fs_modules [])).2 ∧
  LItemMjs (cps "abc123") (cps "util.mjs")
  ∉ out (main ex_root true net_plain
           (World (fs (main ex_root false net_plain (World fs_modules [])).2) [])).2.
Proof.
  assert ((main ex_root false net_plain (World fs_modules [])).1 = Ret ()) as Hret
    by (vm_compute; reflexivity).
  assert (no_errors (out (main ex_root false net_plain (World fs_modules [])).2)) as Hne.
  { unfold no_errors. vm_compute. repeat constructor. }
  assert (LItemMjs (cps "abc123") (cps "util.mjs")
          ∈ out (main ex_root false net_plain (World fs_modules [])).2) as Hin.
  { apply list_elem_of_In. vm_compute. auto 10. }
  split_and!; [exact Hret|exact Hne|exact Hin|].
  exact (proj2 (rerun_reports_no_fetched_item ex_root net_plain net_plain true
                  fs_modules (LItemMjs (cps "abc123") (cps "util.mjs"))
                  Hret Hne eq_refl Hin)).
Defined.

(** C1 as stated fails: every download of the first run succeeds, and the
    module it fetched imports a module that is absent too; the second run
    reports it. *)
Lemma rerun_reports_new_import :
  (main ex_root false net_chain (World fs_modules [])).1 = Ret () ∧
  no_errors (out (main ex_root false net_chain (World fs_modules [])).2) ∧
  LOk (ex_root ++ [cps "sites"; cps "abc123"; cps "util.mjs"])
  ∈ out (main ex_root false net_chain (World fs_modules [])).2 ∧
  LItemMjs (cps "abc123") (cps "other.mjs")
  ∈ out (main ex_root true net_chain
           (World (fs (main ex_root false net_chain (World fs_modules [])).2) [])).2.
Proof.
  split_and!.
  - vm_compute; reflexivity.
  - unfold no_errors. vm_compute. repeat constructor.
  - apply list_elem_of_In. vm_compute. auto 10.
  - apply list_elem_of_In. vm_compute. auto 10.
Qed.

(** * Further properties of the script *)

Lemma is_dir_walk fs P :
  is_dir fs P = true → ∃ q, walk fs [] P = Some q ∧ is_dir_at fs q = true.
Proof.
  unfold is_dir, stat, is_dir_at. intros H%bool_decide_eq_true.
  destruct (walk fs [] P) as [q|]; [|done]. exists q. split; [done|].
  by apply bool_decide_eq_true.
Qed.

(** X1: every identifier [find_site_ids] returns is a non-empty word of
    the class [A-Za-z0-9_-] that stands right after [sites/] in the text
    of a scanned file; it is a single path component, so the directory of
    the site is the entry of that name directly inside [<root>/sites]. *)
Theorem discovered_site_id_shape fs root id :
  id ∈ site_ids_in fs root →
  id ≠ [] ∧ forallb cls_word id = true ∧
  (∃ text, scanned exts_site_ids fs root text ∧
           occurs (cps "sites/" ++ id) text = true) ∧
  root // cps "sites" // id = root ++ [cps "sites"; id].
Proof.
  intros (text & Hscan & Hid)%elem_of_site_ids_in.
  apply site_id_shape in Hid as (Hne & Hw & Hocc).
  split_and!; [done|done|by exists text|].
  rewrite (site_id_component _ id Hne Hw).
  change (root // cps "sites") with (root ++ [cps "sites"]).
  by rewrite <- app_assoc.
Qed.

Lemma discovered_site_id_shape_witness :
  cps "abc123" ∈ site_ids_in fs_modules ex_root ∧
  ex_root // cps "sites" // cps "abc123" = ex_root ++ [cps "sites"; cps "abc123"].
Proof.
  assert (cps "abc123" ∈ site_ids_in fs_modules ex_root) as H.
  { apply elem_of_elements, list_elem_of_In. vm_compute. auto. }
  split; [exact H|].
  exact (proj2 (proj2 (proj2 (discovered_site_id_shape _ _ _ H)))).
Defined.

(** X2: the three scans of the tree read exactly the regular files that
    lie below the root at any depth, are reached through directories, have
    a text that can be read and an extension that, in lower case, is one
    of the scan's. *)
Theorem scan_reads_files_below_root exts fs root q text :
  walk fs [] root = Some q →
  scanned exts fs root text ↔
  ∃ rel, rel ≠ [] ∧ descends fs q rel = true ∧
         fs !! (q ++ rel) = Some (File (Some text)) ∧
         lower (suffix rel) ∈ exts.
Proof.
  intros Hq. unfold scanned. split.
  - intros (p & (q' & rel & Hq' & -> & Hne & Hd & Hsome)%elem_of_rglob & Hscan).
    rewrite Hq in Hq'. injection Hq' as <-.
    exists rel. unfold scan_text, is_file, read_text in Hscan.
    rewrite (stat_below fs root q rel) in Hscan by done.
    rewrite suffix_app in Hscan by done.
    destruct (fs !! (q ++ rel)) as [[|t]|] eqn:E; simpl in Hscan; try done.
    case_bool_decide; simpl in Hscan; [|done]. by subst t.
  - intros (rel & Hne & Hd & Hf & Hext). exists (root ++ rel). split.
    + apply elem_of_rglob. exists q, rel. by rewrite Hf.
    + unfold scan_text, is_file, read_text.
      rewrite (stat_below fs root q rel), Hf by (by rewrite ?Hf). simpl.
      rewrite suffix_app by done. by rewrite bool_decide_eq_true_2.
Qed.

Lemma scan_reads_files_below_root_witness :
  walk fs_logo [] ex_root = Some ex_root ∧
  scanned exts_assets fs_logo ex_root text_logo.
Proof.
  assert (walk fs_logo [] ex_root = Some ex_root) as Hroot
    by (vm_compute; reflexivity).
  split; [exact Hroot|].
  apply (scan_reads_files_below_root exts_assets fs_logo ex_root ex_root text_logo Hroot).
  exists [cps "style.css"]. split_and!.
  - discriminate.
  - vm_compute; reflexivity.
  - vm_compute; reflexivity.
  - apply list_elem_of_In. vm_compute. auto 10.
Defined.

(** X3: when [sites/<id>] is a directory, module detection prints nothing,
    changes nothing and returns a sorted list without duplicates: the
    names that an import pattern captures in the readable files directly
    inside the directory whose name ends in [.mjs], and that do not exist
    relative to the directory.  Every name ends in [.mjs] and has no
    quote. *)
Theorem module_detection_result root site_id w :
  is_dir (fs w) (root // cps "sites" // site_id) = true →
  ∃ l q,
    find_missing_mjs_for_site root site_id w = (Ret l, w) ∧
    walk (fs w) [] (root // cps "sites" // site_id) = Some q ∧
    StronglySorted str_le l ∧ NoDup l ∧
    (∀ rel, rel ∈ l ↔
       (∃ n text, valid_name n = true ∧ endswith (cps ".mjs") n = true ∧
                  fs w !! (q ++ [n]) = Some (File (Some text)) ∧
                  (rel ∈ findall dyn_import text ∨
                   rel ∈ findall static_import text)) ∧
       exists_ (fs w) (root // cps "sites" // site_id // rel) = false) ∧
    (∀ rel, rel ∈ l →
       ∃ stem, rel = stem ++ cps ".mjs" ∧ stem ≠ [] ∧
               forallb cls_unquoted stem = true).
Proof.
  intros Hdir. destruct (is_dir_walk _ _ Hdir) as (q & Hq & Hdq).
  exists (sorted (missing_mjs_in (fs w) (root // cps "sites" // site_id))), q.
  split_and!.
  - rewrite find_missing_mjs_for_site_run. unfold missing_mjs_of.
    rewrite Hdir, app_nil_r. by destruct w.
  - done.
  - apply StronglySorted_sorted.
  - apply NoDup_sorted.
  - intros rel. rewrite elem_of_sorted, elem_of_missing_mjs_in. split.
    + intros (mjs & text & Hg & Hr & Hf & Hex). split; [|done].
      apply elem_of_glob_mjs in Hg as (q' & n & Hq' & -> & _ & Hv & He & Hsome).
      rewrite Hq in Hq'. injection Hq' as <-.
      rewrite (read_text_child _ _ q n) in Hr by done.
      exists n, text. split_and!; try done.
      by destruct (fs w !! (q ++ [n])) as [[|t]|]; simplify_eq.
    + intros [(n & text & Hv & He & Hf & Hfind) Hex].
      exists (root // cps "sites" // site_id ++ [n]), text. split_and!; try done.
      * apply elem_of_glob_mjs. exists q, n. by rewrite Hf.
      * rewrite (read_text_child _ _ q n); by rewrite ?Hf.
  - intros rel (mjs & text & _ & _ & [Hf|Hf] & _)%elem_of_sorted%elem_of_missing_mjs_in.
    + by apply dyn_import_shape in Hf as [_ ?].
    + by apply static_import_shape in Hf as [_ ?].
Qed.

Lemma module_detection_result_witness :
  is_dir fs_modules (ex_root // cps "sites" // cps "abc123") = true ∧
  ∃ l q,
    find_missing_mjs_for_site ex_root (cps "abc123") (World fs_modules [])
    = (Ret l, World fs_modules []) ∧
    walk fs_modules [] (ex_root // cps "sites" // cps "abc123") = Some q ∧
    StronglySorted str_le l ∧ NoDup l.
Proof.
  assert (is_dir fs_modules (ex_root // cps "sites" // cps "abc123") = true) as Hdir
    by (vm_compute; reflexivity).
  split; [exact Hdir|].
  destruct (module_detection_result ex_root (cps "abc123") (World fs_modules []) Hdir)
    as (l & q & H1 & H2 & H3 & H4 & _).
  exists l, q. split_and!; [exact H1|exact H2|exact H3|exact H4].
Defined.

(** X4: an import of either form the patterns describe, a dynamic
    [import( Q./<stem>.mjsQ )] or a static [from Q./<stem>.mjsQ], with any
    white space the pattern allows and either quote character, is found
    wherever it stands in a module file of the site directory: when the
    module is absent it is in the list returned. *)
Theorem import_forms_are_detected root site_id w mjs text before stem after ws1 q1 q2 ws2 :
  is_dir (fs w) (root // cps "sites" // site_id) = true →
  mjs ∈ glob_mjs (fs w) (root // cps "sites" // site_id) →
  read_text (fs w) mjs = Some text →
  forallb cls_space ws1 = true → cls_quote q1 = true →
  stem ≠ [] → forallb cls_unquoted stem = true →
  cls_quote q2 = true → forallb cls_space ws2 = true →
  text = before ++ cps "import(" ++ ws1 ++ q1 :: cps "./" ++ (stem ++ cps ".mjs")
           ++ q2 :: ws2 ++ cps ")" ++ after ∨
  (ws1 ≠ [] ∧
   text = before ++ cps "from" ++ ws1 ++ q1 :: cps "./" ++ (stem ++ cps ".mjs")
            ++ q2 :: after) →
  exists_ (fs w) (root // cps "sites" // site_id // (stem ++ cps ".mjs")) = false →
  ∃ l, find_missing_mjs_for_site root site_id w = (Ret l, w) ∧
       stem ++ cps ".mjs" ∈ l.
Proof.
  intros Hdir Hmjs Hread Hws1 Hq1 Hs Hu Hq2 Hws2 Htext Habsent.
  exists (sorted (missing_mjs_in (fs w) (root // cps "sites" // site_id))). split.
  - rewrite find_missing_mjs_for_site_run. unfold missing_mjs_of.
    rewrite Hdir, app_nil_r. by destruct w.
  - apply elem_of_sorted, elem_of_missing_mjs_in. exists mjs, text.
    split_and!; [done|done| |done].
    destruct Htext as [->|[Hne ->]].
    + left. by apply findall_dyn_import.
    + right. by apply findall_static_import_any.
Qed.

Lemma import_forms_are_detected_witness :
  is_dir fs_dyn_import (ex_root // cps "sites" // cps "abc123") = true ∧
  read_text fs_dyn_import (ex_root ++ [cps "sites"; cps "abc123"; cps "page.mjs"])
  = Some text_dyn_import ∧
  exists_ fs_dyn_import (ex_root // cps "sites" // cps "abc123" // cps "chunk.mjs")
  = false ∧
  ∃ l, find_missing_mjs_for_site ex_root (cps "abc123") (World fs_dyn_import [])
       = (Ret l, World fs_dyn_import []) ∧ cps "chunk.mjs" ∈ l.
Proof.
  assert (is_dir fs_dyn_import (ex_root // cps "sites" // cps "abc123") = true) as Hdir
    by (vm_compute; reflexivity).
  assert (read_text fs_dyn_import
            (ex_root ++ [cps "sites"; cps "abc123"; cps "page.mjs"])
          = Some text_dyn_import) as Hread by (vm_compute; reflexivity).
  assert (exists_ fs_dyn_import
            (ex_root // cps "sites" // cps "abc123" // cps "chunk.mjs") = false)
    as Habsent by (vm_compute; reflexivity).
  split_and!; [exact Hdir|exact Hread|exact Habsent|].
  apply (import_forms_are_detected ex_root (cps "abc123") (World fs_dyn_import [])
           (ex_root ++ [cps "sites"; cps "abc123"; cps "page.mjs"])
           text_dyn_import (cps "const m = await ") (cps "chunk") (cps ";")
           [32] SQUOTE SQUOTE [32]).
  - exact Hdir.
  - apply list_elem_of_In. vm_compute. auto.
  - exact Hread.
  - vm_compute; reflexivity.
  - vm_compute; reflexivity.
  - discriminate.
  - vm_compute; reflexivity.
  - vm_compute; reflexivity.
  - vm_compute; reflexivity.
  - left. vm_compute; reflexivity.
  - exact Habsent.
Defined.

Lemma module_files_forallb fs dir (P : list N → bool) :
  forallb (λ mjs, match read_text fs mjs with
                  | Some text => negb (P text)
                  | None => true
                  end) (glob_mjs fs dir) = true →
  ∀ mjs text, mjs ∈ glob_mjs fs dir → read_text fs mjs = Some text → P text = false.
Proof.
  intros H mjs text Hin%list_elem_of_In Hread. rewrite forallb_forall in H.
  specialize (H mjs Hin). rewrite Hread in H. by apply negb_true_iff.
Qed.

(** X5: module detection sees an import only through the word [from] or
    through [import(]: when no module file of the site directory contains
    either, the list returned is empty, whatever else the files import (a
    bare [import Q./x.mjsQ] statement is not detected). *)
Theorem import_without_from_not_detected root site_id w :
  is_dir (fs w) (root // cps "sites" // site_id) = true →
  (∀ mjs text,
     mjs ∈ glob_mjs (fs w) (root // cps "sites" // site_id) →
     read_text (fs w) mjs = Some text →
     occurs (cps "from") text || occurs (cps "import(") text = false) →
  find_missing_mjs_for_site root site_id w = (Ret [], w).
Proof.
  intros Hdir Hfiles. rewrite find_missing_mjs_for_site_run. unfold missing_mjs_of.
  rewrite Hdir, app_nil_r.
  assert (sorted (missing_mjs_in (fs w) (root // cps "sites" // site_id)) = []) as ->;
    [|by destruct w].
  apply elem_of_nil_inv.
  intros rel (mjs & text & Hg & Hr & Hf & _)%elem_of_sorted%elem_of_missing_mjs_in.
  pose proof (Hfiles mjs text Hg Hr) as [H1 H2]%orb_false_iff.
  destruct Hf as [[Ho _]%dyn_import_shape|[Ho _]%static_import_shape]; congruence.
Qed.

Lemma import_without_from_not_detected_witness :
  is_dir fs_bare_import (ex_root // cps "sites" // cps "abc123") = true ∧
  read_text fs_bare_import (ex_root ++ [cps "sites"; cps "abc123"; cps "page.mjs"])
  = Some (cps "import " ++ quoted (cps "./side.mjs") ++ cps ";") ∧
  exists_ fs_bare_import (ex_root // cps "sites" // cps "abc123" // cps "side.mjs")
  = false ∧
  find_missing_mjs_for_site ex_root (cps "abc123") (World fs_bare_import [])
  = (Ret [], World fs_bare_import []).
Proof.
  assert (is_dir fs_bare_import (ex_root // cps "sites" // cps "abc123") = true) as Hdir
    by (vm_compute; reflexivity).
  split_and!; [exact Hdir|vm_compute; reflexivity|vm_compute; reflexivity|].
  apply (import_without_from_not_detected ex_root (cps "abc123")
           (World fs_bare_import []) Hdir).
  apply (module_files_forallb fs_bare_import _
           (λ text, occurs (cps "from") text || occurs (cps "import(") text)).
  vm_compute; reflexivity.
Defined.

(** X6: search-index detection reports the index a scanned file refers to
    by its full URL, under the name the URL ends in, when the index is
    absent from [sites/<id>/] and the URL is delimited: it starts the text
    or follows a quote or [>], and the text ends after it or goes on with
    a quote or [>]. *)
Theorem delimited_index_url_detection fs root site_id text before sfx rest :
  scanned exts_indexes fs root text →
  forallb cls_ref site_id = true →
  text = before ++ cps "https://framerusercontent.com/sites/" ++ site_id ++ SLASH ::
           (cps "searchIndex-" ++ sfx ++ cps ".json") ++ rest →
  before = [] ∨ (∃ b d, before = b ++ [d] ∧ cls_ref d = false) →
  sfx ≠ [] → forallb cls_ref sfx = true →
  (∀ c t, rest = c :: t → cls_ref c = false) →
  exists_ fs (root // cps "sites" // site_id // (cps "searchIndex-" ++ sfx ++ cps ".json"))
  = false →
  cps "searchIndex-" ++ sfx ++ cps ".json" ∈ missing_indexes_in fs root site_id.
Proof.
  intros Hscan Hid -> Hb Hsfx Hr Hrest Habsent.
  apply elem_of_missing_indexes_in. split; [|done].
  apply elem_of_indexes_in. eexists. split; [exact Hscan|].
  apply findall_index_pattern; assumption.
Qed.

Lemma delimited_index_url_detection_witness :
  scanned exts_indexes fs_no_site_dir ex_root text_index_ref ∧
  exists_ fs_no_site_dir
    (ex_root // cps "sites" // cps "abc123" // cps "searchIndex-x.json") = false ∧
  cps "searchIndex-x.json" ∈ missing_indexes_in fs_no_site_dir ex_root (cps "abc123").
Proof.
  assert (scanned exts_indexes fs_no_site_dir ex_root text_index_ref) as Hscan.
  { exists (ex_root ++ [cps "index.html"]). split; [|vm_compute; reflexivity].
    apply list_elem_of_In. vm_compute. auto. }
  assert (exists_ fs_no_site_dir
            (ex_root // cps "sites" // cps "abc123" // cps "searchIndex-x.json") = false)
    as Habsent by (vm_compute; reflexivity).
  split_and!; [exact Hscan|exact Habsent|].
  apply (delimited_index_url_detection fs_no_site_dir ex_root (cps "abc123")
           text_index_ref [DQUOTE] (cps "x") [DQUOTE] Hscan).
  - vm_compute; reflexivity.
  - vm_compute; reflexivity.
  - right. exists [], DQUOTE. split; vm_compute; reflexivity.
  - discriminate.
  - vm_compute; reflexivity.
  - intros c t [= <- _]. vm_compute; reflexivity.
  - exact Habsent.
Defined.

(** X7: asset detection reports the asset a scanned file refers to by its
    URL, under its file name [<stem>.<extension>], when the asset is in
    neither [assets/] nor [images/], no character of a name follows the
    URL, and the URL starts the text or follows a character that is
    neither of a name nor a colon nor a slash. *)
Theorem delimited_asset_url_detection fs root text before stem ext rest :
  scanned exts_assets fs root text →
  text = before ++ cps "https://framerusercontent.com/assets/"
           ++ (stem ++ DOT :: ext) ++ rest →
  before = [] ∨
    (∃ b d, before = b ++ [d] ∧ cls_asset d || (d =? 58) || (d =? 47) = false) →
  stem ≠ [] → forallb cls_asset stem = true → ext ∈ asset_exts →
  (∀ c t, rest = c :: t → cls_asset c = false) →
  exists_ fs (root // cps "assets" // (stem ++ DOT :: ext)) = false →
  exists_ fs (root // cps "images" // (stem ++ DOT :: ext)) = false →
  stem ++ DOT :: ext ∈ missing_assets_in fs root.
Proof.
  intros Hscan -> Hb Hstem Hs He Hrest Ha Hi.
  apply elem_of_missing_assets_in. split_and!; [|done|done].
  apply elem_of_asset_names_in. eexists. split; [exact Hscan|].
  apply findall_asset_pattern; assumption.
Qed.

Lemma delimited_asset_url_detection_witness :
  scanned exts_assets fs_logo ex_root text_logo ∧
  exists_ fs_logo (ex_root // cps "assets" // cps "logo123.png") = false ∧
  exists_ fs_logo (ex_root // cps "images" // cps "logo123.png") = false ∧
  cps "logo123.png" ∈ missing_assets_in fs_logo ex_root.
Proof.
  assert (scanned exts_assets fs_logo ex_root text_logo) as Hscan.
  { exists (ex_root ++ [cps "style.css"]). split; [|vm_compute; reflexivity].
    apply list_elem_of_In. vm_compute. auto. }
  assert (exists_ fs_logo (ex_root // cps "assets" // cps "logo123.png") = false)
    as Ha by (vm_compute; reflexivity).
  assert (exists_ fs_logo (ex_root // cps "images" // cps "logo123.png") = false)
    as Hi by (vm_compute; reflexivity).
  split_and!; [exact Hscan|exact Ha|exact Hi|].
  apply (delimited_asset_url_detection fs_logo ex_root text_logo
           (cps "body { background: url(") (cps "logo123") (cps "png") (cps ") }")
           Hscan).
  - vm_compute; reflexivity.
  - right. exists (cps "body { background: url"), 40. split; vm_compute; reflexivity.
  - discriminate.
  - vm_compute; reflexivity.
  - apply list_elem_of_In. vm_compute. auto.
  - intros c t [= <- _]. vm_compute; reflexivity.
  - exact Ha.
  - exact Hi.
Defined.

(** X8: a download ends in one of two ways.  When [mkdir] cannot create the
    directory of the destination it raises before anything is printed and
    nothing catches the exception.  Otherwise the download returns,
    whatever the server answers, after printing the [GET] line and one more
    line: [OK ] with the destination, or an error line; an HTTP error, a
    URL error and any other exception each have their own line. *)
Theorem download_file_outcome net url dest w :
  ((mkdir_parents (fs w) (parent dest)).2 = false ∧
   download_file net url dest w
   = (Raise OSError, World (mkdir_parents (fs w) (parent dest)).1 (out w))) ∨
  ((mkdir_parents (fs w) (parent dest)).2 = true ∧
   (download_file net url dest w).1 = Ret () ∧
   ∃ r, out (download_file net url dest w).2 = out w ++ [LGet url; r] ∧
        (r = LOk dest ∨ is_error r = true) ∧
        (∀ code, net url = HTTPError code → r = LErrHTTP code url) ∧
        (net url = URLError → r = LErrURL url) ∧
        (net url = OtherError → r = LErrFail url)).
Proof.
  destruct (download_file_cases net url dest w)
    as [[Hm ->]|(Hm & fs' & r & -> & Hr)]; [by left|right].
  split; [done|]. split; [done|]. exists r. split; [done|].
  destruct Hr as [(_ & He & H1 & H2 & H3 & _)|(b & _ & [[Hn ->]|[[Hn ->]|[Hn ->]]])].
  - auto.
  - split_and!; [by left|..]; intros; congruence.
  - split_and!; [by right|..]; intros; congruence.
  - split_and!; [by right|..]; intros; congruence.
Qed.

(** X9: a download the server answers with an HTTP error, a URL error or
    another exception writes no file: the tree it leaves is the one
    [mkdir] left, in which every entry there was is as it was and every
    new entry is a directory. *)
Theorem failed_download_writes_no_file net url dest w :
  (∃ code, net url = HTTPError code) ∨ net url = URLError ∨ net url = OtherError →
  fs (download_file net url dest w).2 = (mkdir_parents (fs w) (parent dest)).1 ∧
  (∀ q n, fs w !! q = Some n → fs (download_file net url dest w).2 !! q = Some n) ∧
  (∀ q n, fs (download_file net url dest w).2 !! q = Some n →
          fs w !! q = Some n ∨ (fs w !! q = None ∧ n = Dir)).
Proof.
  intros Hnet.
  assert (fs (download_file net url dest w).2 = (mkdir_parents (fs w) (parent dest)).1)
    as ->.
  { destruct (download_file_cases net url dest w)
      as [[_ ->]|(_ & fs' & r & -> & [(-> & _)|(b & _ & Hb)])]; [done|done|].
    exfalso. destruct Hnet as [[code Hn]|[Hn|Hn]];
      destruct Hb as [[Hb _]|[[Hb _]|[Hb _]]]; congruence. }
  split; [done|]. unfold mkdir_parents. split.
  - intros q n Hq. rewrite mkdir_from_frame; by rewrite ?Hq.
  - intros q n. apply mkdir_from_new.
Qed.

Lemma failed_download_writes_no_file_witness :
  ((∃ code, net_down (cps "u") = HTTPError code) ∨ net_down (cps "u") = URLError
   ∨ net_down (cps "u") = OtherError) ∧
  fs (download_file net_down (cps "u") (ex_root ++ [cps "assets"; cps "logo123.png"])
        (World fs_logo [])).2
  = (mkdir_parents fs_logo (parent (ex_root ++ [cps "assets"; cps "logo123.png"]))).1.
Proof.
  assert ((∃ code, net_down (cps "u") = HTTPError code) ∨ net_down (cps "u") = URLError
          ∨ net_down (cps "u") = OtherError) as H by (left; by exists 404).
  split; [exact H|].
  exact (proj1 (failed_download_writes_no_file net_down (cps "u")
                  (ex_root ++ [cps "assets"; cps "logo123.png"]) (World fs_logo []) H)).
Defined.

(** X10: the line [OK ] is printed only for the destination of the
    download, and only when the server sent the whole body and the file
    was written: reading the destination then gives the bytes of that
    body as [read_text] decodes them (UTF-8 with undecodable bytes dropped,
    and every line end read as a line feed). *)
Theorem ok_line_means_body_on_disk net url dest w d :
  LOk d ∈ drop (length (out w)) (out (download_file net url dest w).2) →
  d = dest ∧
  ∃ b, net url = Body b ∧
       read_text (fs (download_file net url dest w).2) dest = Some (decode b).
Proof.
  destruct (download_file_cases net url dest w)
    as [[_ ->]|(_ & fs' & r & -> & Hr)]; cbn [fst snd fs out].
  - rewrite drop_all. by intros ?%elem_of_nil.
  - rewrite drop_app_length.
    intros [?|[<-|[]%elem_of_nil]%elem_of_cons]%elem_of_cons; [done|].
    destruct Hr as [(_ & ? & _)|(b & Hw & [[Hn [= ->]]|[[_ ?]|[_ ?]]])]; try done.
    split; [done|]. exists b. split; [done|]. by eapply write_file_read.
Qed.

Lemma ok_line_means_body_on_disk_witness :
  LOk (ex_root ++ [cps "assets"; cps "logo123.png"])
  ∈ drop (length (@nil log_line))
      (out (download_file net_crlf (cps "u")
              (ex_root ++ [cps "assets"; cps "logo123.png"]) (World fs_logo [])).2) ∧
  net_crlf (cps "u") = Body [97; 13; 10; 98; 13; 99; 255] ∧
  read_text (fs (download_file net_crlf (cps "u")
                   (ex_root ++ [cps "assets"; cps "logo123.png"])
                   (World fs_logo [])).2)
    (ex_root ++ [cps "assets"; cps "logo123.png"]) = Some [97; 10; 98; 10; 99].
Proof.
  assert (LOk (ex_root ++ [cps "assets"; cps "logo123.png"])
          ∈ drop (length (@nil log_line))
              (out (download_file net_crlf (cps "u")
                      (ex_root ++ [cps "assets"; cps "logo123.png"])
                      (World fs_logo [])).2)) as H.
  { apply list_elem_of_In. vm_compute. auto. }
  split_and!; [exact H|reflexivity|].
  destruct (ok_line_means_body_on_disk net_crlf (cps "u")
              (ex_root ++ [cps "assets"; cps "logo123.png"]) (World fs_logo [])
              _ H) as (_ & b & Hb & Hread).
  injection Hb as <-. exact Hread.
Defined.

(** X11: a download removes nothing and changes no entry of the tree but
    the regular file its destination leads to: every entry there was is
    still there with its content, unless it is that file, which then holds
    what was received (as the text [read_text] decodes from it). *)
Theorem download_keeps_other_entries net url dest w q n :
  fs w !! q = Some n →
  fs (download_file net url dest w).2 !! q = Some n ∨
  ∃ t b, n = File t ∧
         fs (download_file net url dest w).2 !! q = Some (File (Some (decode b))) ∧
         walk (fs (download_file net url dest w).2) [] dest = Some q ∧
         (net url = Body b ∨ net url = Truncated b ∨ net url = Broken b).
Proof.
  intros Hq.
  assert ((mkdir_parents (fs w) (parent dest)).1 !! q = Some n) as Hm.
  { unfold mkdir_parents. rewrite mkdir_from_frame; by rewrite ?Hq. }
  destruct (download_file_cases net url dest w)
    as [[_ ->]|(_ & fs' & r & -> & [(-> & _)|(b & Hw & Hb)])]; cbn [fst snd fs out];
    [by left|by left|].
  apply write_file_at in Hw as (qd & nd & Hwalk & -> & Hnd).
  destruct (decide (qd ++ [nd] = q)) as [<-|Hne].
  - right. rewrite Hm in Hnd. destruct n as [|t]; [done|].
    exists t, b. rewrite lookup_insert_eq. split_and!; try done.
    destruct Hb as [[? _]|[[? _]|[? _]]]; auto.
  - left. by rewrite lookup_insert_ne.
Qed.

Lemma download_keeps_other_entries_witness :
  fs_logo !! (ex_root ++ [cps "style.css"]) = Some (File (Some text_logo)) ∧
  fs (download_file net_plain (cps "u")
        (ex_root ++ [cps "assets"; cps "logo123.png"]) (World fs_logo [])).2
    !! (ex_root ++ [cps "style.css"]) = Some (File (Some text_logo)).
Proof.
  assert (fs_logo !! (ex_root ++ [cps "style.css"]) = Some (File (Some text_logo)))
    as H by (vm_compute; reflexivity).
  split; [exact H|].
  destruct (download_keeps_other_entries net_plain (cps "u")
              (ex_root ++ [cps "assets"; cps "logo123.png"]) (World fs_logo [])
              _ _ H) as [H1|(t & b & _ & _ & Hw & _)].
  - exact H1.
  - vm_compute in Hw. discriminate Hw.
Defined.

(** X12: when a download returns, the directory of its destination
    exists, created with its parents if it was not there, whether or not
    the file could be fetched (a download that fails can leave an empty
    directory behind). *)
Theorem download_leaves_directory net url dest w :
  (download_file net url dest w).1 = Ret () →
  is_dir (fs (download_file net url dest w).2) (parent dest) = true.
Proof.
  destruct (download_file_cases net url dest w)
    as [[_ ->]|(Hm & fs' & r & -> & Hr)]; cbn [fst snd fs]; [done|].
  intros _.
  assert (is_dir (mkdir_parents (fs w) (parent dest)).1 (parent dest) = true) as Hd.
  { apply (mkdir_parents_dir (fs w)). rewrite <- Hm. by destruct (mkdir_parents _ _). }
  destruct Hr as [(-> & _)|(b & Hw & _)]; [done|].
  eapply grows_is_dir; [|exact Hd]. by eapply write_file_grows.
Qed.

Lemma download_leaves_directory_witness :
  (download_file net_down (cps "u") (ex_root ++ [cps "assets"; cps "logo123.png"])
     (World fs_logo [])).1 = Ret () ∧
  is_dir fs_logo (parent (ex_root ++ [cps "assets"; cps "logo123.png"])) = false ∧
  is_dir (fs (download_file net_down (cps "u")
                (ex_root ++ [cps "assets"; cps "logo123.png"]) (World fs_logo [])).2)
    (parent (ex_root ++ [cps "assets"; cps "logo123.png"])) = true.
Proof.
  assert ((download_file net_down (cps "u")
             (ex_root ++ [cps "assets"; cps "logo123.png"]) (World fs_logo [])).1
          = Ret ()) as H by (vm_compute; reflexivity).
  split_and!; [exact H|vm_compute; reflexivity|].
  exact (download_leaves_directory net_down (cps "u")
           (ex_root ++ [cps "assets"; cps "logo123.png"]) (World fs_logo []) H).
Defined.

(** X13: a body that is cut short stays on disk: when the download
    reports the URL error of a short body, the destination exists for the
    checks of a later run, and reading it gives the bytes received as
    [read_text] decodes them. *)
Theorem cut_short_download_leaves_partial_file net url dest w b :
  net url = Truncated b →
  out (download_file net url dest w).2 = out w ++ [LGet url; LErrURL url] →
  read_text (fs (download_file net url dest w).2) dest = Some (decode b) ∧
  exists_ (fs (download_file net url dest w).2) dest = true.
Proof.
  intros Hnet.
  destruct (download_file_cases net url dest w)
    as [[_ ->]|(_ & fs' & r & -> & Hr)]; cbn [fst snd fs out].
  - intros E. apply (f_equal length) in E. rewrite length_app in E. simpl in E. lia.
  - intros [= ->]%app_inv_head.
    destruct Hr as [(_ & _ & _ & _ & _ & H)|(b' & Hw & [[Hn _]|[[Hn _]|[_ [=]]]])].
    + by specialize (H b (or_intror (or_introl Hnet))).
    + congruence.
    + assert (b' = b) as -> by congruence.
      split; [by eapply write_file_read|by eapply write_file_exists].
Qed.

Lemma cut_short_download_leaves_partial_file_witness :
  net_cut (cps "u") = Truncated (cps "export") ∧
  out (download_file net_cut (cps "u") (ex_root ++ [cps "assets"; cps "logo123.png"])
         (World fs_logo [])).2
  = [] ++ [LGet (cps "u"); LErrURL (cps "u")] ∧
  read_text (fs (download_file net_cut (cps "u")
                   (ex_root ++ [cps "assets"; cps "logo123.png"]) (World fs_logo [])).2)
    (ex_root ++ [cps "assets"; cps "logo123.png"]) = Some (cps "export").
Proof.
  assert (out (download_file net_cut (cps "u")
                 (ex_root ++ [cps "assets"; cps "logo123.png"]) (World fs_logo [])).2
          = [] ++ [LGet (cps "u"); LErrURL (cps "u")]) as H by (vm_compute; reflexivity).
  split_and!; [reflexivity|exact H|].
  exact (proj1 (cut_short_download_leaves_partial_file net_cut (cps "u")
                  (ex_root ++ [cps "assets"; cps "logo123.png"]) (World fs_logo [])
                  (cps "export") eq_refl H)).
Defined.

(** X14: the download of a module or an index of a site, on a resolved
    root, changes the tree only inside the directory of the site (and
    creates [<root>/sites] when it is missing), provided the name captured
    does not start with a slash and has no [..] component. *)
Theorem site_file_written_inside_site_dir root net site_id f w q :
  walk (fs w) [] root = Some root →
  site_id ≠ [] → forallb cls_word site_id = true →
  startswith [SLASH] f = false → DOTDOT ∉ parts f →
  fs (fetch_site_file root net site_id f w).2 !! q ≠ fs w !! q →
  q = root ++ [cps "sites"] ∨ ∃ rel, q = root ++ [cps "sites"; site_id] ++ rel.
Proof.
  intros Hroot Hne Hw Hrel Hno. unfold fetch_site_file.
  assert (root // cps "sites" // site_id // f
          = root ++ [cps "sites"; site_id] ++ parts f) as ->.
  { rewrite (joinpath_relative _ f Hrel), (site_id_component _ site_id Hne Hw).
    change (root // cps "sites") with (root ++ [cps "sites"]).
    by rewrite <- !app_assoc. }
  assert (DOTDOT ∉ root) as Hnr.
  { apply (walk_no_dotdot _ _ _ _ Hroot). by intros ?%elem_of_nil. }
  destruct (walk_plain _ _ _ _ Hnr Hroot) as [_ Hex].
  assert (DOTDOT ∉ root ++ [cps "sites"; site_id] ++ parts f) as Hnd.
  { rewrite !elem_of_app, !elem_of_cons.
    intros [?|[[?|[<-|[]%elem_of_nil]]|?]]; [done|done| |done].
    by vm_compute in Hw. }
  intros (k & Hk & -> & Hnew)%download_file_plain; [|done].
  rewrite !length_app in Hk, Hnew. cbn [length] in Hk, Hnew.
  destruct (decide (k ≤ length root)%nat) as [Hle|Hgt].
  - exfalso. rewrite take_app_le in Hnew by done.
    destruct (Hex k) as [n Hn]; [lia|]. cbn [app] in Hn.
    rewrite Hnew in Hn by lia. done.
  - rewrite take_app_ge by lia.
    destruct (k - length root)%nat as [|[|j]] eqn:Hj; [lia|by left|right].
    cbn [take app]. eauto.
Qed.

Lemma site_file_written_inside_site_dir_witness :
  walk fs_modules [] ex_root = Some ex_root ∧
  fs (fetch_site_file ex_root net_plain (cps "abc123") (cps "util.mjs")
        (World fs_modules [])).2
    !! (ex_root ++ [cps "sites"; cps "abc123"; cps "util.mjs"])
  = Some (File (Some (cps "export {}"))) ∧
  fs_modules !! (ex_root ++ [cps "sites"; cps "abc123"; cps "util.mjs"]) = None ∧
  (ex_root ++ [cps "sites"; cps "abc123"; cps "util.mjs"] = ex_root ++ [cps "sites"] ∨
   ∃ rel, ex_root ++ [cps "sites"; cps "abc123"; cps "util.mjs"]
          = ex_root ++ [cps "sites"; cps "abc123"] ++ rel).
Proof.
  assert (walk fs_modules [] ex_root = Some ex_root) as Hroot
    by (vm_compute; reflexivity).
  assert (fs (fetch_site_file ex_root net_plain (cps "abc123") (cps "util.mjs")
                (World fs_modules [])).2
            !! (ex_root ++ [cps "sites"; cps "abc123"; cps "util.mjs"])
          = Some (File (Some (cps "export {}")))) as Hnew by (vm_compute; reflexivity).
  assert (fs_modules !! (ex_root ++ [cps "sites"; cps "abc123"; cps "util.mjs"]) = None)
    as Hold by (vm_compute; reflexivity).
  split_and!; [exact Hroot|exact Hnew|exact Hold|].
  apply (site_file_written_inside_site_dir ex_root net_plain (cps "abc123")
           (cps "util.mjs") (World fs_modules []) _ Hroot).
  - discriminate.
  - vm_compute; reflexivity.
  - vm_compute; reflexivity.
  - intros Hin%list_elem_of_In. vm_compute in Hin. by destruct Hin as [Hin|[]].
  - cbn [fs]. rewrite Hnew, Hold. discriminate.
Defined.

(** A name that starts with a slash leaves the directory of the site: [/]
    gives the path it is joined to up. *)
Example absolute_module_name_ex :
  findall static_import (cps "from " ++ quoted (cps ".//tmp/x.mjs")) = [cps "/tmp/x.mjs"] ∧
  ex_root // cps "sites" // cps "abc123" // cps "/tmp/x.mjs" = [cps "tmp"; cps "x.mjs"].
Proof. split; vm_compute; reflexivity. Qed.

(** X15: a dry run requests nothing.  A run with downloads requests the
    items it reports missing and nothing else, each once, in the order of
    the report and at [https://framerusercontent.com/sites/<id>/<name>]
    or [https://framerusercontent.com/assets/<name>]: at any end of the
    run the requests are the first of the reported items, and all of them
    when the run returns. *)
Theorem reported_items_requested_in_order root net fs0 :
  requests (out (main root true net (World fs0 [])).2) = [] ∧
  requests (out (main root false net (World fs0 [])).2)
    `prefix_of` reported (out (main root false net (World fs0 [])).2) ∧
  ((main root false net (World fs0 [])).1 = Ret () →
   requests (out (main root false net (World fs0 [])).2)
   = reported (out (main root false net (World fs0 [])).2)).
Proof.
  destruct (is_dir fs0 root) eqn:Hroot.
  - split.
    + rewrite main_dry by done. cbn [snd out app]. apply requests_fetch_free.
      unfold dry_report. rewrite !Forall_app. split_and!; try (by repeat constructor).
      * repeat constructor. by destruct (bool_decide _).
      * apply Forall_concat, Forall_fmap, Forall_forall.
        intros id _. apply fetch_free_site_report.
      * by apply fetch_free_item_lines.
    + pose proof (main_requests root net (World fs0 []) Hroot eq_refl) as H.
      destruct (main root false net (World fs0 [])) as [[[]|e] w']; cbn [fst snd].
      * by rewrite H.
      * destruct H as [_ H]. split; [done|]. by intros [=].
  - rewrite !main_no_root by done. cbn [fst snd out app]. split_and!; try done.
Qed.

Lemma reported_items_requested_in_order_witness :
  (main ex_root false net_plain (World fs_modules [])).1 = Ret () ∧
  requests (out (main ex_root false net_plain (World fs_modules [])).2)
  = reported (out (main ex_root false net_plain (World fs_modules [])).2).
Proof.
  assert ((main ex_root false net_plain (World fs_modules [])).1 = Ret ()) as H
    by (vm_compute; reflexivity).
  split; [exact H|].
  exact (proj2 (proj2 (reported_items_requested_in_order ex_root net_plain fs_modules)) H).
Defined.

(** X16: the sites a run analyses are the identifiers found in the tree
    it starts on, each once and in sorted order; an identifier that only a
    file fetched during the run contains is not analysed in that run. *)
Theorem sites_analysed_in_order root dry_run net fs0 :
  analysed (out (main root dry_run net (World fs0 [])).2)
    `prefix_of` sorted (site_ids_in fs0 root) ∧
  ((main root dry_run net (World fs0 [])).1 = Ret () →
   analysed (out (main root dry_run net (World fs0 [])).2)
   = sorted (site_ids_in fs0 root)).
Proof.
  destruct (is_dir fs0 root) eqn:Hroot.
  - destruct dry_run.
    + rewrite main_dry by done. cbn [fst snd fs out app].
      assert (analysed (dry_report fs0 root) = sorted (site_ids_in fs0 root)) as ->;
        [|done].
      unfold dry_report. rewrite !analysed_app, analysed_item_lines by done.
      assert (∀ ids, analysed (concat (map (site_report fs0 root) ids)) = ids) as ->.
      { induction ids as [|id ids IH]; [done|]. cbn [map concat].
        by rewrite analysed_app, analysed_site_report, IH. }
      destruct (bool_decide _); by rewrite !app_nil_r.
    + pose proof (main_analysed root net (World fs0 []) Hroot) as H.
      destruct (main root false net (World fs0 [])) as [o w']. cbn [fst snd fs out] in *.
      destruct H as (k & -> & Hk). cbn [app]. split.
      * apply prefix_take.
      * intros ->%Hk. by rewrite firstn_all.
  - rewrite main_no_root by done. cbn [fst snd out app]. split; [|done].
    apply prefix_nil.
Qed.

Lemma sites_analysed_in_order_witness :
  (main ex_root false net_plain (World fs_modules [])).1 = Ret () ∧
  analysed (out (main ex_root false net_plain (World fs_modules [])).2)
  = sorted (site_ids_in fs_modules ex_root).
Proof.
  assert ((main ex_root false net_plain (World fs_modules [])).1 = Ret ()) as H
    by (vm_compute; reflexivity).
  split; [exact H|].
  exact (proj2 (sites_analysed_in_order ex_root false net_plain fs_modules) H).
Defined.

(** X17: the script leaves through [sys.exit] in one place only: when a
    run ends with [SystemExit], the code is 1, the root was found not to be
    a directory, the line [FATAL] is all the run printed and the tree is
    untouched. *)
Theorem system_exit_only_without_root root dry_run net w c :
  (main root dry_run net w).1 = Raise (SystemExit c) →
  c = 1%Z ∧ is_dir (fs w) root = false ∧
  main root dry_run net w
  = (Raise (SystemExit 1), World (fs w) (out w ++ [LFatal root])).
Proof.
  destruct (is_dir (fs w) root) eqn:Hroot.
  - destruct dry_run.
    + by rewrite main_dry.
    + intros E. destruct (main_raises root net w Hroot) as [H|H];
        rewrite E in H; discriminate H.
  - rewrite main_no_root by done. cbn [fst]. by intros [= <-].
Qed.

Lemma system_exit_only_without_root_witness :
  (main [cps "nowhere"] false net_plain (World fs_logo [])).1 = Raise (SystemExit 1) ∧
  is_dir fs_logo [cps "nowhere"] = false ∧
  main [cps "nowhere"] false net_plain (World fs_logo [])
  = (Raise (SystemExit 1), World fs_logo [LFatal [cps "nowhere"]]).
Proof.
  assert ((main [cps "nowhere"] false net_plain (World fs_logo [])).1
          = Raise (SystemExit 1)) as H by (vm_compute; reflexivity).
  split; [exact H|].
  exact (proj2 (system_exit_only_without_root [cps "nowhere"] false net_plain
                  (World fs_logo []) 1 H)).
Defined.

(** X18: a run removes nothing: every entry of the tree it starts on is in
    the tree it leaves, a directory as a directory and a regular file as a
    regular file. *)
Theorem run_keeps_every_entry root dry_run net w :
  grows (fs w) (fs (main root dry_run net w).2).
Proof.
  pose proof (hoare_main root dry_run net (λ _ w', grows (fs w) (fs w'))) as H.
  unfold hoare in H.
  specialize (H ltac:(done) ltac:(done) ltac:(done) ltac:(
    intros pend line url dest _ w1 Hg;
    destruct (download_file net url dest w1) as [o w2] eqn:E2; cbn [fst snd];
    apply download_file_effect in E2 as [Hg2 _];
    destruct o; [|exists []]; by eapply grows_trans) ltac:(done) w (grows_refl _)).
  destruct (main root dry_run net w) as [[[]|e] w']; cbn [fst snd] in *; [done|].
  by destruct H.
Qed.

(** X19: on a mirror that lacks nothing (the detection functions find no
    missing module, index or asset) a run with downloads returns, leaves
    the tree as it is, requests nothing and prints no item. *)
Theorem complete_mirror_is_left_alone root net w :
  is_dir (fs w) root = true →
  Forall (λ id, missing_mjs_of (fs w) root id = [] ∧
                missing_indexes_in (fs w) root id = [])
         (sorted (site_ids_in (fs w) root)) →
  missing_assets_in (fs w) root = [] →
  (main root false net w).1 = Ret () ∧
  fs (main root false net w).2 = fs w ∧
  requests (out (main root false net w).2) = requests (out w) ∧
  reported (out (main root false net w).2) = reported (out w).
Proof.
  intros Hroot Hsites Hassets.
  destruct (main_complete root net w Hroot Hsites Hassets) as (report & Hrep & ->).
  cbn [fst snd fs out]. split_and!; [done|done| |].
  - rewrite requests_app, (requests_fetch_free report); [by rewrite app_nil_r|].
    eapply Forall_impl; [exact Hrep|]. by intros l [? _].
  - rewrite reported_app.
    assert (reported report = []) as ->; [|by rewrite app_nil_r].
    clear -Hrep. induction Hrep as [|l report [_ Hl] _ IH]; [done|].
    rewrite reported_cons, IH. by destruct l.
Qed.

Lemma complete_mirror_is_left_alone_witness :
  is_dir fs_complete ex_root = true ∧
  missing_assets_in fs_complete ex_root = [] ∧
  (main ex_root false net_down (World fs_complete [])).1 = Ret () ∧
  fs (main ex_root false net_down (World fs_complete [])).2 = fs_complete.
Proof.
  assert (is_dir fs_complete ex_root = true) as Hroot by (vm_compute; reflexivity).
  assert (missing_assets_in fs_complete ex_root = []) as Hassets
    by (vm_compute; reflexivity).
  assert (sorted (site_ids_in fs_complete ex_root) = [cps "abc123"]) as Hids
    by (vm_compute; reflexivity).
  assert (Forall (λ id, missing_mjs_of fs_complete ex_root id = [] ∧
                        missing_indexes_in fs_complete ex_root id = [])
                 (sorted (site_ids_in fs_complete ex_root))) as Hsites.
  { rewrite Hids. constructor; [|constructor]. split; vm_compute; reflexivity. }
  split_and!; [exact Hroot|exact Hassets|..].
  - exact (proj1 (complete_mirror_is_left_alone ex_root net_down
                    (World fs_complete []) Hroot Hsites Hassets)).
  - exact (proj1 (proj2 (complete_mirror_is_left_alone ex_root net_down
                           (World fs_complete []) Hroot Hsites Hassets))).
Defined.

(** X20: a run writes files nowhere but at the destinations of the items
    it reports: every regular file of the tree it leaves was there before
    with the same text, or is where the destination [sites/<id>/<name>] or
    [assets/<name>] of a reported item leads. *)
Theorem files_written_at_reported_destinations root dry_run net fs0 q t :
  fs (main root dry_run net (World fs0 [])).2 !! q = Some (File t) →
  fs0 !! q = Some (File t) ∨
  ∃ line dest,
    line ∈ out (main root dry_run net (World fs0 [])).2 ∧
    item_dest root line = Some dest ∧
    walk (fs (main root dry_run net (World fs0 [])).2) [] dest = Some q.
Proof.
  destruct (is_dir fs0 root) eqn:Hroot.
  - destruct dry_run.
    + rewrite main_dry by done. cbn [snd fs]. by left.
    + apply (main_files root net fs0 (World fs0 []) Hroot). intros q' t' ?. by left.
  - rewrite main_no_root by done. cbn [snd fs]. by left.
Qed.

Lemma files_written_at_reported_destinations_witness :
  fs (main ex_root false net_plain (World fs_logo [])).2
    !! (ex_root ++ [cps "assets"; cps "logo123.png"])
  = Some (File (Some (cps "export {}"))) ∧
  (fs_logo !! (ex_root ++ [cps "assets"; cps "logo123.png"])
   = Some (File (Some (cps "export {}"))) ∨
   ∃ line dest,
     line ∈ out (main ex_root false net_plain (World fs_logo [])).2 ∧
     item_dest ex_root line = Some dest ∧
     walk (fs (main ex_root false net_plain (World fs_logo [])).2) [] dest
     = Some (ex_root ++ [cps "assets"; cps "logo123.png"])).
Proof.
  assert (fs (main ex_root false net_plain (World fs_logo [])).2
            !! (ex_root ++ [cps "assets"; cps "logo123.png"])
          = Some (File (Some (cps "export {}")))) as H by (vm_compute; reflexivity).
  split; [exact H|].
  exact (files_written_at_reported_destinations ex_root false net_plain fs_logo _ _ H).
Defined.

(** X21: a dry run does not depend on the network: its outcome, its output
    and the tree it leaves are the same whatever the server would answer. *)
Theorem dry_run_ignores_network root net net' w :
  main root true net w = main root true net' w.
Proof.
  destruct (is_dir (fs w) root) eqn:Hroot.
  - by rewrite !main_dry.
  - by rewrite !main_no_root.
Qed.

